(** * JetNet dataset class (jetnet.py): shallow embedding and properties

    The development follows [src/jetnet.py].  Tensors are three-dimensional
    arrays [jets x particles x features] kept with their shape; the element
    arithmetic is a parameter ([Dtype]), instantiated with IEEE binary32
    (what [torch.load(...).float()] yields).  Python exceptions, in-place
    tensor mutation and the attribute dictionary of [self] are explicit. *)

From Stdlib Require Import ZArith List Bool Lia.
From Stdlib Require Import Floats.SpecFloat.
From Stdlib Require QArith Qabs Qpower Lqa.
From stdpp Require Import gmap strings list.

Open Scope Z_scope.

(** ** Element arithmetic *)

(** The operations the class applies to tensor elements.  Python scalars
    that enter tensor arithmetic ([feature_norms[i]], [feature_shifts[i]],
    the literals [0], [0.5], [1], [5], [2.]) are taken at the precision of
    the tensor, which is what torch does when a tensor meets a Python
    number. *)
Class Dtype (R : Type) := {
  of_Z : Z -> R;
  half : R;
  fadd : R -> R -> R;
  fsub : R -> R -> R;
  fmul : R -> R -> R;
  fdiv : R -> R -> R;
  fabs : R -> R;
  feq : R -> R -> bool;
  flt : R -> R -> bool;
  fle : R -> R -> bool;
  fisnan : R -> bool
}.

(** IEEE 754 binary32: 24 bits of precision, exponent bound 128. *)
Module F32.
Definition prec : Z := 24.
Definition emax : Z := 128.
Definition t := spec_float.

Definition of_Z (z : Z) : t := binary_normalize prec emax z 0 false.
Definition zero : t := S754_zero false.
Definition neg_zero : t := S754_zero true.
Definition one : t := Eval vm_compute in of_Z 1.
Definition half : t := Eval vm_compute in SFdiv prec emax (of_Z 1) (of_Z 2).
Definition inf : t := S754_infinity false.
Definition nan : t := S754_nan.

Definition is_nan (x : t) : bool :=
  match x with S754_nan => true | _ => false end.
End F32.

(** A zero of either sign. *)
Definition is_zero (x : F32.t) : Prop := x = F32.zero ∨ x = F32.neg_zero.
Definition is_zerob (x : F32.t) : bool :=
  match x with S754_zero _ => true | _ => false end.

#[export] Instance f32 : Dtype F32.t := {|
  of_Z := F32.of_Z;
  half := F32.half;
  fadd := SFadd F32.prec F32.emax;
  fsub := SFsub F32.prec F32.emax;
  fmul := SFmul F32.prec F32.emax;
  fdiv := SFdiv F32.prec F32.emax;
  fabs := SFabs;
  feq := SFeqb;
  flt := SFltb;
  fle := SFleb;
  fisnan := F32.is_nan
|}.

(** The rational a binary32 number stands for (0 for a NaN or an
    infinity), and the normal numbers: those with a full mantissa. *)
Section Values.
Import QArith.

Definition to_Q (x : F32.t) : Q :=
  match x with
  | S754_finite s m e => (inject_Z (cond_Zopp s (Z.pos m)) * 2 ^ e)%Q
  | _ => 0%Q
  end.

Definition normal (x : F32.t) : bool :=
  match x with
  | S754_finite _ m _ => (8388608 <=? Z.pos m)%Z
  | _ => false
  end.

(** Finite, and finite and not zero. *)
Definition finite (x : F32.t) : bool :=
  match x with
  | S754_finite _ _ _ | S754_zero _ => true
  | _ => false
  end.

Definition finite_nonzero (x : F32.t) : bool :=
  match x with S754_finite _ _ _ => true | _ => false end.

(** 2^-23, the distance from 1 to the next binary32 number. *)
Definition eps : Q := (1 # 8388608)%Q.

Definition sign (s : bool) : Q := if s then (-1)%Q else 1%Q.

(** The rational a shift stands for: 0 when the shift is None. *)
Definition shift_Q (s : option F32.t) : Q :=
  match s with Some s' => to_Q s' | None => 0%Q end.
End Values.


(** ** Tensors *)

(** A float tensor of rank three with its shape, as [torch.Tensor] keeps
    it: [cells t] is the list of jets, a jet the list of its particles, a
    particle the list of its features.  The shape is stored because
    [dataset.shape[1]] and [dataset.shape[2]] are read also when the tensor
    has no jet. *)
Record tensor (R : Type) := Tensor {
  shape0 : nat;
  shape1 : nat;
  shape2 : nat;
  cells : list (list (list R))
}.
Arguments Tensor {R} _ _ _ _.
Arguments shape0 {R} _.
Arguments shape1 {R} _.
Arguments shape2 {R} _.
Arguments cells {R} _.

Section Tensors.
Context {R : Type}.

Definition has_shape (n p f : nat) (c : list (list (list R))) : Prop :=
  length c = n ∧
  Forall (λ j, length j = p ∧ Forall (λ x, length x = f) j) c.

Definition well_shaped (t : tensor R) : Prop :=
  has_shape (shape0 t) (shape1 t) (shape2 t) (cells t).

(** The same test as a computation. *)
Definition has_shapeb (n p f : nat) (c : list (list (list R))) : bool :=
  (length c =? n)%nat &&
  forallb (λ j, (length j =? p)%nat
                && forallb (λ x : list R, (length x =? f)%nat) j) c.

(** [t[n, p, i]] *)
Definition cell (t : tensor R) (n p i : nat) : option R :=
  j ← cells t !! n; x ← j !! p; x !! i.

(** [t[:, :, i]] read as an N x P matrix. *)
Definition column (i : nat) (t : tensor R) : list (list R) :=
  map (omap (λ x : list R, x !! i)) (cells t).

(** [t[:, :, i] = g(t[:, :, i])], elementwise and in place. *)
Definition map_column (i : nat) (g : R → R) (t : tensor R) : tensor R :=
  Tensor (shape0 t) (shape1 t) (shape2 t)
         (map (map (alter g i)) (cells t)).

(** [g] applied to every element. *)
Definition map_cells (g : R → R) (c : list (list (list R)))
  : list (list (list R)) :=
  map (map (map g)) c.

(** [t[:, :k, :]] for [0 < k < shape1 t]. *)
Definition narrow_particles (k : nat) (t : tensor R) : tensor R :=
  Tensor (shape0 t) k (shape2 t) (map (take k) (cells t)).

(** [torch.nn.functional.pad(t, (0, 0, 0, k), "constant", 0)]: [k] slots
    filled with [z] appended to every jet. *)
Definition pad_particles (z : R) (k : nat) (t : tensor R) : tensor R :=
  Tensor (shape0 t) (shape1 t + k) (shape2 t)
         (map (λ j, j ++ replicate k (replicate (shape2 t) z)) (cells t)).

(** [t[:, :, :-1]] *)
Definition drop_last_feature (t : tensor R) : tensor R :=
  Tensor (shape0 t) (shape1 t) (Nat.pred (shape2 t))
         (map (map (λ x : list R, take (Nat.pred (length x)) x)) (cells t)).

(** Boolean indexing [c[mask] = z] on the two leading axes: every feature
    of a particle whose mask entry is [true] becomes [z]. *)
Definition fill_where (z : R) (mask : list (list bool))
    (c : list (list (list R))) : list (list (list R)) :=
  zip_with (zip_with (λ (b : bool) (x : list R),
                        if b then map (λ _, z) x else x)) mask c.

Definition flatten (m : list (list R)) : list R := concat m.
End Tensors.

(** Entry [(n, p)] of a matrix, or particle [(n, p)] of the cells of a
    tensor. *)
Definition slot {A} (c : list (list A)) (n p : nat) : option A :=
  j ← c !! n; j !! p.

Section ColumnRelations.
Context {R : Type}.

(** [t'] is [t] with [g] applied to column [i], nothing else changed. *)
Definition column_changed (i : nat) (g : R → R) (t t' : tensor R) : Prop :=
  shape0 t' = shape0 t ∧ shape1 t' = shape1 t ∧ shape2 t' = shape2 t ∧
  (well_shaped t → well_shaped t') ∧
  ∀ n p j, cell t' n p j =
           if decide (j = i) then g <$> cell t n p j else cell t n p j.
End ColumnRelations.

(** ** Exceptions, the tensor heap and the interpreter monad *)

(** The Python exceptions the class can raise.  [ConfigurationError] is the
    error the specification names for inconsistent options; no statement of
    jetnet.py raises it. *)
Inductive exn :=
| AttributeError (name : string)
| IndexError
| RuntimeError
| TypeError
| ValueError
| OverflowError
| ConfigurationError.

Inductive outcome (A : Type) :=
| Returned (a : A)
| Raised (e : exn).
Arguments Returned {A} _.
Arguments Raised {A} _.

(** Tensor objects live in a heap addressed by references; two names for
    one tensor hold the same reference. *)
Abbreviation loc := positive.
Abbreviation heap R := (gmap positive (tensor R)).

(** A computation reads and updates the heap; the heap survives an
    exception, as in Python. *)
Definition Py (R A : Type) : Type := heap R → outcome A * heap R.

Section LoopRelations.
Context {R : Type}.

(** The heap after the iterations below [k] of a loop that rewrites one
    column per iteration ([G j g]: iteration [j] applies [g] to column [j]):
    only the tensor behind [l] differs from [h0], and there only the columns
    below [k]. *)
Definition columns_done (l : loc) (G : nat → (R → R) → Prop)
    (h0 : heap R) (t0 : tensor R) (k : nat) (h : heap R) : Prop :=
  ∃ t', h = <[l := t']> h0 ∧
    shape0 t' = shape0 t0 ∧ shape1 t' = shape1 t0 ∧ shape2 t' = shape2 t0 ∧
    (well_shaped t0 → well_shaped t') ∧
    (∀ j, (j < k)%nat →
          ∃ g, G j g ∧ ∀ n p, cell t' n p j = g <$> cell t0 n p j) ∧
    (∀ j n p, (k ≤ j)%nat → cell t' n p j = cell t0 n p j).
End LoopRelations.

Section Monad.
Context {R : Type}.

Definition ret {A} (a : A) : Py R A := λ h, (Returned a, h).
Definition raise {A} (e : exn) : Py R A := λ h, (Raised e, h).
Definition bind {A B} (c : Py R A) (k : A → Py R B) : Py R B :=
  λ h, match c h with
       | (Returned a, h') => k a h'
       | (Raised e, h') => (Raised e, h')
       end.

(** Dereference a tensor argument; an argument that is no tensor has no
    [shape]. *)
Definition read (l : loc) : Py R (tensor R) :=
  λ h, match h !! l with
       | Some t => (Returned t, h)
       | None => (Raised (AttributeError "shape"), h)
       end.

Definition write (l : loc) (t : tensor R) : Py R unit :=
  λ h, (Returned tt, <[l := t]> h).

(** A new tensor object. *)
Definition alloc (t : tensor R) : Py R loc :=
  λ h, let l := fresh (dom h) in (Returned l, <[l := t]> h).

(** In-place update of the tensor behind [l]. *)
Definition update (l : loc) (g : tensor R → tensor R) : Py R unit :=
  bind (read l) (λ t, write l (g t)).

(** [for i in l: body i] *)
Fixpoint for_each (l : list nat) (body : nat → Py R unit) : Py R unit :=
  match l with
  | [] => ret tt
  | i :: l' => bind (body i) (λ _, for_each l' body)
  end.

(** [[body i for i in l]] *)
Fixpoint collect {A} (l : list nat) (body : nat → Py R A) : Py R (list A) :=
  match l with
  | [] => ret []
  | i :: l' => bind (body i) (λ a, bind (collect l' body) (λ r, ret (a :: r)))
  end.

(** [l[i]] on a Python list *)
Definition list_item {A} (l : list A) (i : nat) : Py R A :=
  match l !! i with
  | Some a => ret a
  | None => raise IndexError
  end.
End Monad.

Declare Scope py_scope.
Delimit Scope py_scope with py.
Notation "x <- c ;; k" := (bind c (λ x, k))
  (at level 100, c at next level, right associativity) : py_scope.
Notation "c ;; k" := (bind c (λ _, k))
  (at level 100, right associativity) : py_scope.
Open Scope py_scope.

(** ** Python values of the class *)

(** What an instance attribute can hold. *)
Inductive attr (R : Type) :=
| AInt (z : Z)                        (* int *)
| ABool (b : bool)                    (* bool *)
| AOptList (l : list (option R))      (* list of floats, entries may be None *)
| AList (l : list R)                  (* list of floats *)
| AScalar (x : R)                     (* tensor of rank zero *)
| ASlice (l : loc) (start stop : nat) (* view [dataset[start:stop]] of a tensor *)
| AMatrix (m : list (list R)).        (* tensor of rank two, never mutated *)
Arguments AInt {R} _.
Arguments ABool {R} _.
Arguments AOptList {R} _.
Arguments AList {R} _.
Arguments AScalar {R} _.
Arguments ASlice {R} _ _ _.
Arguments AMatrix {R} _.

(** What [unnormalize_features] can return. *)
Inductive pyval :=
| VNone
| VTensor (l : loc)                   (* the tensor object itself *)
| VColumn (l : loc) (i : nat)         (* the view [dataset[:, :, i]] *)
| VMask (m : list (list bool))        (* a new boolean tensor *)
| VTuple (a b : pyval).

(** What subscripting an attribute with an int hands out. *)
Inductive item (R : Type) :=
| IJet (particles : list (list R))    (* [data[idx]]: one jet of a view *)
| IRow (row : list R)                 (* a row of a tensor of rank two *)
| IFloat (x : option R).              (* an entry of a list *)
Arguments IJet {R} _.
Arguments IRow {R} _.
Arguments IFloat {R} _.

(** The instance dictionary of [self]. *)
Abbreviation object R := (gmap string (attr R)).

(** A computation that never raises ConfigurationError. *)
Definition never_cfg {R A} (c : Py R A) : Prop :=
  ∀ h h', c h ≠ (Raised ConfigurationError, h').

(** What a run handed back, for statements about concrete runs. *)
Definition returns {R A} (r : outcome A * heap R) : bool :=
  match r with (Returned _, _) => true | _ => false end.

Definition value {R A} (d : A) (r : outcome A * heap R) : A :=
  match r with (Returned a, _) => a | _ => d end.

Definition returned_object {R} (r : outcome (object R) * heap R) : object R :=
  value ∅ r.

Section Attributes.
Context {R : Type}.

Definition getattr (self : object R) (name : string) : Py R (attr R) :=
  match self !! name with
  | Some v => ret v
  | None => raise (AttributeError name)
  end.

Definition get_int (self : object R) (name : string) : Py R Z :=
  v <- getattr self name ;;
  match v with AInt z => ret z | _ => raise TypeError end.

Definition get_bool (self : object R) (name : string) : Py R bool :=
  v <- getattr self name ;;
  match v with ABool b => ret b | _ => raise TypeError end.

Definition get_opt_list (self : object R) (name : string)
  : Py R (list (option R)) :=
  v <- getattr self name ;;
  match v with AOptList l => ret l | _ => raise TypeError end.

Definition get_list (self : object R) (name : string) : Py R (list R) :=
  v <- getattr self name ;;
  match v with AList l => ret l | _ => raise TypeError end.
End Attributes.

(** ** The class JetNet *)

(** Keyword arguments of the constructor.  [jet_type], [data_dir] and
    [download] only select the file [torch.load] reads; the constructor
    below starts from the tensor that call returns. *)
Record args (R : Type) := Args {
  num_particles : Z;
  feature_norms : list (option R);
  feature_shifts : list (option R);
  use_mask : bool;
  train : bool;
  train_fraction : spec_float;            (* a Python float: binary64 *)
  num_pad_particles : Z;
  use_num_particles_jet_feature : bool;
  noise_padding : bool
}.
Arguments Args {R} _ _ _ _ _ _ _ _ _.
Arguments num_particles {R} _.
Arguments feature_norms {R} _.
Arguments feature_shifts {R} _.
Arguments use_mask {R} _.
Arguments train {R} _.
Arguments train_fraction {R} _.
Arguments num_pad_particles {R} _.
Arguments use_num_particles_jet_feature {R} _.
Arguments noise_padding {R} _.

(** Python floats (binary64) met outside tensors: [len(dataset) *
    train_fraction] and [int(...)]. *)
Module F64.
Definition prec : Z := 53.
Definition emax : Z := 1024.
Definition of_nat (n : nat) : spec_float :=
  binary_normalize prec emax (Z.of_nat n) 0 false.
Definition mul : spec_float → spec_float → spec_float := SFmul prec emax.
(** 0.7, the default [train_fraction] *)
Definition seven_tenths : spec_float :=
  Eval vm_compute in SFdiv prec emax (of_nat 7) (of_nat 10).
Definition one : spec_float := Eval vm_compute in of_nat 1.
End F64.

Section JetNet.
Context {R : Type} {D : Dtype R}.

(** The literal [0] at the tensor's precision. *)
Definition zero : R := of_Z 0.

(** [torch.max] of two elements: a NaN wins. *)
Definition tmax (a b : R) : R :=
  if fisnan a then a else if fisnan b then b else if flt a b then b else a.

(** [float(torch.max(torch.abs(dataset[:, :, i])))]; [torch.max] raises on
    a tensor without elements. *)
Definition max_abs (i : nat) (t : tensor R) : Py R R :=
  match flatten (column i t) with
  | [] => raise RuntimeError
  | x :: xs => ret (fold_left tmax (map fabs xs) (fabs x))
  end.

(** [torch.unique(v, sorted=True)]: ascending, NaN last; of a run of
    neighbours that compare equal the first is kept (a NaN equals
    nothing).  The sort keeps equal elements in the order they had. *)
Definition sort_le (x y : R) : bool :=
  if fisnan y then true else if fisnan x then false else fle x y.

Fixpoint insert_sorted (x : R) (l : list R) : list R :=
  match l with
  | [] => [x]
  | y :: l' => if sort_le x y then x :: l else y :: insert_sorted x l'
  end.

(** The elements of [l] that differ from their left neighbour, [prev]
    being the neighbour of the first. *)
Fixpoint drop_repeats (prev : R) (l : list R) : list R :=
  match l with
  | [] => []
  | y :: l' =>
      if feq prev y then drop_repeats y l' else y :: drop_repeats y l'
  end.

Definition merge_equal (l : list R) : list R :=
  match l with
  | [] => []
  | x :: l' => x :: drop_repeats x l'
  end.

Definition unique (v : list R) : list R :=
  merge_equal (foldr insert_sorted [] v).

(** *** csv_to_pt

    [rows] stands for the lines of numbers [np.loadtxt(csv_file)] parses;
    the result is the tensor handed to [torch.save].  [np.loadtxt] raises
    ValueError on lines of different lengths, [reshape(-1, 30, 4)] raises
    ValueError when the number of values is no multiple of 120. *)
Fixpoint chunks {A} (k n : nat) (l : list A) : list (list A) :=
  match n with
  | O => []
  | S n' => take k l :: chunks k n' (drop k l)
  end.

Definition rectangular {A} (rows : list (list A)) : bool :=
  match rows with
  | [] => true
  | r :: rs => forallb (λ r', (length r' =? length r)%nat) rs
  end.

Definition csv_to_pt {A} (rows : list (list A)) : outcome (tensor A) :=
  if rectangular rows then
    let values := concat rows in
    if (length values mod 120 =? 0)%nat then
      let n := (length values / 120)%nat in
      Returned (Tensor n 30 4 (map (chunks 4 30) (chunks 120 n values)))
    else Raised ValueError
  else Raised ValueError.

(** [torch.load(pt_file).float()]: the saved tensor with every element
    converted to the precision of the dataset. *)
Definition to_float {A} (conv : A → R) (t : tensor A) : tensor R :=
  Tensor (shape0 t) (shape1 t) (shape2 t) (map (map (map conv)) (cells t)).

(** *** load_dataset

    [raw] stands for [torch.load(pt_file).float()]. *)
Definition load_dataset (raw : tensor R)
    (num_particles num_pad_particles : Z) (use_mask : bool) : Py R loc :=
  let dataset := raw in
  let dataset :=
    if (0 <? num_particles - num_pad_particles)
       && (num_particles - num_pad_particles <? Z.of_nat (shape1 dataset))
    then narrow_particles (Z.to_nat (num_particles - num_pad_particles)) dataset
    else dataset in
  let dataset :=
    if 0 <? num_pad_particles
    then pad_particles zero (Z.to_nat num_pad_particles) dataset
    else dataset in
  let dataset :=
    if negb use_mask then drop_last_feature dataset else dataset in
  alloc dataset.

(** *** get_jet_features

    [torch.sum(dataset[:, :, 3], dim=1) / self.num_particles], then
    [unsqueeze(1)].  torch converts the Python int to a 64-bit scalar and
    raises OverflowError when it fits neither the signed nor the unsigned
    one; what it does from 2^63 up to 2^64 depends on its version, and no
    statement below speaks about that range.  Dividing a float tensor by
    the int [0] raises nothing.  torch does not fix the order of the
    additions of [torch.sum]; here they are taken left to right.  On a
    column of 0/1 flags no addition rounds in any order, so every order
    gives the same number; no statement below gives the sum of any other
    column. *)
Definition fits_scalar (z : Z) : bool :=
  (- 2 ^ 63 <=? z) && (z <? 2 ^ 64).

Definition get_jet_features (self : object R) (dataset : loc)
    (use_num_particles_jet_feature : bool) : Py R (list (list R)) :=
  t <- read dataset ;;
  if decide (3 < shape2 t)%nat then
    num_particles <- get_int self "num_particles" ;;
    if fits_scalar num_particles then
      ret (map (λ row, [fdiv (fold_left fadd row zero) (of_Z num_particles)])
               (column 3 t))
    else raise OverflowError
  else raise IndexError.

(** *** normalize_features *)
Definition normalize_features (self : object R) (dataset : loc)
    (feature_norms feature_shifts : list (option R))
  : Py R (loc * list R * R) :=
  t <- read dataset ;;
  let num_features := shape2 t in
  feature_maxes <- collect (seq 0 num_features)
                     (λ i, t <- read dataset ;; max_abs i t) ;;
  for_each (seq 0 num_features) (λ i,
    norm <- list_item feature_norms i ;;
    match norm with
    | Some m =>
        mx <- list_item feature_maxes i ;;
        update dataset (map_column i (λ x, fdiv x mx)) ;;
        update dataset (map_column i (λ x, fmul x m))
    | None => ret tt
    end ;;
    shift <- list_item feature_shifts i ;;
    match shift with
    | Some s =>
        if negb (feq s zero)
        then update dataset (map_column i (λ x, fadd x s))
        else ret tt
    | None => ret tt
    end) ;;
  t <- read dataset ;;
  pt_cutoff <- (if decide (2 < shape2 t)%nat
                then list_item (unique (flatten (column 2 t))) 1
                else raise IndexError) ;;
  ret (dataset, feature_maxes, pt_cutoff).

(** *** unnormalize_features

    The [return] statement reads
    [dataset[:, :, -1], (mask if ret_mask_separate else dataset)]: the
    conditional expression binds tighter than the comma, so a pair is built
    in both modes. *)
Definition unnormalize_features (self : object R) (dataset : loc)
    (ret_mask_separate is_real_data zero_mask_particles zero_neg_pt : bool)
  : Py R pyval :=
  t <- read dataset ;;
  let num_features := shape2 t in
  for_each (seq 0 num_features) (λ i,
    feature_shifts <- get_opt_list self "feature_shifts" ;;
    shift <- list_item feature_shifts i ;;
    match shift with
    | Some s =>
        if negb (feq s zero)
        then update dataset (map_column i (λ x, fsub x s))
        else ret tt
    | None => ret tt
    end ;;
    feature_norms <- get_opt_list self "feature_norms" ;;
    norm <- list_item feature_norms i ;;
    match norm with
    | Some m =>
        update dataset (map_column i (λ x, fdiv x m)) ;;
        feature_maxes <- get_list self "feature_maxes" ;;
        mx <- list_item feature_maxes i ;;
        update dataset (map_column i (λ x, fmul x mx))
    | None => ret tt
    end) ;;
  use_mask <- get_bool self "use_mask" ;;
  mask <- (if use_mask then
             t <- read dataset ;;
             if decide (0 < shape2 t)%nat
             then ret (Some (map (map (λ x, fle half x))
                                 (column (shape2 t - 1) t)))
             else raise IndexError
           else ret None) ;;
  (if negb is_real_data && zero_mask_particles then
     use_mask <- get_bool self "use_mask" ;;
     if use_mask then
       match mask with
       | Some m =>
           update dataset (λ t, Tensor (shape0 t) (shape1 t) (shape2 t)
                                  (fill_where zero (map (map negb) m) (cells t)))
       | None => raise TypeError
       end
     else ret tt
   else ret tt) ;;
  (if negb is_real_data && zero_neg_pt then
     t <- read dataset ;;
     if decide (2 < shape2 t)%nat
     then update dataset (map_column 2 (λ x, if flt x zero then zero else x))
     else raise IndexError
   else ret tt) ;;
  t <- read dataset ;;
  if decide (0 < shape2 t)%nat then
    ret (VTuple (VColumn dataset (shape2 t - 1))
                (if ret_mask_separate
                 then match mask with Some m => VMask m | None => VNone end
                 else VTensor dataset))
  else raise IndexError.

(** *** add_noise_padding

    [randn n p f] stands for the draw [torch.randn((n, p, f))]. *)
Variable randn : nat → nat → nat → list (list (list R)).

Definition add_noise_padding (self : object R) (dataset : loc) : Py R loc :=
  t <- read dataset ;;
  num_particles <- get_int self "num_particles" ;;
  if (num_particles <? 0) || (shape2 t =? 0)%nat then raise RuntimeError
  else
    let noise_padding :=
      map_cells (λ x, fdiv x (of_Z 5))
                (randn (shape0 t) (Z.to_nat num_particles) (shape2 t - 1)) in
    let noise_padding :=
      map_cells (λ x, if flt (of_Z 1) x then of_Z 1 else x) noise_padding in
    let noise_padding :=
      map_cells (λ x, if flt x (of_Z (-1)) then of_Z (-1) else x) noise_padding in
    if decide (2 < shape2 t - 1)%nat then
      let noise_padding :=
        map (map (alter (λ x, fdiv x (of_Z 2)) 2%nat)) noise_padding in
      let mask :=
        map (map (λ x, negb (feq (fadd x half) zero))) (column 3 t) in
      if decide (shape1 t = Z.to_nat num_particles) then
        let noise_padding := fill_where zero mask noise_padding in
        let addend := map (map (λ x, x ++ [zero])) noise_padding in
        write dataset
              (Tensor (shape0 t) (shape1 t) (shape2 t)
                      (zip_with (zip_with (zip_with fadd)) (cells t) addend)) ;;
        ret dataset
      else raise IndexError
    else raise IndexError.

(** *** __init__ *)

(** [a and b] where [a] is a bool: [b] is evaluated only if [a] holds. *)
Definition py_and (a : bool) (b : Py R (attr R)) : Py R (attr R) :=
  if a then b else ret (ABool false).

(** [int(x)] on a Python float *)
Definition py_int (x : spec_float) : Py R Z :=
  match x with
  | S754_nan => raise ValueError
  | S754_infinity _ => raise OverflowError
  | S754_zero _ => ret 0
  | S754_finite s m e =>
      ret (cond_Zopp s (match e with
                        | Zneg k => Z.pos m / 2 ^ Z.pos k
                        | _ => Z.pos m * 2 ^ e
                        end))
  end.

(** Where the bound [k] of a slice falls on an axis of length [n]. *)
Definition slice_bound (n : nat) (k : Z) : nat :=
  if k <? 0 then Z.to_nat (Z.max 0 (Z.of_nat n + k))
  else Z.to_nat (Z.min k (Z.of_nat n)).

Definition __init__ (raw : tensor R) (a : args R) : Py R (object R) :=
  let self : object R := ∅ in
  let self := <["num_particles" := AInt (num_particles a)]> self in
  let self := <["feature_norms" := AOptList (feature_norms a)]> self in
  let self := <["feature_shifts" := AOptList (feature_shifts a)]> self in
  let self := <["use_mask" := ABool (use_mask a)]> self in
  v <- py_and (use_num_particles_jet_feature a) (getattr self "use_mask") ;;
  let self := <["use_jet_features" := v]> self in
  v <- py_and (noise_padding a) (getattr self "use_masks") ;;
  let self := <["noise_padding" := v]> self in
  dataset <- load_dataset raw (num_particles a) (num_pad_particles a)
               (use_mask a) ;;
  use_jet_features <- get_bool self "use_jet_features" ;;
  jet_features <- (if use_jet_features
                   then get_jet_features self dataset
                          (use_num_particles_jet_feature a)
                   else ret []) ;;
  r <- normalize_features self dataset (feature_norms a) (feature_shifts a) ;;
  let '(dataset, feature_maxes, pt_cutoff) := r in
  let self := <["feature_maxes" := AList feature_maxes]> self in
  let self := <["pt_cutoff" := AScalar pt_cutoff]> self in
  noise <- get_bool self "noise_padding" ;;
  dataset <- (if noise then add_noise_padding self dataset else ret dataset) ;;
  t <- read dataset ;;
  tcut <- py_int (F64.mul (F64.of_nat (shape0 t)) (train_fraction a)) ;;
  let cut := slice_bound (shape0 t) tcut in
  let self :=
    <["data" := if train a then ASlice dataset 0 cut
                else ASlice dataset cut (shape0 t)]> self in
  use_jet_features <- get_bool self "use_jet_features" ;;
  let self :=
    if use_jet_features
    then <["jet_features" := AMatrix (if train a then take cut jet_features
                                      else drop cut jet_features)]> self
    else self in
  ret self.

(** *** __len__: [len(self.X)] *)
Definition __len__ (self : object R) : Py R nat :=
  v <- getattr self "X" ;;
  match v with
  | ASlice _ start stop => ret (stop - start)%nat
  | AMatrix m => ret (length m)
  | AOptList l => ret (length l)
  | AList l => ret (length l)
  | _ => raise TypeError
  end.

(** The records of the split a view denotes. *)
Definition records (h : heap R) (v : attr R) : option (list (list (list R))) :=
  match v with
  | ASlice l start stop =>
      t ← h !! l; Some (take (stop - start) (drop start (cells t)))
  | _ => None
  end.

(** *** __getitem__

    [self.data[idx], (self.jet_features[idx] if self.use_jet_features else
    self.data[idx])] for an int [idx]. *)

(** Where [idx] falls on an axis of length [n]: a negative index counts
    from the end. *)
Definition index_of (n : nat) (idx : Z) : option nat :=
  if (0 <=? idx) && (idx <? Z.of_nat n) then Some (Z.to_nat idx)
  else if (- Z.of_nat n <=? idx) && (idx <? 0)
       then Some (Z.to_nat (Z.of_nat n + idx))
       else None.

Definition pick {A} (v : list A) (idx : Z) : Py R A :=
  match index_of (length v) idx with
  | Some i => list_item v i
  | None => raise IndexError
  end.

(** [v[idx]] *)
Definition subscript (v : attr R) (idx : Z) : Py R (item R) :=
  match v with
  | ASlice l start stop =>
      t <- read l ;;
      jet <- pick (take (stop - start) (drop start (cells t))) idx ;;
      ret (IJet jet)
  | AMatrix m => row <- pick m idx ;; ret (IRow row)
  | AList l => x <- pick l idx ;; ret (IFloat (Some x))
  | AOptList l => x <- pick l idx ;; ret (IFloat x)
  | AScalar _ => raise IndexError
  | AInt _ | ABool _ => raise TypeError
  end.

Definition __getitem__ (self : object R) (idx : Z) : Py R (item R * item R) :=
  data <- getattr self "data" ;;
  first <- subscript data idx ;;
  use_jet_features <- get_bool self "use_jet_features" ;;
  second <- (if use_jet_features
             then jet_features <- getattr self "jet_features" ;;
                  subscript jet_features idx
             else data <- getattr self "data" ;;
                  subscript data idx) ;;
  ret (first, second).
End JetNet.

(** ** The transform in the words of the specification

    Section 4.3: scale to the target max-abs, then shift; the inverse
    subtracts the shift, divides by the target and multiplies by the
    observed max-abs. *)
Section Transform.
Context {R : Type} {D : Dtype R}.

Definition scale (norm : option R) (mx x : R) : R :=
  match norm with Some m => fmul (fdiv x mx) m | None => x end.

Definition shift (s : option R) (x : R) : R :=
  match s with
  | Some s => if negb (feq s zero) then fadd x s else x
  | None => x
  end.

Definition unshift (s : option R) (x : R) : R :=
  match s with
  | Some s => if negb (feq s zero) then fsub x s else x
  | None => x
  end.

Definition unscale (norm : option R) (mx x : R) : R :=
  match norm with Some m => fmul (fdiv x m) mx | None => x end.

(** The optional post-processing of [unnormalize_features] on feature
    [j] of a particle: [ylast] is the particle's un-normalized last
    feature (the mask), [y] the un-normalized feature itself. *)
Definition postprocess (use_mask is_real_data zero_mask_particles
    zero_neg_pt : bool) (j : nat) (ylast y : R) : R :=
  let y1 :=
    if negb is_real_data && zero_mask_particles && use_mask
       && negb (fle half ylast)
    then zero else y in
  if negb is_real_data && zero_neg_pt && (j =? 2)%nat && flt y1 zero
  then zero else y1.

(** Whether the post-processing can touch feature [j]: line 210 zeroes
    whole particles, line 213 the pt only. *)
Definition postprocessed (use_mask is_real_data zero_mask_particles
    zero_neg_pt : bool) (j : nat) : bool :=
  negb is_real_data
  && (zero_mask_particles && use_mask || zero_neg_pt && (j =? 2)%nat).

(** Max-abs of a non-empty list of elements. *)
Definition max_abs_of (v : list R) : option R :=
  match v with
  | [] => None
  | x :: xs => Some (fold_left tmax (map fabs xs) (fabs x))
  end.

(** What iteration [j] of the loop of [normalize_features] applies. *)
Definition normalize_step (norms shifts : list (option R)) (maxes : list R)
    (j : nat) (g : R → R) : Prop :=
  ∃ norm s, norms !! j = Some norm ∧ shifts !! j = Some s ∧
    ∀ mx, maxes !! j = Some mx → ∀ x, g x = shift s (scale norm mx x).

(** What iteration [j] of the loop of [unnormalize_features] applies. *)
Definition unnormalize_step (norms shifts : list (option R))
    (maxes : list R) (j : nat) (g : R → R) : Prop :=
  ∃ norm s mx, norms !! j = Some norm ∧ shifts !! j = Some s ∧
    (is_Some norm → maxes !! j = Some mx) ∧
    ∀ x, g x = unscale norm mx (unshift s x).

(** What [add_noise_padding] makes of one draw [x] before it is masked:
    divided by 5, clipped to [-1, 1], and halved on the pt feature. *)
Definition noise_of_draw (j : nat) (x : R) : R :=
  let y := fdiv x (of_Z 5) in
  let y := if flt (of_Z 1) y then of_Z 1 else y in
  let y := if flt y (of_Z (-1)) then of_Z (-1) else y in
  if decide (j = 2%nat) then fdiv y (of_Z 2) else y.

(** The value the call hands back: always a pair. *)
Definition unnormalize_result (um : bool) (l : loc)
    (ret_mask_separate : bool) (t1 : tensor R) : pyval :=
  VTuple (VColumn l (shape2 t1 - 1))
         (if ret_mask_separate
          then if um
               then VMask (map (map (λ x, fle half x))
                               (column (shape2 t1 - 1) t1))
               else VNone
          else VTensor l).
End Transform.

(** ** Round trip

    [normalize_features] on the array [x], then [unnormalize_features] on
    the same array with the fitted parameters; the result is the array as
    the caller finds it afterwards. *)
Section RoundTrip.
Context {R : Type} {D : Dtype R}.

Definition fitted (norms shifts : list (option R)) (maxes : list R)
    (use_mask : bool) : object R :=
  <["feature_maxes" := AList maxes]>
  (<["use_mask" := ABool use_mask]>
  (<["feature_shifts" := AOptList shifts]>
  (<["feature_norms" := AOptList norms]> ∅))).

(** The six values a cell [a] of a scaled feature takes on the way, in
    order: after lines 166, 167 and 170 of [normalize_features] and after
    lines 202, 205 and 206 of [unnormalize_features]; [m] is the target
    max-abs, [s] the shift and [mx] the observed max-abs. *)
Definition roundtrip_steps (m : R) (s : option R) (mx a : R) : list R :=
  let d1 := fdiv a mx in
  let d2 := fmul d1 m in
  let y := shift s d2 in
  let u := unshift s y in
  let d3 := fdiv u m in
  let d4 := fmul d3 mx in
  [d1; d2; y; u; d3; d4].

Definition roundtrip (norms shifts : list (option R))
    (use_mask is_real_data zero_mask_particles zero_neg_pt : bool)
    (x : tensor R) : option (tensor R) :=
  match normalize_features ∅ 1%positive norms shifts {[1%positive := x]} with
  | (Returned (dataset, maxes, _), h1) =>
      match unnormalize_features (fitted norms shifts maxes use_mask)
              dataset true is_real_data zero_mask_particles zero_neg_pt h1
      with
      | (Returned _, h2) => h2 !! dataset
      | (Raised _, _) => None
      end
  | (Raised _, _) => None
  end.
End RoundTrip.

(** ** Particle counts

    [adjusted_particles p0 np npad] is the particle-axis length
    [load_dataset] produces from a file with [p0] particles per jet. *)
Definition adjusted_particles (p0 : nat) (np npad : Z) : nat :=
  let kept := if (0 <? np - npad) && (np - npad <? Z.of_nat p0)
              then Z.to_nat (np - npad) else p0 in
  if 0 <? npad then (kept + Z.to_nat npad)%nat else kept.

(** The configurations the specification calls valid (section 8), and the
    particle count it promises for them. *)
Definition valid_counts {R} (a : args R) : Prop :=
  (0 < num_particles a <= 30 ∧ 0 <= num_pad_particles a < num_particles a)
  ∨ (num_particles a = 0 ∧ num_pad_particles a = 0).

Definition expected_particles {R} (a : args R) : nat :=
  if num_particles a =? 0 then 30%nat else Z.to_nat (num_particles a).

(** The instance dictionary a returning constructor has built: [l] is the
    dataset tensor, [n] its number of jets, [tcut] the split index. *)
Definition constructed {R} (a : args R) (l : loc) (n : nat)
    (maxes : list R) (cut : R) (tcut : Z) (jf : list (list R)) : object R :=
  let k := slice_bound n tcut in
  let self : object R :=
    <["data" := if train a then ASlice l 0 k else ASlice l k n]>
    (<["pt_cutoff" := AScalar cut]>
    (<["feature_maxes" := AList maxes]>
    (<["noise_padding" := ABool false]>
    (<["use_jet_features" :=
         ABool (use_num_particles_jet_feature a && use_mask a)]>
    (<["use_mask" := ABool (use_mask a)]>
    (<["feature_shifts" := AOptList (feature_shifts a)]>
    (<["feature_norms" := AOptList (feature_norms a)]>
    (<["num_particles" := AInt (num_particles a)]> ∅)))))))) in
  if use_num_particles_jet_feature a && use_mask a
  then <["jet_features" := AMatrix (if train a then take k jf else drop k jf)]>
         self
  else self.

(** ** The two splits

    The same keyword arguments with [train] set to [b], and the instance
    dictionary once the configuration is stored (before the file is
    loaded). *)
Definition with_train {R} (b : bool) (a : args R) : args R :=
  Args (num_particles a) (feature_norms a) (feature_shifts a) (use_mask a) b
       (train_fraction a) (num_pad_particles a)
       (use_num_particles_jet_feature a) (noise_padding a).

Definition configured {R} (a : args R) : object R :=
  <["noise_padding" := ABool false]>
  (<["use_jet_features" :=
       ABool (use_num_particles_jet_feature a && use_mask a)]>
  (<["use_mask" := ABool (use_mask a)]>
  (<["feature_shifts" := AOptList (feature_shifts a)]>
  (<["feature_norms" := AOptList (feature_norms a)]>
  (<["num_particles" := AInt (num_particles a)]> ∅))))).

(** ** Sample inputs (binary32)

    A file of two jets, each with five real particles followed by
    twenty-five zero-padded slots, and the constructor's default keyword
    arguments. *)
Module Sample.
Definition f (z : Z) : F32.t := F32.of_Z z.
Definition minus_half : F32.t := Eval vm_compute in SFopp F32.half.

(** eta, phi, pt and the mask flag of a real particle *)
Definition real_particle (pt : Z) : list F32.t := [f 1; f (-2); f pt; f 1].
Definition padding : list F32.t := [f 0; f 0; f 0; f 0].

Definition jet : list (list F32.t) :=
  map (λ k, real_particle (Z.of_nat k)) (seq 1 5) ++ replicate 25 padding.
Definition raw : tensor F32.t := Tensor 2 30 4 [jet; jet].

Definition default_norms : list (option F32.t) :=
  [Some (f 1); Some (f 1); Some (f 1); Some (f 1)].
Definition default_shifts : list (option F32.t) :=
  [Some (f 0); Some (f 0); Some minus_half; Some minus_half].

(** [JetNet(jet_type)]: every keyword argument at its default *)
Definition defaults : args F32.t :=
  Args 0 default_norms default_shifts true true F64.seven_tenths 0 true false.

(** [num_particles=5, num_pad_particles=5] *)
Definition degenerate : args F32.t :=
  Args 5 default_norms default_shifts true true F64.seven_tenths 5 true false.

(** [use_mask=False] with the jet feature requested *)
Definition maskless : args F32.t :=
  Args 0 default_norms default_shifts false true F64.seven_tenths 0 true false.

(** [num_particles=10, num_pad_particles=2] *)
Definition ten_two : args F32.t :=
  Args 10 default_norms default_shifts true true F64.seven_tenths 2 true false.

(** A jet of ten slots, five real and five padding, and the dictionary
    of a dataset configured with [num_particles = 10]. *)
Definition jet10 : list (list F32.t) :=
  map (λ k, real_particle (Z.of_nat k)) (seq 1 5) ++ replicate 5 padding.
Definition raw10 : tensor F32.t := Tensor 1 10 4 [jet10].
Definition self10 : object F32.t := {["num_particles" := AInt 10]}.

(** A file whose first feature is 0 on every particle. *)
Definition flat_particle (pt : Z) : list F32.t := [f 0; f (-2); f pt; f 1].
Definition flat_jet : list (list F32.t) :=
  map (λ k, flat_particle (Z.of_nat k)) (seq 1 5) ++ replicate 25 padding.
Definition flat_raw : tensor F32.t := Tensor 1 30 4 [flat_jet].

(** A file whose first particle has a negative pt. *)
Definition negative_raw : tensor F32.t :=
  Tensor 1 30 4 [real_particle (-1) :: jet10 ++ replicate 19 padding].

(** Target max-abs 0 on the first feature; a shift of 2^25 on the first
    feature. *)
Definition zero_norms : list (option F32.t) :=
  [Some (f 0); Some (f 1); Some (f 1); Some (f 1)].
Definition large_shifts : list (option F32.t) :=
  [Some (f 33554432); Some (f 0); Some minus_half; Some minus_half].

(** A normalized array whose first particle is real (mask 0.5 after the
    shift) and has the first feature at negative zero; the other slots
    are padding.  [self30] is the dictionary of a dataset configured with
    [num_particles = 30]. *)
Definition signed_zero : tensor F32.t :=
  Tensor 1 30 4
    [[F32.neg_zero; f (-1); F32.half; F32.half]
     :: replicate 29 [F32.zero; F32.zero; minus_half; minus_half]].
Definition self30 : object F32.t := {["num_particles" := AInt 30]}.

(** A file whose first particle is real and has the first feature at
    negative zero, and [num_particles=30]. *)
Definition signed_raw : tensor F32.t :=
  Tensor 1 30 4
    [[F32.neg_zero; f (-2); f 1; f 1] :: [f 1; f 2; f 3; f 1]
     :: replicate 28 padding].
Definition thirty : args F32.t :=
  Args 30 default_norms default_shifts true true F64.seven_tenths 0 true false.

(** A draw of [torch.randn]: every entry 1. *)
Definition randn (n p k : nat) : list (list (list F32.t)) :=
  replicate n (replicate p (replicate k (f 1))).

(** Runs on the samples. *)
Definition flat_run : outcome (loc * list F32.t * F32.t) * heap F32.t :=
  normalize_features ∅ 1%positive default_norms default_shifts
    {[1%positive := flat_raw]}.

Definition noise_run : outcome loc * heap F32.t :=
  add_noise_padding randn self30 1%positive {[1%positive := signed_zero]}.

(** The parameters fitted on the sample file. *)
Definition fitted_sample : object F32.t :=
  fitted default_norms default_shifts [f 1; f 2; f 5; f 1] true.

Definition normalize_run : outcome (loc * list F32.t * F32.t) * heap F32.t :=
  normalize_features fitted_sample 1%positive default_norms default_shifts
    {[1%positive := raw]}.

Definition unnormalize_run : outcome pyval * heap F32.t :=
  unnormalize_features fitted_sample 1%positive false false true true
    {[1%positive := raw]}.

(** A generated array, normalized: a real particle with a negative pt, a
    slot whose mask is below the cut while its features are not zero, and
    padding; [unnormalize_features] on it with the two switches as given. *)
Definition generated : tensor F32.t :=
  Tensor 1 30 4
    [[f 1; f 1; f (-1); F32.half] :: [f 1; f 1; F32.half; minus_half]
     :: replicate 28 [F32.zero; F32.zero; minus_half; minus_half]].

Definition generated_run (zero_mask_particles zero_neg_pt : bool)
  : outcome pyval * heap F32.t :=
  unnormalize_features fitted_sample 1%positive true false
    zero_mask_particles zero_neg_pt {[1%positive := generated]}.

(** A draw of [torch.randn] far from 0: 7 in the slots of even index, -7
    in the others. *)
Definition wide_randn (n p k : nat) : list (list (list F32.t)) :=
  replicate n
    (map (λ i, replicate k (f (if Nat.even i then 7 else -7))) (seq 0 p)).

Definition wide_noise_run : outcome loc * heap F32.t :=
  add_noise_padding wide_randn self30 1%positive
    {[1%positive := signed_zero]}.

(** The round trip on the sample file with both switches off; and norms
    and shifts that leave the first feature alone, with the two
    directions run on the sample file. *)
Definition switches_off : option (tensor F32.t) :=
  roundtrip default_norms default_shifts true false false false raw.

Definition unscaled_norms : list (option F32.t) :=
  [None; Some (f 1); Some (f 1); Some (f 1)].
Definition unscaled_shifts : list (option F32.t) :=
  [None; Some (f 0); Some minus_half; Some minus_half].
Definition unscaled_fitted : object F32.t :=
  fitted unscaled_norms unscaled_shifts [f 1; f 2; f 5; f 1] true.
Definition unscaled_normalize_run
  : outcome (loc * list F32.t * F32.t) * heap F32.t :=
  normalize_features unscaled_fitted 1%positive unscaled_norms
    unscaled_shifts {[1%positive := raw]}.
Definition unscaled_unnormalize_run : outcome pyval * heap F32.t :=
  unnormalize_features unscaled_fitted 1%positive true false false true
    {[1%positive := raw]}.

(** A file without jets, and [noise_padding=True]. *)
Definition empty_raw : tensor F32.t := Tensor 0 30 4 [].
Definition noisy : args F32.t :=
  Args 0 default_norms default_shifts true true F64.seven_tenths 0 true true.

(** [num_particles=2**70] *)
Definition beyond_64_bits : args F32.t :=
  Args (2 ^ 70) default_norms default_shifts true true F64.seven_tenths 0
       true false.

(** The lines of the csv file behind [raw], one particle per line. *)
Definition csv_rows : list (list F32.t) := jet ++ jet.

(** The constructor on the sample file, for the training split and with
    [num_particles=10, num_pad_particles=2]. *)
Definition default_run : outcome (object F32.t) * heap F32.t :=
  __init__ randn raw (with_train true defaults) ∅.
Definition ten_two_run : outcome (object F32.t) * heap F32.t :=
  __init__ randn raw ten_two ∅.
End Sample.

(** * Properties *)

Example f32_half : F32.half = S754_finite false 8388608 (-24).
Proof. reflexivity. Qed.

(** ** Runs of the interpreter monad *)

Section Runs.
Context {R : Type}.
Implicit Types h : heap R.

Lemma bind_returned {A B} (c : Py R A) (k : A → Py R B) h b h' :
  bind c k h = (Returned b, h') →
  ∃ a h1, c h = (Returned a, h1) ∧ k a h1 = (Returned b, h').
Proof.
  unfold bind. destruct (c h) as [[a|e] h1]; [eauto | discriminate].
Qed.

Lemma bind_run {A B} (c : Py R A) (k : A → Py R B) h a h1 :
  c h = (Returned a, h1) → bind c k h = k a h1.
Proof. unfold bind. now intros ->. Qed.

Lemma bind_raised {A B} (c : Py R A) (k : A → Py R B) h e h1 :
  c h = (Raised e, h1) → bind c k h = (Raised e, h1).
Proof. unfold bind. now intros ->. Qed.

Lemma read_run l t h : h !! l = Some t → read l h = (Returned t, h).
Proof. unfold read. now intros ->. Qed.

Lemma read_returned l t h h' :
  read l h = (Returned t, h') → h !! l = Some t ∧ h' = h.
Proof.
  unfold read. destruct (h !! l); [|discriminate].
  intros [= <- <-]. auto.
Qed.

Lemma update_run l g t h :
  h !! l = Some t → update l g h = (Returned tt, <[l := g t]> h).
Proof. intros Hl. unfold update. now rewrite (bind_run _ _ _ _ _ (read_run _ _ _ Hl)). Qed.

Lemma list_item_returned {A} (v : list A) i a h h' :
  list_item v i h = (Returned a, h') → v !! i = Some a ∧ h' = h.
Proof.
  unfold list_item. destruct (v !! i); [|discriminate].
  intros [= <- <-]. auto.
Qed.

Lemma list_item_run {A} (v : list A) i a h :
  v !! i = Some a → list_item v i h = (Returned a, h).
Proof. unfold list_item. now intros ->. Qed.

Lemma getattr_returned (self : object R) name v h h' :
  getattr self name h = (Returned v, h') → self !! name = Some v ∧ h' = h.
Proof.
  unfold getattr. destruct (self !! name); [|discriminate].
  intros [= <- <-]. auto.
Qed.

Lemma get_int_run (self : object R) name z h :
  self !! name = Some (AInt z) → get_int self name h = (Returned z, h).
Proof. intros E. unfold get_int, bind, getattr. now rewrite E. Qed.

Lemma get_bool_run (self : object R) name b h :
  self !! name = Some (ABool b) → get_bool self name h = (Returned b, h).
Proof. intros E. unfold get_bool, bind, getattr. now rewrite E. Qed.

Lemma get_opt_list_run (self : object R) name v h :
  self !! name = Some (AOptList v) → get_opt_list self name h = (Returned v, h).
Proof. intros E. unfold get_opt_list, bind, getattr. now rewrite E. Qed.

Lemma get_list_run (self : object R) name v h :
  self !! name = Some (AList v) → get_list self name h = (Returned v, h).
Proof. intros E. unfold get_list, bind, getattr. now rewrite E. Qed.

Lemma get_int_returned (self : object R) name z h h' :
  get_int self name h = (Returned z, h') →
  self !! name = Some (AInt z) ∧ h' = h.
Proof.
  unfold get_int, bind, getattr. destruct (self !! name) as [[]|]; try discriminate.
  intros [= <- <-]. auto.
Qed.

Lemma get_bool_returned (self : object R) name b h h' :
  get_bool self name h = (Returned b, h') →
  self !! name = Some (ABool b) ∧ h' = h.
Proof.
  unfold get_bool, bind, getattr. destruct (self !! name) as [[]|]; try discriminate.
  intros [= <- <-]. auto.
Qed.

(** A property of the heap that every iteration keeps, whatever the
    iteration's outcome, is kept by the loop. *)
Lemma for_each_invariant (I : heap R → Prop) (body : nat → Py R unit) v :
  (∀ i h r h', i ∈ v → I h → body i h = (r, h') → I h') →
  ∀ h r h', I h → for_each v body h = (r, h') → I h'.
Proof.
  induction v as [|i v IH]; intros Hbody h r h' HI; simpl.
  - unfold ret. now intros [= _ <-].
  - unfold bind. destruct (body i h) as [[[]|e] h1] eqn:E.
    + apply IH; [|eapply Hbody; eauto; left].
      intros j ? ? ? Hj. apply Hbody. now right.
    + intros [= _ <-]. eapply Hbody; eauto. left.
Qed.

Lemma collect_invariant {A} (I : heap R → Prop) (body : nat → Py R A) v :
  (∀ i h r h', i ∈ v → I h → body i h = (r, h') → I h') →
  ∀ h r h', I h → collect v body h = (r, h') → I h'.
Proof.
  induction v as [|i v IH]; intros Hbody h r h' HI; simpl.
  - unfold ret. now intros [= _ <-].
  - unfold bind at 1. destruct (body i h) as [[a|e] h1] eqn:E.
    + assert (I h1) as HI1 by (eapply Hbody; eauto; left).
      unfold bind. destruct (collect v body h1) as [[w|e] h2] eqn:E2.
      * unfold ret. intros [= _ <-]. eapply IH; eauto.
        intros j ? ? ? Hj. apply Hbody. now right.
      * intros [= _ <-]. eapply IH; eauto.
        intros j ? ? ? Hj. apply Hbody. now right.
    + intros [= _ <-]. eapply Hbody; eauto. left.
Qed.
End Runs.

(** ** Tensors: cells, shapes and column updates *)

Section TensorFacts.
Context {R : Type}.
Implicit Types t : tensor R.

Lemma lookup_map {A B} (f : A → B) (v : list A) i :
  map f v !! i = f <$> (v !! i).
Proof. exact (list_lookup_fmap f v i). Qed.

Lemma has_shapeb_correct n p f (c : list (list (list R))) :
  has_shapeb n p f c = true → has_shape n p f c.
Proof.
  unfold has_shapeb, has_shape. rewrite andb_true_iff, Nat.eqb_eq.
  intros [-> Hall]. split; [done|].
  apply List.Forall_forall. intros jet Hjet.
  rewrite forallb_forall in Hall. specialize (Hall jet Hjet).
  apply andb_true_iff in Hall as [Hp Hx]. apply Nat.eqb_eq in Hp.
  split; [done|]. apply List.Forall_forall. intros x Hin.
  rewrite forallb_forall in Hx. now apply Nat.eqb_eq, Hx.
Qed.

Lemma cell_map_column i (g : R → R) t n p j :
  cell (map_column i g t) n p j =
  if decide (j = i) then g <$> cell t n p j else cell t n p j.
Proof.
  unfold cell, map_column; simpl. rewrite lookup_map.
  destruct (cells t !! n) as [jet|]; simpl; [|now destruct (decide _)].
  rewrite lookup_map. destruct (jet !! p) as [x|]; simpl; [|now destruct (decide _)].
  destruct (decide (j = i)) as [->|Hne].
  - apply list_lookup_alter_eq.
  - now apply list_lookup_alter_ne.
Qed.

Lemma has_shape_map_alter n p f (g : R → R) i c :
  has_shape n p f c → has_shape n p f (map (map (alter g i)) c).
Proof.
  intros [Hn Hc]. split; [now rewrite length_map|].
  apply Forall_map. eapply Forall_impl; [exact Hc|].
  intros jet [Hp Hj]. split; [now rewrite length_map|].
  apply Forall_map. eapply Forall_impl; [exact Hj|].
  intros x Hx. simpl. now rewrite length_alter.
Qed.

Lemma well_shaped_map_column i (g : R → R) t :
  well_shaped t → well_shaped (map_column i g t).
Proof. apply has_shape_map_alter. Qed.

(** In a well-shaped tensor the cells are exactly the indices within the
    shape. *)
Lemma cell_is_Some t n p i :
  well_shaped t →
  (n < shape0 t)%nat → (p < shape1 t)%nat → (i < shape2 t)%nat →
  is_Some (cell t n p i).
Proof.
  intros [Hn Hc] Hn' Hp' Hi'. unfold cell.
  destruct (lookup_lt_is_Some_2 (cells t) n) as [jet Hjet]; [lia|].
  rewrite Hjet; simpl.
  destruct (Forall_lookup_1 _ _ _ _ Hc Hjet) as [Hp Hj].
  destruct (lookup_lt_is_Some_2 jet p) as [x Hx]; [lia|].
  rewrite Hx; simpl.
  apply lookup_lt_is_Some_2. rewrite (Forall_lookup_1 _ _ _ _ Hj Hx). lia.
Qed.

Lemma cell_Some_bounds t n p i x :
  well_shaped t → cell t n p i = Some x →
  (n < shape0 t)%nat ∧ (p < shape1 t)%nat ∧ (i < shape2 t)%nat.
Proof.
  intros [Hn Hc]. unfold cell.
  destruct (cells t !! n) as [jet|] eqn:Hjet; simpl; [|discriminate].
  destruct (jet !! p) as [y|] eqn:Hy; simpl; [|discriminate].
  intros Hx.
  destruct (Forall_lookup_1 _ _ _ _ Hc Hjet) as [Hp Hj].
  pose proof (Forall_lookup_1 _ _ _ _ Hj Hy) as Hf. simpl in Hf.
  apply lookup_lt_Some in Hjet, Hy, Hx. lia.
Qed.


Lemma column_changed_map i g t : column_changed i g t (map_column i g t).
Proof.
  split; [done|]. split; [done|]. split; [done|].
  split; [apply well_shaped_map_column|].
  intros. apply cell_map_column.
Qed.

Lemma column_changed_id i t : column_changed i (λ x, x) t t.
Proof.
  split; [done|]. split; [done|]. split; [done|]. split; [done|].
  intros n p j.
  destruct (decide _); [|done]. now destruct (cell t n p j).
Qed.

Lemma column_changed_trans i g1 g2 t t1 t2 :
  column_changed i g1 t t1 → column_changed i g2 t1 t2 →
  column_changed i (λ x, g2 (g1 x)) t t2.
Proof.
  intros (?&?&?&W1&C1) (?&?&?&W2&C2).
  split; [congruence|]. split; [congruence|]. split; [congruence|].
  split; [auto|].
  intros n p j. rewrite C2, C1.
  destruct (decide _); [|done]. now destruct (cell t n p j).
Qed.
End TensorFacts.

(** ** Loops that rewrite one column per iteration *)

Section ColumnLoops.
Context {R : Type}.
Variable l : loc.
Variable body : nat → Py R unit.
(** [G i g]: iteration [i], when it returns, has applied [g] to column [i]. *)
Variable G : nat → (R → R) → Prop.

Hypothesis body_spec : ∀ i (h : heap R) t h',
  h !! l = Some t → body i h = (Returned tt, h') →
  ∃ g t', G i g ∧ h' = <[l := t']> h ∧ column_changed i g t t'.


Lemma columns_done_start (h0 : heap R) t0 :
  h0 !! l = Some t0 → columns_done l G h0 t0 0 h0.
Proof.
  intros Hl. exists t0. split; [now rewrite insert_id|].
  do 4 (split; [done|]). split; [lia|done].
Qed.

Lemma for_each_columns (h0 : heap R) t0 len : ∀ k h h',
  columns_done l G h0 t0 k h →
  for_each (seq k len) body h = (Returned tt, h') →
  columns_done l G h0 t0 (k + len) h'.
Proof.
  induction len as [|len IH]; intros k h h' Hinv; simpl.
  - unfold ret. intros [= <-]. now rewrite Nat.add_0_r.
  - intros Hrun. apply bind_returned in Hrun as ([] & h1 & Hb & Hrest).
    replace (k + S len)%nat with (S k + len)%nat by lia.
    apply (IH (S k) h1 h'); [|exact Hrest].
    destruct Hinv as (t' & -> & S0 & S1 & S2 & W & Hlt & Hge).
    destruct (body_spec k _ t' h1 (lookup_insert_eq _ _ _) Hb)
      as (g & t'' & HG & -> & T0 & T1 & T2 & W' & C).
    exists t''. split; [now rewrite insert_insert_eq|].
    split; [congruence|]. split; [congruence|]. split; [congruence|].
    split; [auto|]. split.
    + intros j Hj. destruct (decide (j = k)) as [->|Hne].
      * exists g. split; [done|]. intros n p. rewrite C.
        rewrite decide_True by done. now rewrite Hge.
      * destruct (Hlt j) as (gj & HGj & Hc); [lia|].
        exists gj. split; [done|]. intros n p. rewrite C.
        now rewrite decide_False.
    + intros j n p Hj. rewrite C, decide_False by lia. apply Hge. lia.
Qed.
End ColumnLoops.

(** ** normalize_features: what a returning call has done *)

Section NormalizeFacts.
Context {R : Type} {D : Dtype R}.
Implicit Types h : heap R.

Lemma update_returned l (g : tensor R → tensor R) t h r h' :
  h !! l = Some t → update l g h = (r, h') →
  r = Returned tt ∧ h' = <[l := g t]> h.
Proof. intros Hl. rewrite (update_run _ _ _ _ Hl). now intros [= <- <-]. Qed.

Lemma max_abs_returned i (t : tensor R) h mx h' :
  max_abs i t h = (Returned mx, h') →
  h' = h ∧ max_abs_of (flatten (column i t)) = Some mx.
Proof.
  unfold max_abs, max_abs_of. destruct (flatten (column i t)); [discriminate|].
  unfold ret. now intros [= <- <-].
Qed.

Lemma collect_max_abs l (t : tensor R) v : ∀ h maxes h',
  h !! l = Some t →
  collect v (λ i, t <- read l ;; max_abs i t) h = (Returned maxes, h') →
  h' = h ∧ length maxes = length v ∧
  ∀ k i, v !! k = Some i →
         ∃ mx, maxes !! k = Some mx ∧
               max_abs_of (flatten (column i t)) = Some mx.
Proof.
  induction v as [|i v IH]; intros h maxes h' Hl; simpl.
  - unfold ret. intros [= <- <-]. split; [done|]. split; [done|].
    intros k i. now rewrite lookup_nil.
  - intros Hrun. apply bind_returned in Hrun as (mx & h1 & Hmx & Hrun).
    rewrite (bind_run _ _ _ _ _ (read_run _ _ _ Hl)) in Hmx.
    apply max_abs_returned in Hmx as [-> Hmx].
    apply bind_returned in Hrun as (rest & h2 & Hrest & Hret).
    unfold ret in Hret. injection Hret as <- <-.
    destruct (IH _ _ _ Hl Hrest) as (-> & Hlen & Hk).
    split; [done|]. split; [simpl; lia|].
    intros [|k] j; simpl.
    + intros [= <-]. eauto.
    + apply Hk.
Qed.


Lemma normalize_features_returned (self : object R) l norms shifts h t
      d maxes cut h' :
  h !! l = Some t →
  normalize_features self l norms shifts h = (Returned (d, maxes, cut), h') →
  d = l ∧ length maxes = shape2 t ∧
  (∀ i, (i < shape2 t)%nat →
        ∃ mx, maxes !! i = Some mx ∧
              max_abs_of (flatten (column i t)) = Some mx) ∧
  ∃ t', h' = <[l := t']> h ∧
    shape0 t' = shape0 t ∧ shape1 t' = shape1 t ∧ shape2 t' = shape2 t ∧
    (well_shaped t → well_shaped t') ∧
    ∀ j, (j < shape2 t)%nat →
      ∃ norm s mx, norms !! j = Some norm ∧ shifts !! j = Some s ∧
        maxes !! j = Some mx ∧
        ∀ n p, cell t' n p j = (λ x, shift s (scale norm mx x)) <$> cell t n p j.
Proof.
  intros Hl Hrun. unfold normalize_features in Hrun.
  rewrite (bind_run _ _ _ _ _ (read_run _ _ _ Hl)) in Hrun.
  apply bind_returned in Hrun as (mxs & h1 & Hcollect & Hrun).
  apply (collect_max_abs _ _ _ _ _ _ Hl) in Hcollect as (-> & Hlen & Hmx).
  rewrite length_seq in Hlen.
  apply bind_returned in Hrun as ([] & h2 & Hloop & Hrun).
  eapply (for_each_columns l _ (normalize_step norms shifts mxs)) in Hloop;
    [ | | apply (columns_done_start _ _ _ _ Hl)].
  - destruct Hloop as (t' & -> & S0 & S1 & S2 & W & Hlt & _).
    rewrite (bind_run _ _ _ _ _ (read_run _ _ _ (lookup_insert_eq _ _ _)))
      in Hrun.
    apply bind_returned in Hrun as (c & h3 & Hcut & Hret).
    unfold ret in Hret. injection Hret as <- <- <- <-.
    assert (h3 = <[l := t']> h) as ->.
    { destruct (decide _); [|discriminate].
      now apply list_item_returned in Hcut as [_ ->]. }
    split; [done|]. split; [done|]. split.
    { intros i Hi. apply (Hmx i i). now apply lookup_seq_lt. }
    exists t'. do 5 (split; [done|]).
    intros j Hj. destruct (Hlt j) as (g & (norm & s & Hn & Hs & Hg) & Hc); [lia|].
    destruct (Hmx j j) as (mx & Hmxj & _); [now apply lookup_seq_lt|].
    exists norm, s, mx. do 3 (split; [done|]).
    intros n p. rewrite Hc. destruct (cell t n p j); simpl; [|done].
    f_equal. now apply Hg.
  - clear. intros i h t h' Hl Hb.
    apply bind_returned in Hb as (norm & h1 & Hn & Hb).
    apply list_item_returned in Hn as [Hn ->].
    apply bind_returned in Hb as ([] & h2 & Hscale & Hb).
    apply bind_returned in Hb as (s & h3 & Hs & Hb).
    apply list_item_returned in Hs as [Hs ->].
    assert (∃ g1 t1, h2 = <[l := t1]> h ∧ column_changed i g1 t t1 ∧
              ∀ mx, mxs !! i = Some mx → ∀ x, g1 x = scale norm mx x)
      as (g1 & t1 & -> & C1 & E1).
    { destruct norm as [m|].
      - apply bind_returned in Hscale as (mx & h4 & Hm & Hscale).
        apply list_item_returned in Hm as [Hm ->].
        apply bind_returned in Hscale as ([] & h5 & Hu1 & Hu2).
        apply (update_returned _ _ _ _ _ _ Hl) in Hu1 as [_ ->].
        apply (update_returned _ _ _ _ _ _ (lookup_insert_eq _ _ _)) in Hu2
          as [_ ->].
        rewrite insert_insert_eq.
        eexists (λ x, fmul (fdiv x mx) m), _. split; [reflexivity|]. split.
        + eapply (column_changed_trans i (λ x, fdiv x mx) (λ x, fmul x m));
            apply column_changed_map.
        + intros mx' Hm'. rewrite Hm in Hm'. now injection Hm' as <-.
      - unfold ret in Hscale. injection Hscale as <-.
        exists (λ x, x), t. split; [now rewrite insert_id|].
        split; [apply column_changed_id|done]. }
    assert (∃ g2 t2, h' = <[l := t2]> (<[l := t1]> h) ∧
              column_changed i g2 t1 t2 ∧ ∀ x, g2 x = shift s x)
      as (g2 & t2 & -> & C2 & E2).
    { destruct s as [s|]; simpl.
      - destruct (negb (feq s zero)).
        + apply (update_returned _ _ _ _ _ _ (lookup_insert_eq _ _ _)) in Hb
            as [_ ->].
          eexists (λ x, fadd x s), _. split; [reflexivity|].
          split; [apply column_changed_map|done].
        + unfold ret in Hb. injection Hb as <-.
          exists (λ x, x), t1. split; [now rewrite insert_insert_eq|].
          split; [apply column_changed_id|done].
      - unfold ret in Hb. injection Hb as <-.
        exists (λ x, x), t1. split; [now rewrite insert_insert_eq|].
        split; [apply column_changed_id|done]. }
    exists (λ x, g2 (g1 x)), t2. split.
    + exists norm, s. do 2 (split; [done|]).
      intros mx Hm x. now rewrite E2, (E1 mx Hm).
    + split; [now rewrite insert_insert_eq|].
      eapply column_changed_trans; eauto.
Qed.
End NormalizeFacts.

(** ** Masks read off a column *)

Section MaskFacts.
Context {R : Type}.
Implicit Types t : tensor R.

Lemma omap_lookup {A B} (f : A → option B) (v : list A) : ∀ p,
  Forall (λ a, is_Some (f a)) v → omap f v !! p = v !! p ≫= f.
Proof.
  induction v as [|a v IH]; intros p Hall; [now destruct p|].
  apply Forall_cons in Hall as [[b Hb] Hall]. simpl. rewrite Hb.
  destruct p as [|p]; simpl; [done|]. now apply IH.
Qed.

(** Entry [(n, p)] of a matrix computed from column [i]. *)
Lemma column_entry {B} (g : R → B) t i n p :
  well_shaped t → (i < shape2 t)%nat →
  map (map g) (column i t) !! n ≫= (λ row, row !! p) = g <$> cell t n p i.
Proof.
  intros [_ Hc] Hi. unfold column, cell. rewrite !lookup_map.
  destruct (cells t !! n) as [jet|] eqn:Hjet; simpl; [|done].
  rewrite lookup_map.
  destruct (Forall_lookup_1 _ _ _ _ Hc Hjet) as [_ Hj].
  rewrite omap_lookup.
  - now destruct (jet !! p).
  - eapply Forall_impl; [exact Hj|]. intros x Hx. simpl in Hx.
    apply lookup_lt_is_Some_2. lia.
Qed.

Lemma cell_fill_where (z : R) (gm : R → bool) t i n p j :
  well_shaped t → (i < shape2 t)%nat →
  cell (Tensor (shape0 t) (shape1 t) (shape2 t)
          (fill_where z (map (map negb) (map (map gm) (column i t)))
                      (cells t))) n p j =
  match cell t n p i with
  | Some yl => (λ y, if negb (gm yl) then z else y) <$> cell t n p j
  | None => None
  end.
Proof.
  intros [Hn Hc] Hi. unfold cell, fill_where, column; simpl.
  rewrite lookup_zip_with, !lookup_map.
  destruct (cells t !! n) as [jet|] eqn:Hjet; simpl; [|done].
  destruct (Forall_lookup_1 _ _ _ _ Hc Hjet) as [_ Hj].
  rewrite lookup_zip_with, !lookup_map, omap_lookup.
  - destruct (jet !! p) as [x|] eqn:Hx; simpl; [|done].
    pose proof (Forall_lookup_1 _ _ _ _ Hj Hx) as Hlen. simpl in Hlen.
    destruct (lookup_lt_is_Some_2 x i) as [yl Hyl]; [lia|].
    rewrite Hyl; simpl. destruct (gm yl); simpl.
    + now destruct (x !! j).
    + apply lookup_map.
  - eapply Forall_impl; [exact Hj|]. intros x Hx. simpl in Hx.
    apply lookup_lt_is_Some_2. lia.
Qed.

Lemma cell_last_is_Some t n p j x :
  well_shaped t → cell t n p j = Some x →
  is_Some (cell t n p (shape2 t - 1)).
Proof.
  intros W Hx. destruct (cell_Some_bounds _ _ _ _ _ W Hx) as (?&?&?).
  apply cell_is_Some; auto. lia.
Qed.
End MaskFacts.

(** ** unnormalize_features: what a returning call has done *)

Section UnnormalizeFacts.
Context {R : Type} {D : Dtype R}.
Implicit Types h : heap R.


Variable self : object R.
Variables norms shifts : list (option R).
Variable maxes : list R.
Variable um : bool.
Hypothesis self_norms : self !! "feature_norms" = Some (AOptList norms).
Hypothesis self_shifts : self !! "feature_shifts" = Some (AOptList shifts).
Hypothesis self_maxes : self !! "feature_maxes" = Some (AList maxes).
Hypothesis self_use_mask : self !! "use_mask" = Some (ABool um).


Lemma unnormalize_features_returned l sep real zmp znp h t v h' :
  h !! l = Some t → well_shaped t →
  unnormalize_features self l sep real zmp znp h = (Returned v, h') →
  (0 < shape2 t)%nat ∧
  ∃ t1 t',
    (* [t1]: the tensor when the loop is over *)
    shape2 t1 = shape2 t ∧
    (∀ j, (j < shape2 t)%nat →
       ∃ g, unnormalize_step norms shifts maxes j g ∧
            ∀ n p, cell t1 n p j = g <$> cell t n p j) ∧
    v = unnormalize_result um l sep t1 ∧
    (* [t']: the tensor when the call returns *)
    h' = <[l := t']> h ∧
    shape0 t' = shape0 t ∧ shape1 t' = shape1 t ∧ shape2 t' = shape2 t ∧
    ∀ n p j,
      cell t' n p j =
      match cell t1 n p (shape2 t - 1) with
      | Some yl => postprocess um real zmp znp j yl <$> cell t1 n p j
      | None => None
      end.
Proof.
  intros Hl W Hrun. unfold unnormalize_features in Hrun.
  rewrite (bind_run _ _ _ _ _ (read_run _ _ _ Hl)) in Hrun.
  apply bind_returned in Hrun as ([] & h1 & Hloop & Hrun).
  eapply (for_each_columns l _ (unnormalize_step norms shifts maxes))
    in Hloop; [ | | apply (columns_done_start _ _ _ _ Hl)].
  2:{ clear -self_norms self_shifts self_maxes. intros i h t h' Hl Hb.
      rewrite (bind_run _ _ _ _ _ (get_opt_list_run _ _ _ _ self_shifts)) in Hb.
      apply bind_returned in Hb as (s & h1 & Hs & Hb).
      apply list_item_returned in Hs as [Hs ->].
      apply bind_returned in Hb as ([] & h2 & Hshift & Hb).
      rewrite (bind_run _ _ _ _ _ (get_opt_list_run _ _ _ _ self_norms)) in Hb.
      apply bind_returned in Hb as (norm & h3 & Hn & Hb).
      apply list_item_returned in Hn as [Hn ->].
      assert (∃ g1 t1, h2 = <[l := t1]> h ∧ column_changed i g1 t t1 ∧
                ∀ x, g1 x = unshift s x) as (g1 & t1 & -> & C1 & E1).
      { destruct s as [s|]; simpl.
        - destruct (negb (feq s zero)).
          + apply (update_returned _ _ _ _ _ _ Hl) in Hshift as [_ ->].
            eexists (λ x, fsub x s), _. split; [reflexivity|].
            split; [apply column_changed_map|done].
          + unfold ret in Hshift. injection Hshift as <-.
            exists (λ x, x), t. split; [now rewrite insert_id|].
            split; [apply column_changed_id|done].
        - unfold ret in Hshift. injection Hshift as <-.
          exists (λ x, x), t. split; [now rewrite insert_id|].
          split; [apply column_changed_id|done]. }
      assert (∃ g2 t2 mx, h' = <[l := t2]> (<[l := t1]> h) ∧
                column_changed i g2 t1 t2 ∧
                (is_Some norm → maxes !! i = Some mx) ∧
                ∀ x, g2 x = unscale norm mx x)
        as (g2 & t2 & mx & -> & C2 & Hmx & E2).
      { destruct norm as [m|]; simpl.
        - apply bind_returned in Hb as ([] & h4 & Hu1 & Hb).
          apply (update_returned _ _ _ _ _ _ (lookup_insert_eq _ _ _)) in Hu1
            as [_ ->].
          rewrite (bind_run _ _ _ _ _ (get_list_run _ _ _ _ self_maxes)) in Hb.
          apply bind_returned in Hb as (mx & h5 & Hm & Hb).
          apply list_item_returned in Hm as [Hm ->].
          apply (update_returned _ _ _ _ _ _ (lookup_insert_eq _ _ _)) in Hb
            as [_ ->].
          rewrite insert_insert_eq.
          eexists (λ x, fmul (fdiv x m) mx), _, mx. split; [reflexivity|].
          split; [|done].
          eapply (column_changed_trans i (λ x, fdiv x m) (λ x, fmul x mx));
            apply column_changed_map.
        - unfold ret in Hb. injection Hb as <-.
          exists (λ x, x), t1, zero. split; [now rewrite insert_insert_eq|].
          split; [apply column_changed_id|].
          split; [|done]. now intros [? [=]]. }
      exists (λ x, g2 (g1 x)), t2. split.
      - exists norm, s, mx. do 3 (split; [done|]).
        intros x. now rewrite E2, E1.
      - split; [now rewrite insert_insert_eq|].
        eapply column_changed_trans; eauto. }
  destruct Hloop as (t1 & -> & S0 & S1 & S2 & W1 & Hlt & _).
  specialize (W1 W).
  rewrite (bind_run _ _ _ _ _ (get_bool_run _ _ _ _ self_use_mask)) in Hrun.
  apply bind_returned in Hrun as (mask & h2 & Hmask & Hrun).
  apply bind_returned in Hrun as ([] & h3 & Hzero & Hrun).
  apply bind_returned in Hrun as ([] & h4 & Hclamp & Hrun).
  apply bind_returned in Hrun as (t4 & h5 & Hread & Hrun).
  apply read_returned in Hread as [Hread ->].
  destruct (decide (0 < shape2 t4)%nat) as [Hpos|]; [|discriminate].
  unfold ret in Hrun. injection Hrun as <- <-.
  (* the mask *)
  assert (h2 = <[l := t1]> h ∧
          mask = if um then Some (map (map (λ x, fle half x))
                                      (column (shape2 t1 - 1) t1))
                 else None) as [-> ->].
  { destruct um.
    - rewrite (bind_run _ _ _ _ _ (read_run _ _ _ (lookup_insert_eq _ _ _)))
        in Hmask.
      destruct (decide _); [|discriminate].
      unfold ret in Hmask. now injection Hmask as <- <-.
    - unfold ret in Hmask. now injection Hmask as <- <-. }
  (* zeroing the masked particles *)
  set (zeroing := negb real && zmp && um).
  assert (∃ t2, h3 = <[l := t2]> h ∧
            shape0 t2 = shape0 t ∧ shape1 t2 = shape1 t ∧
            shape2 t2 = shape2 t ∧
            ((0 < shape2 t)%nat → ∀ n p j,
              cell t2 n p j =
              match cell t1 n p (shape2 t - 1) with
              | Some yl =>
                  (λ y, if zeroing && negb (fle half yl) then zero else y)
                    <$> cell t1 n p j
              | None => None
              end)) as (t2 & -> & T0 & T1 & T2 & C2).
  { assert (∀ n p j, (0 < shape2 t)%nat →
              match cell t1 n p (shape2 t - 1) with
              | Some _ => (λ y : R, y) <$> cell t1 n p j
              | None => None
              end = cell t1 n p j) as Hid.
    { intros n p j HF. destruct (cell t1 n p j) as [x|] eqn:Hx.
      - destruct (cell_last_is_Some _ _ _ _ _ W1 Hx) as [yl Hyl].
        rewrite S2 in Hyl. now rewrite Hyl.
      - now destruct (cell t1 n p (shape2 t - 1)). }
    subst zeroing. destruct (negb real && zmp); simpl.
    - rewrite (bind_run _ _ _ _ _ (get_bool_run _ _ _ _ self_use_mask))
        in Hzero.
      destruct um.
      + apply (update_returned _ _ _ _ _ _ (lookup_insert_eq _ _ _)) in Hzero
          as [_ ->].
        rewrite insert_insert_eq. eexists. split; [reflexivity|].
        do 3 (split; [done|]). intros HF n p j. rewrite <- S2.
        apply (cell_fill_where zero (λ x, fle half x)); [done|lia].
      + unfold ret in Hzero. injection Hzero as <-.
        exists t1. do 4 (split; [done|]).
        intros HF n p j. now rewrite Hid.
    - unfold ret in Hzero. injection Hzero as <-.
      exists t1. do 4 (split; [done|]).
      intros HF n p j. now rewrite Hid. }
  (* clamping the negative pt *)
  assert (∃ t3, h4 = <[l := t3]> h ∧
            shape0 t3 = shape0 t ∧ shape1 t3 = shape1 t ∧
            shape2 t3 = shape2 t ∧
            ∀ n p j,
              cell t3 n p j =
              (λ y, if negb real && znp && (j =? 2)%nat && flt y zero
                    then zero else y) <$> cell t2 n p j)
    as (t3 & -> & U0 & U1 & U2 & C3).
  { assert (∀ n p j, cell t2 n p j = (λ y : R, y) <$> cell t2 n p j) as Hid
      by (intros; now destruct (cell t2 _ _ _)).
    destruct (negb real && znp); simpl.
    - rewrite (bind_run _ _ _ _ _ (read_run _ _ _ (lookup_insert_eq _ _ _)))
        in Hclamp.
      destruct (decide _); [|discriminate].
      apply (update_returned _ _ _ _ _ _ (lookup_insert_eq _ _ _)) in Hclamp
        as [_ ->].
      rewrite insert_insert_eq. eexists. split; [reflexivity|].
      do 3 (split; [done|]). intros n p j. rewrite cell_map_column.
      destruct (decide (j = 2%nat)) as [->|Hne]; [done|].
      apply Nat.eqb_neq in Hne. now rewrite Hne.
    - unfold ret in Hclamp. injection Hclamp as <-.
      exists t2. do 4 (split; [done|]). apply Hid. }
  rewrite lookup_insert_eq in Hread. injection Hread as <-.
  split; [lia|]. exists t1, t3. split; [done|]. split.
  { intros j Hj. apply Hlt. lia. }
  split.
  { unfold unnormalize_result. rewrite S2, U2. now destruct sep, um. }
  do 4 (split; [done|]).
  intros n p j. rewrite C3, C2 by lia.
  destruct (cell t1 n p (shape2 t - 1)) as [yl|]; [|done].
  now destruct (cell t1 n p j).
Qed.
End UnnormalizeFacts.

(** ** In-place mutation (C10) *)

Section InPlace.
Context {R : Type} {D : Dtype R}.

(** C10. [normalize_features] and [unnormalize_features] work in place.
    For a tensor [t] behind the reference [l]:
    - a returning call of [normalize_features] hands back [l] itself, and
      afterwards the heap holds behind [l] the scaled and shifted values
      (scale by the column's observed max-abs and the target, then shift),
      every other tensor being untouched;
    - a returning call of [unnormalize_features] hands back a pair whose
      first component is a view into [l] and whose second component, in
      combined mode, is [l] itself, and afterwards the heap holds behind
      [l] the un-shifted, un-scaled and post-processed values.
    So the caller's array no longer holds its original values. *)
Theorem normalize_unnormalize_in_place
    (self : object R) (norms shifts : list (option R)) (maxes : list R)
    (um : bool) (l : loc) (h : heap R) (t : tensor R) :
  self !! "feature_norms" = Some (AOptList norms) →
  self !! "feature_shifts" = Some (AOptList shifts) →
  self !! "feature_maxes" = Some (AList maxes) →
  self !! "use_mask" = Some (ABool um) →
  h !! l = Some t → well_shaped t →
  (∀ fnorms fshifts d fmaxes cut h',
     normalize_features self l fnorms fshifts h
       = (Returned (d, fmaxes, cut), h') →
     d = l ∧
     ∃ t', h' = <[l := t']> h ∧
       ∀ n p j x, cell t n p j = Some x →
         ∃ norm s mx,
           fnorms !! j = Some norm ∧ fshifts !! j = Some s ∧
           fmaxes !! j = Some mx ∧
           max_abs_of (flatten (column j t)) = Some mx ∧
           cell t' n p j = Some (shift s (scale norm mx x))) ∧
  (∀ sep real zmp znp v h',
     unnormalize_features self l sep real zmp znp h = (Returned v, h') →
     (∃ w, v = VTuple (VColumn l (shape2 t - 1)) w ∧
           (sep = false → w = VTensor l)) ∧
     ∃ t', h' = <[l := t']> h ∧
       ∀ n p j x xl,
         cell t n p j = Some x → cell t n p (shape2 t - 1) = Some xl →
         ∃ norm s mx norml sl mxl,
           norms !! j = Some norm ∧ shifts !! j = Some s ∧
           (is_Some norm → maxes !! j = Some mx) ∧
           norms !! (shape2 t - 1)%nat = Some norml ∧
           shifts !! (shape2 t - 1)%nat = Some sl ∧
           (is_Some norml → maxes !! (shape2 t - 1)%nat = Some mxl) ∧
           cell t' n p j =
           Some (postprocess um real zmp znp j
                   (unscale norml mxl (unshift sl xl))
                   (unscale norm mx (unshift s x)))).
Proof.
  intros Hn Hs Hm Hu Hl W. split.
  - intros fnorms fshifts d fmaxes cut h' Hrun.
    destruct (normalize_features_returned _ _ _ _ _ _ _ _ _ _ Hl Hrun)
      as (-> & _ & Hmax & t' & -> & _ & _ & _ & _ & Hcells).
    split; [done|]. exists t'. split; [done|].
    intros n p j x Hx.
    destruct (cell_Some_bounds _ _ _ _ _ W Hx) as (_ & _ & Hj).
    destruct (Hcells j Hj) as (norm & s & mx & ? & ? & Hmx & Hc).
    destruct (Hmax j Hj) as (mx' & Hmx' & Hof).
    rewrite Hmx in Hmx'. injection Hmx' as <-.
    exists norm, s, mx. do 4 (split; [done|]). now rewrite Hc, Hx.
  - intros sep real zmp znp v h' Hrun.
    destruct (unnormalize_features_returned self norms shifts maxes um
                Hn Hs Hm Hu _ _ _ _ _ _ _ _ _ Hl W Hrun)
      as (HF & t1 & t' & S2 & Hloop & -> & -> & _ & _ & _ & Hcells).
    split.
    { unfold unnormalize_result. rewrite S2. eexists. split; [reflexivity|].
      now intros ->. }
    exists t'. split; [done|].
    intros n p j x xl Hx Hxl.
    destruct (cell_Some_bounds _ _ _ _ _ W Hx) as (_ & _ & Hj).
    destruct (Hloop j Hj) as (g & (norm & s & mx & ? & ? & ? & Hg) & Hc).
    destruct (Hloop (shape2 t - 1)%nat) as
        (gl & (norml & sl & mxl & ? & ? & ? & Hgl) & Hcl); [lia|].
    exists norm, s, mx, norml, sl, mxl. do 6 (split; [done|]).
    rewrite Hcells, Hcl, Hxl, Hc, Hx. simpl. now rewrite Hg, Hgl.
Qed.
End InPlace.

(** ** No statement raises ConfigurationError *)

Section NeverConfigurationError.
Context {R : Type} {D : Dtype R}.


Lemma never_cfg_ret {A} (a : A) : never_cfg (R := R) (ret a).
Proof. intros h h'. unfold ret. discriminate. Qed.

Lemma never_cfg_raise {A} e :
  e ≠ ConfigurationError → never_cfg (R := R) (raise (A := A) e).
Proof. intros He h h'. unfold raise. congruence. Qed.

Lemma never_cfg_bind {A B} (c : Py R A) (k : A → Py R B) :
  never_cfg c → (∀ a, never_cfg (R := R) (k a)) → never_cfg (R := R) (bind c k).
Proof.
  intros Hc Hk h h'. unfold bind.
  destruct (c h) as [[a|e] h1] eqn:E; [apply Hk|].
  intros [= -> ->]. now apply (Hc h h').
Qed.

Lemma never_cfg_read l : never_cfg (R := R) (read (R := R) l).
Proof. intros h h'. unfold read. destruct (h !! l); discriminate. Qed.

Lemma never_cfg_write l t : never_cfg (R := R) (write (R := R) l t).
Proof. intros h h'. unfold write. discriminate. Qed.

Lemma never_cfg_alloc t : never_cfg (R := R) (alloc (R := R) t).
Proof. intros h h'. unfold alloc. discriminate. Qed.

Lemma never_cfg_update l g : never_cfg (R := R) (update (R := R) l g).
Proof.
  apply never_cfg_bind; [apply never_cfg_read|intros; apply never_cfg_write].
Qed.

Lemma never_cfg_list_item {A} (v : list A) i :
  never_cfg (R := R) (list_item (R := R) v i).
Proof.
  unfold list_item. destruct (v !! i);
    [apply never_cfg_ret | now apply never_cfg_raise].
Qed.

Lemma never_cfg_getattr (self : object R) name : never_cfg (R := R) (getattr self name).
Proof.
  unfold getattr. destruct (self !! name);
    [apply never_cfg_ret | now apply never_cfg_raise].
Qed.

Lemma never_cfg_for_each v (body : nat → Py R unit) :
  (∀ i, never_cfg (R := R) (body i)) → never_cfg (R := R) (for_each v body).
Proof.
  intros Hb. induction v; simpl; [apply never_cfg_ret|].
  apply never_cfg_bind; auto.
Qed.

Lemma never_cfg_collect {A} v (body : nat → Py R A) :
  (∀ i, never_cfg (R := R) (body i)) → never_cfg (R := R) (collect v body).
Proof.
  intros Hb. induction v; simpl; [apply never_cfg_ret|].
  apply never_cfg_bind; [auto|]. intros x.
  apply never_cfg_bind; [auto|]. intros r. apply never_cfg_ret.
Qed.
End NeverConfigurationError.

Create HintDb pyerr.
#[export] Hint Resolve never_cfg_ret never_cfg_read never_cfg_write
  never_cfg_alloc never_cfg_update never_cfg_list_item never_cfg_getattr
  : pyerr.
#[export] Hint Extern 1 (never_cfg (raise _)) =>
  (apply never_cfg_raise; discriminate) : pyerr.

(** Walks through a computation, statement by statement. *)
Ltac never_cfg_step :=
  match goal with
  | |- never_cfg (bind _ _) => apply never_cfg_bind; [|intros ?]
  | |- never_cfg (for_each _ _) => apply never_cfg_for_each; intros ?
  | |- never_cfg (collect _ _) => apply never_cfg_collect; intros ?
  | |- never_cfg (if ?b then _ else _) => destruct b
  | |- never_cfg (match ?x with _ => _ end) => destruct x
  | |- never_cfg _ => solve [auto with pyerr]
  end.

Section NeverConfigurationErrorMethods.
Context {R : Type} {D : Dtype R}.
Variable randn : nat → nat → nat → list (list (list R)).

Lemma never_cfg_get_int (self : object R) name : never_cfg (R := R) (get_int self name).
Proof. unfold get_int. repeat never_cfg_step. Qed.

Lemma never_cfg_get_bool (self : object R) name :
  never_cfg (R := R) (get_bool self name).
Proof. unfold get_bool. repeat never_cfg_step. Qed.

Lemma never_cfg_get_opt_list (self : object R) name :
  never_cfg (R := R) (get_opt_list self name).
Proof. unfold get_opt_list. repeat never_cfg_step. Qed.

Lemma never_cfg_get_list (self : object R) name :
  never_cfg (R := R) (get_list self name).
Proof. unfold get_list. repeat never_cfg_step. Qed.

Hint Resolve never_cfg_get_int never_cfg_get_bool never_cfg_get_opt_list
  never_cfg_get_list : pyerr.

Lemma never_cfg_load_dataset raw np npad um :
  never_cfg (R := R) (load_dataset (R := R) raw np npad um).
Proof. unfold load_dataset. auto with pyerr. Qed.

Lemma never_cfg_get_jet_features (self : object R) l flag :
  never_cfg (R := R) (get_jet_features self l flag).
Proof. unfold get_jet_features. repeat never_cfg_step. Qed.

Lemma never_cfg_max_abs i (t : tensor R) : never_cfg (R := R) (max_abs i t).
Proof. unfold max_abs. repeat never_cfg_step. Qed.

Hint Resolve never_cfg_max_abs : pyerr.

Lemma never_cfg_normalize_features (self : object R) l norms shifts :
  never_cfg (R := R) (normalize_features self l norms shifts).
Proof. unfold normalize_features. repeat never_cfg_step. Qed.

Lemma never_cfg_add_noise_padding (self : object R) l :
  never_cfg (R := R) (add_noise_padding randn self l).
Proof. unfold add_noise_padding. repeat never_cfg_step. Qed.

Lemma never_cfg_py_int x : never_cfg (R := R) (py_int (R := R) x).
Proof. unfold py_int. repeat never_cfg_step. Qed.

Hint Resolve never_cfg_load_dataset never_cfg_get_jet_features
  never_cfg_normalize_features never_cfg_add_noise_padding never_cfg_py_int
  : pyerr.

Lemma never_cfg_init raw (a : args R) : never_cfg (R := R) (__init__ randn raw a).
Proof. unfold __init__, py_and. repeat never_cfg_step. Qed.
End NeverConfigurationErrorMethods.

(** ** load_dataset *)

Section LoadDataset.
Context {R : Type} {D : Dtype R}.
Implicit Types t : tensor R.

Lemma well_shaped_narrow k t :
  (k ≤ shape1 t)%nat → well_shaped t → well_shaped (narrow_particles k t).
Proof.
  intros Hk [Hn Hc]. split; simpl; [now rewrite length_map|].
  apply Forall_map. eapply Forall_impl; [exact Hc|].
  intros jet [Hp Hj]. simpl. split; [rewrite length_take; lia|].
  now apply Forall_take.
Qed.

Lemma well_shaped_pad z k t :
  well_shaped t → well_shaped (pad_particles z k t).
Proof.
  intros [Hn Hc]. split; simpl; [now rewrite length_map|].
  apply Forall_map. eapply Forall_impl; [exact Hc|].
  intros jet [Hp Hj]. simpl. split.
  - rewrite length_app, length_replicate. lia.
  - apply Forall_app. split; [done|].
    apply Forall_replicate. apply length_replicate.
Qed.

Lemma well_shaped_drop_last t :
  well_shaped t → well_shaped (drop_last_feature t).
Proof.
  intros [Hn Hc]. split; simpl; [now rewrite length_map|].
  apply Forall_map. eapply Forall_impl; [exact Hc|].
  intros jet [Hp Hj]. simpl. split; [now rewrite length_map|].
  apply Forall_map. eapply Forall_impl; [exact Hj|].
  intros x Hx. simpl in *. rewrite length_take. lia.
Qed.

(** [load_dataset] always returns, with a new tensor of the adjusted
    shape. *)
Lemma load_dataset_run raw np npad um (h : heap R) :
  ∃ t0, load_dataset raw np npad um h
        = (Returned (fresh (dom h)), <[fresh (dom h) := t0]> h) ∧
    h !! fresh (dom h) = None ∧
    shape0 t0 = shape0 raw ∧
    shape1 t0 = adjusted_particles (shape1 raw) np npad ∧
    shape2 t0 = (if um then shape2 raw else Nat.pred (shape2 raw)) ∧
    (well_shaped raw → well_shaped t0).
Proof.
  unfold load_dataset, alloc. eexists. split; [reflexivity|].
  split; [apply not_elem_of_dom, is_fresh|].
  unfold adjusted_particles.
  destruct ((0 <? np - npad) && (np - npad <? Z.of_nat (shape1 raw)))
    eqn:Ek; destruct (0 <? npad) eqn:Ep; destruct um; simpl;
    (split; [done|]); (split; [done|]); (split; [done|]); intros W;
    repeat first [ apply well_shaped_drop_last | apply well_shaped_pad
                 | apply well_shaped_narrow ]; try done;
    apply andb_true_iff in Ek as [_ Ek]; apply Z.ltb_lt in Ek; lia.
Qed.

Lemma get_jet_features_returned (self : object R) l flag (h : heap R) jf h' :
  get_jet_features self l flag h = (Returned jf, h') →
  h' = h ∧ ∃ t np, h !! l = Some t ∧ (3 < shape2 t)%nat ∧
    self !! "num_particles" = Some (AInt np) ∧
    jf = map (λ row, [fdiv (fold_left fadd row zero) (of_Z np)]) (column 3 t).
Proof.
  unfold get_jet_features. intros Hrun.
  apply bind_returned in Hrun as (t & h1 & Hr & Hrun).
  apply read_returned in Hr as [Hl ->].
  destruct (decide _) as [HF|]; [|discriminate].
  apply bind_returned in Hrun as (np & h2 & Hnp & Hrun).
  apply get_int_returned in Hnp as [Hnp ->].
  destruct (fits_scalar np); [|discriminate].
  unfold ret in Hrun. injection Hrun as <- <-.
  split; [done|]. eauto 10.
Qed.

Lemma py_int_returned x (h : heap R) z h' :
  py_int x h = (Returned z, h') → h' = h.
Proof. destruct x; simpl; unfold ret, raise; congruence. Qed.
End LoadDataset.

(** Looks an attribute up in a dictionary built by successive stores. *)
Ltac lookup_attr :=
  repeat first [ rewrite lookup_insert_eq
               | rewrite lookup_insert_ne by done
               | rewrite lookup_empty ].

(** ** __init__: what a returning constructor has built *)

Section Constructor.
Context {R : Type} {D : Dtype R}.
Variable randn : nat → nat → nat → list (list (list R)).

Lemma init_returned raw (a : args R) (h : heap R) self h' :
  __init__ randn raw a h = (Returned self, h') →
  noise_padding a = false ∧
  ∃ t' maxes cut tcut jf,
    h !! fresh (dom h) = None ∧
    h' = <[fresh (dom h) := t']> h ∧
    shape0 t' = shape0 raw ∧
    shape1 t' = adjusted_particles (shape1 raw) (num_particles a)
                  (num_pad_particles a) ∧
    shape2 t' = (if use_mask a then shape2 raw else Nat.pred (shape2 raw)) ∧
    (well_shaped raw → well_shaped t') ∧
    self = constructed a (fresh (dom h)) (shape0 raw) maxes cut tcut jf.
Proof.
  unfold __init__. intros Hrun.
  apply bind_returned in Hrun as (v1 & h1 & Hv1 & Hrun).
  assert (v1 = ABool (use_num_particles_jet_feature a && use_mask a)
          ∧ h1 = h) as [-> ->].
  { unfold py_and in Hv1. destruct (use_num_particles_jet_feature a).
    - apply getattr_returned in Hv1 as [Hv1 ->].
      revert Hv1. lookup_attr. now intros [= <-].
    - unfold ret in Hv1. now injection Hv1 as <- <-. }
  apply bind_returned in Hrun as (v2 & h1 & Hv2 & Hrun).
  assert (noise_padding a = false ∧ v2 = ABool false ∧ h1 = h)
    as (Hnoise & -> & ->).
  { unfold py_and in Hv2. destruct (noise_padding a).
    - apply getattr_returned in Hv2 as [Hv2 _].
      revert Hv2. lookup_attr. discriminate.
    - unfold ret in Hv2. now injection Hv2 as <- <-. }
  split; [done|].
  destruct (load_dataset_run raw (num_particles a) (num_pad_particles a)
              (use_mask a) h) as (t0 & Hload & Hfresh & L0 & L1 & L2 & LW).
  rewrite (bind_run _ _ _ _ _ Hload) in Hrun.
  set (l := fresh (dom h)) in *.
  apply bind_returned in Hrun as (b & h1 & Hb & Hrun).
  apply get_bool_returned in Hb as [Hb ->].
  revert Hb. lookup_attr. intros [= <-].
  apply bind_returned in Hrun as (jf & h1 & Hjf & Hrun).
  assert (h1 = <[l := t0]> h) as ->.
  { destruct (_ && _).
    - now apply get_jet_features_returned in Hjf as [-> _].
    - unfold ret in Hjf. now injection Hjf as <- <-. }
  apply bind_returned in Hrun as ([[d maxes] cut] & h1 & Hnorm & Hrun).
  apply (normalize_features_returned _ _ _ _ _ _ _ _ _ _
           (lookup_insert_eq _ _ _)) in Hnorm
    as (-> & _ & _ & t' & -> & N0 & N1 & N2 & NW & _).
  rewrite insert_insert_eq in Hrun.
  apply bind_returned in Hrun as (noise & h1 & Hn & Hrun).
  apply get_bool_returned in Hn as [Hn ->].
  revert Hn. lookup_attr. intros [= <-].
  unfold ret at 1 in Hrun.
  rewrite (bind_run _ _ _ l (<[l := t']> h)) in Hrun by reflexivity.
  rewrite (bind_run _ _ _ _ _ (read_run _ _ _ (lookup_insert_eq _ _ _)))
    in Hrun.
  apply bind_returned in Hrun as (tcut & h1 & Htcut & Hrun).
  apply py_int_returned in Htcut as ->.
  apply bind_returned in Hrun as (b & h1 & Hb & Hrun).
  apply get_bool_returned in Hb as [Hb ->].
  revert Hb. lookup_attr. intros [= <-].
  unfold ret in Hrun. injection Hrun as <- <-.
  exists t', maxes, cut, tcut, jf.
  split; [done|]. split; [done|].
  split; [congruence|]. split; [congruence|]. split; [congruence|].
  split; [auto|].
  unfold constructed. rewrite N0, L0. reflexivity.
Qed.
End Constructor.

(** ** The constructed dataset: length, validation, particle axis *)

Section ConstructedDataset.
Context {R : Type} {D : Dtype R}.
Variable randn : nat → nat → nat → list (list (list R)).

(** No statement of the constructor stores an attribute [X]. *)
Lemma len_after_init raw (a : args R) (h : heap R) self h' :
  __init__ randn raw a h = (Returned self, h') →
  ∀ h1, __len__ self h1 = (Raised (AttributeError "X"), h1).
Proof.
  intros Hrun h1.
  apply init_returned in Hrun as (_ & t' & mx & cut & tcut & jf & _ & _ &
                                   _ & _ & _ & _ & ->).
  unfold __len__, bind, getattr, constructed.
  destruct (_ && _); now lookup_attr.
Qed.

Lemma adjusted_valid (a : args R) :
  valid_counts a →
  adjusted_particles 30 (num_particles a) (num_pad_particles a)
  = expected_particles a.
Proof.
  unfold valid_counts, adjusted_particles, expected_particles.
  intros [[[? ?] [? ?]] | [-> ->]]; [|reflexivity].
  destruct (num_particles a =? 0) eqn:E0; [apply Z.eqb_eq in E0; lia|].
  clear E0.
  destruct (0 <? num_particles a - num_pad_particles a) eqn:E1;
    destruct (num_particles a - num_pad_particles a <? Z.of_nat 30) eqn:E2;
    destruct (0 <? num_pad_particles a) eqn:E3; simpl;
    rewrite ?Z.ltb_lt, ?Z.ltb_ge in *; lia.
Qed.

Lemma adjusted_degenerate p0 np npad :
  0 < np → np - npad <= 0 →
  adjusted_particles p0 np npad = (p0 + Z.to_nat npad)%nat.
Proof.
  intros Hnp Hk. unfold adjusted_particles.
  destruct (0 <? np - npad) eqn:E; [apply Z.ltb_lt in E; lia|].
  destruct (0 <? npad) eqn:E'; [done|]. apply Z.ltb_ge in E'. lia.
Qed.

Lemma records_constructed (a : args R) l n mx cut tcut jf (h : heap R) t' :
  shape0 t' = n → well_shaped t' →
  ∃ v recs,
    constructed a l n mx cut tcut jf !! "data" = Some v ∧
    records (<[l := t']> h) v = Some recs ∧
    Forall (λ jet, length jet = shape1 t') recs.
Proof.
  intros Hn [_ W].
  assert (Forall (λ jet : list (list R), length jet = shape1 t') (cells t'))
    as Hall by (eapply Forall_impl; [exact W|]; now intros ? [? _]).
  unfold constructed.
  destruct (train a); eexists _, _;
    (split; [destruct (_ && _); lookup_attr; reflexivity|]);
    simpl; rewrite lookup_insert_eq; simpl;
    (split; [reflexivity|]); now apply Forall_take, Forall_drop.
Qed.

(** C8. For every valid configuration (a target count between 1 and 30
    with fewer pad slots than the target, or target 0 with no pad slot)
    and every file of 30-particle jets, [load_dataset] returns a tensor
    whose particle axis has the target length (30 when the target is 0),
    and every record of a dataset the constructor returns has that many
    particles. *)
Theorem particle_axis_of_valid_configuration raw (a : args R) (h : heap R) :
  well_shaped raw → shape1 raw = 30%nat → valid_counts a →
  (∃ l t0 h0,
     load_dataset raw (num_particles a) (num_pad_particles a) (use_mask a) h
     = (Returned l, h0) ∧ h0 !! l = Some t0 ∧
     shape1 t0 = expected_particles a ∧
     Forall (λ jet, length jet = expected_particles a) (cells t0)) ∧
  (∀ self h',
     __init__ randn raw a h = (Returned self, h') →
     ∃ v recs, self !! "data" = Some v ∧ records h' v = Some recs ∧
               Forall (λ jet, length jet = expected_particles a) recs).
Proof.
  intros W H30 Hvalid. split.
  - destruct (load_dataset_run raw (num_particles a) (num_pad_particles a)
                (use_mask a) h) as (t0 & Hload & _ & _ & L1 & _ & LW).
    rewrite H30, (adjusted_valid _ Hvalid) in L1.
    eexists _, t0, _. split; [exact Hload|].
    split; [apply lookup_insert_eq|]. split; [done|].
    destruct (LW W) as [_ W0]. rewrite <- L1.
    eapply Forall_impl; [exact W0|]. now intros ? [? _].
  - intros self h' Hrun.
    apply init_returned in Hrun as (_ & t' & mx & cut & tcut & jf & _ & -> &
                                     S0 & S1 & _ & W' & ->).
    rewrite H30, (adjusted_valid _ Hvalid) in S1. rewrite <- S1.
    apply records_constructed; auto.
Qed.


(** C6, as the code has it.  When the jet feature is requested while the
    mask is disabled (and noise padding is not requested), the constructor
    never fails with ConfigurationError: the request is dropped silently,
    and an object it returns has [use_jet_features] false and no
    [jet_features]. *)
Theorem jet_feature_without_mask_is_dropped raw (a : args R) (h : heap R) :
  use_mask a = false → use_num_particles_jet_feature a = true →
  noise_padding a = false →
  (∀ h', __init__ randn raw a h ≠ (Raised ConfigurationError, h')) ∧
  (∀ self h',
     __init__ randn raw a h = (Returned self, h') →
     self !! "use_jet_features" = Some (ABool false) ∧
     self !! "jet_features" = None).
Proof.
  intros Hum Hjf Hnoise. split; [intros h'; apply never_cfg_init|].
  intros self h' Hrun.
  apply init_returned in Hrun as (_ & t' & mx & cut & tcut & jf & _ & _ &
                                   _ & _ & _ & _ & ->).
  unfold constructed. rewrite Hum, Hjf. simpl. now lookup_attr.
Qed.
End ConstructedDataset.


(** ** Evaluations on the sample file *)


Lemma returns_value {R A} (d : A) (r : outcome A * heap R) :
  returns r = true → r = (Returned (value d r), snd r).
Proof. destruct r as [[a|e] h]; [reflexivity|discriminate]. Qed.

Section SampleRuns.
Import Sample.

Lemma raw_well_shaped : well_shaped raw.
Proof. apply has_shapeb_correct. reflexivity. Qed.

(** C1, at the default arguments.  The constructor returns a dataset
    whose training split holds one record (of the two jets, at fraction
    0.7), and [__len__] on it raises AttributeError: it reads [self.X],
    an attribute the constructor never stores (the split is in
    [self.data]). *)
Theorem len_raises_on_default_dataset :
  match __init__ randn raw defaults ∅ with
  | (Returned self, h') =>
      length <$> (self !! "data" ≫= records h') = Some 1%nat ∧
      fst (__len__ self h') = Raised (AttributeError "X")
  | (Raised _, _) => False
  end.
Proof. vm_compute. split; reflexivity. Qed.



(** C6 fails on the code: with [use_mask = False] and the jet feature
    requested the constructor returns a dataset, the jet feature
    switched off. *)
Lemma jet_feature_without_mask_counterexample :
  match __init__ randn raw maskless ∅ with
  | (Returned self, h') =>
      self !! "use_jet_features" = Some (ABool false) ∧
      map (map length) <$> (self !! "data" ≫= records h')
      = Some [replicate 30 3%nat]
  | (Raised _, _) => False
  end.
Proof. vm_compute. split; reflexivity. Qed.

Lemma jet_feature_without_mask_witness :
  returned_object (__init__ randn raw maskless ∅) !! "use_jet_features"
  = Some (ABool false) ∧
  returned_object (__init__ randn raw maskless ∅) !! "jet_features" = None.
Proof.
  apply (proj2 (jet_feature_without_mask_is_dropped randn raw maskless ∅
                  eq_refl eq_refl eq_refl)
               _ (snd (__init__ randn raw maskless ∅))).
  apply returns_value. vm_compute. reflexivity.
Defined.

Lemma particle_axis_witness :
  ((∃ l t0 h0,
      load_dataset raw 10 2 true ∅ = (Returned l, h0) ∧ h0 !! l = Some t0 ∧
      shape1 t0 = 10%nat ∧
      Forall (λ jet, length jet = 10%nat) (cells t0)) ∧
   (∀ self h',
      __init__ randn raw ten_two ∅ = (Returned self, h') →
      ∃ v recs, self !! "data" = Some v ∧ records h' v = Some recs ∧
                Forall (λ jet, length jet = 10%nat) recs)) ∧
  match __init__ randn raw ten_two ∅ with
  | (Returned self, h') =>
      map length <$> (self !! "data" ≫= records h') = Some [10%nat]
  | (Raised _, _) => False
  end.
Proof.
  split.
  - apply (particle_axis_of_valid_configuration randn raw ten_two ∅
             raw_well_shaped eq_refl).
    left. simpl. lia.
  - vm_compute. reflexivity.
Defined.
End SampleRuns.

(** ** The jet feature (C7) *)

Section JetFeature.
Import Sample.

(** C7, evaluated.  With five real particles among ten slots and
    [num_particles = 10] the jet feature is 0.5, the specification's
    example.  At the default [num_particles = 0] ("use all") the divisor
    is the configured 0, not the 30 particles of the array: a jet with
    five real particles gets +infinity, from [get_jet_features] and in
    the dataset the constructor returns. *)
Theorem jet_feature_at_default_count_is_infinite :
  fst (get_jet_features self10 1%positive true {[1%positive := raw10]})
  = Returned [[F32.half]] ∧
  fst (get_jet_features {["num_particles" := AInt 0]} 1%positive true
         {[1%positive := raw]})
  = Returned [[F32.inf]; [F32.inf]] ∧
  returned_object (__init__ randn raw defaults ∅) !! "jet_features"
  = Some (AMatrix [[F32.inf]]).
Proof. vm_compute. repeat split; reflexivity. Qed.
End JetFeature.

(** ** A constant-zero column (C9) *)

Section ZeroColumn.
Implicit Types t : tensor F32.t.



Lemma elem_of_column t i x :
  x ∈ flatten (column i t) → ∃ n p, cell t n p i = Some x.
Proof.
  unfold flatten, column, cell. intros Hx.
  apply list_elem_of_In, in_concat in Hx as (row & Hrow & Hx).
  apply list_elem_of_In, list_elem_of_lookup in Hrow as [n Hn].
  rewrite lookup_map in Hn.
  destruct (cells t !! n) as [jet|] eqn:Hjet; [|discriminate]. simpl in Hn.
  injection Hn as <-. exists n.
  apply list_elem_of_In, list_elem_of_omap in Hx as (part & Hp & Hx).
  apply list_elem_of_lookup in Hp as [p Hp]. exists p.
  rewrite Hjet. simpl. now rewrite Hp.
Qed.

Lemma max_abs_of_zeros (v : list F32.t) mx :
  Forall is_zero v → max_abs_of v = Some mx → mx = F32.zero.
Proof.
  destruct v as [|x xs]; [discriminate|]. unfold max_abs_of.
  intros Hall [= <-]. apply Forall_cons in Hall as [Hx Hxs].
  assert (SFabs x = F32.zero) as -> by (destruct Hx as [-> | ->]; reflexivity).
  induction Hxs as [|y ys Hy _ IH]; [reflexivity|].
  change (fold_left tmax (map SFabs ys) (tmax F32.zero (SFabs y)) = F32.zero).
  assert (SFabs y = F32.zero) as -> by (destruct Hy as [-> | ->]; reflexivity).
  exact IH.
Qed.

Lemma zero_over_zero_stays_nan (x m : F32.t) (s : option F32.t) :
  is_zero x → shift s (scale (Some m) F32.zero x) = F32.nan.
Proof.
  intros [-> | ->]; simpl.
  - destruct s as [s|]; simpl.
    + destruct (negb _); destruct m, s; reflexivity.
    + destruct m; reflexivity.
  - destruct s as [s|]; simpl.
    + destruct (negb _); destruct m, s; reflexivity.
    + destruct m; reflexivity.
Qed.

(** C9, as the code has it.  [normalize_features] divides by the observed
    max-abs without a guard.  For a column that is 0 on every particle
    (of either sign) and has a non-null target, the observed max-abs is
    0 and a returning call leaves NaN in every cell of the column,
    whatever the target and the shift. *)
Theorem zero_column_becomes_nan (self : object F32.t) l norms shifts
    (h : heap F32.t) t i m d maxes cut h' :
  h !! l = Some t → well_shaped t → (i < shape2 t)%nat →
  norms !! i = Some (Some m) →
  (∀ n p x, cell t n p i = Some x → is_zero x) →
  normalize_features self l norms shifts h = (Returned (d, maxes, cut), h') →
  maxes !! i = Some F32.zero ∧
  ∃ t', h' !! l = Some t' ∧
    ∀ n p, (n < shape0 t)%nat → (p < shape1 t)%nat →
           cell t' n p i = Some F32.nan.
Proof.
  intros Hl W Hi Hnorm Hzero Hrun.
  destruct (normalize_features_returned _ _ _ _ _ _ _ _ _ _ Hl Hrun)
    as (_ & _ & Hmax & t' & -> & _ & _ & _ & _ & Hcells).
  destruct (Hmax i Hi) as (mx & Hmx & Hof).
  assert (mx = F32.zero) as ->.
  { eapply max_abs_of_zeros; [|exact Hof].
    apply Forall_forall. intros x Hx.
    apply elem_of_column in Hx as (n & p & Hx). eauto. }
  split; [done|]. exists t'. split; [apply lookup_insert_eq|].
  intros n p Hn Hp.
  destruct (Hcells i Hi) as (norm & s & mx & Hn' & Hs & Hmx' & Hc).
  rewrite Hnorm in Hn'. injection Hn' as <-.
  rewrite Hmx in Hmx'. injection Hmx' as <-.
  destruct (cell_is_Some t n p i W Hn Hp Hi) as [x Hx].
  rewrite Hc, Hx. simpl. f_equal.
  apply zero_over_zero_stays_nan. eauto.
Qed.
End ZeroColumn.

(** ** What unnormalize_features returns (C2) *)

Section ReturnValue.
Import Sample.

(** C2, evaluated on the dataset the constructor builds from the sample
    file.  In combined mode ([ret_mask_separate = False]) the call returns
    a pair, the view of the last column and the tensor, not the tensor
    alone; in separate mode it returns the view of the last column and
    the boolean mask, and no feature array. *)
Theorem unnormalize_returns_a_pair_in_both_modes :
  match __init__ randn raw defaults ∅ with
  | (Returned self, h') =>
      fst (unnormalize_features self 1%positive false false true true h')
      = Returned (VTuple (VColumn 1%positive 3) (VTensor 1%positive)) ∧
      fst (unnormalize_features self 1%positive true false true true h')
      = Returned (VTuple (VColumn 1%positive 3)
                    (VMask [replicate 5 true ++ replicate 25 false;
                            replicate 5 true ++ replicate 25 false]))
  | (Raised _, _) => False
  end.
Proof. vm_compute. split; reflexivity. Qed.
End ReturnValue.

(** ** Round trip (C3) *)

Section RoundTripRuns.
Import Sample.

End RoundTripRuns.

Section RoundTripFacts.
Context {R : Type} {D : Dtype R}.

Lemma postprocess_off um real zmp znp j (yl y : R) :
  postprocessed um real zmp znp j = false →
  postprocess um real zmp znp j yl y = y.
Proof.
  unfold postprocessed, postprocess.
  destruct real, zmp, um, znp, (j =? 2)%nat; simpl; try discriminate;
    reflexivity.
Qed.

(** Where the post-processing is off, [unnormalize_features] only undoes
    the shift and the scaling. *)
Lemma unnormalize_untouched_cells (self : object R) norms shifts maxes um
      l sep real zmp znp (h : heap R) t v h' :
  self !! "feature_norms" = Some (AOptList norms) →
  self !! "feature_shifts" = Some (AOptList shifts) →
  self !! "feature_maxes" = Some (AList maxes) →
  self !! "use_mask" = Some (ABool um) →
  h !! l = Some t → well_shaped t →
  unnormalize_features self l sep real zmp znp h = (Returned v, h') →
  ∃ t', h' = <[l := t']> h ∧
    ∀ n p j x, cell t n p j = Some x →
      postprocessed um real zmp znp j = false →
      ∃ norm s mx, norms !! j = Some norm ∧ shifts !! j = Some s ∧
        (is_Some norm → maxes !! j = Some mx) ∧
        cell t' n p j = Some (unscale norm mx (unshift s x)).
Proof.
  intros Hn Hs Hm Hu Hl W Hrun.
  destruct (unnormalize_features_returned self norms shifts maxes um
              Hn Hs Hm Hu _ _ _ _ _ _ _ _ _ Hl W Hrun)
    as (HF & t1 & t' & S2 & Hloop & _ & -> & _ & _ & _ & Hcells).
  exists t'. split; [done|]. intros n p j x Hx Hoff.
  destruct (cell_Some_bounds _ _ _ _ _ W Hx) as (Hn' & Hp' & Hj).
  destruct (Hloop j Hj) as (g & (norm & s & mx & ? & ? & ? & Hg) & Hc).
  destruct (Hloop (shape2 t - 1)%nat) as (gl & _ & Hcl); [lia|].
  destruct (cell_is_Some t n p (shape2 t - 1) W) as [xl Hxl]; [lia..|].
  exists norm, s, mx. do 3 (split; [done|]).
  rewrite Hcells, Hcl, Hxl, Hc, Hx. simpl.
  now rewrite (postprocess_off _ _ _ _ _ _ _ Hoff), Hg.
Qed.

Lemma roundtrip_returned norms shifts um real zmp znp (x t2 : tensor R) :
  well_shaped x →
  roundtrip norms shifts um real zmp znp x = Some t2 →
  ∀ n p j a, cell x n p j = Some a →
    postprocessed um real zmp znp j = false →
    ∃ norm s mx,
      norms !! j = Some norm ∧ shifts !! j = Some s ∧
      max_abs_of (flatten (column j x)) = Some mx ∧
      cell t2 n p j
      = Some (unscale norm mx (unshift s (shift s (scale norm mx a)))).
Proof.
  intros W. unfold roundtrip.
  destruct (normalize_features _ _ _ _ _) as [[[[d maxes] c]|e] h1] eqn:E1;
    [|discriminate].
  apply (normalize_features_returned _ _ _ _ _ _ _ _ _ _
           (lookup_singleton_eq _ _)) in E1
    as (-> & _ & Hmax & t1 & -> & _ & _ & S2 & W1 & Hc1).
  destruct (unnormalize_features _ _ _ _ _ _ _) as [[v|e] h2] eqn:E2;
    [|discriminate].
  eapply (unnormalize_untouched_cells _ norms shifts maxes um) in E2;
    [ | unfold fitted; now lookup_attr .. | apply lookup_insert_eq | auto].
  destruct E2 as (t' & -> & Hc2).
  rewrite lookup_insert_eq. intros [= <-] n p j a Ha Hoff.
  destruct (cell_Some_bounds _ _ _ _ _ W Ha) as (_ & _ & Hj).
  destruct (Hc1 j Hj) as (norm & s & mx & Hn & Hs & Hmx & Hcell1).
  destruct (Hmax j Hj) as (mx0 & Hmx0 & Hof).
  rewrite Hmx in Hmx0. injection Hmx0 as <-.
  assert (cell t1 n p j = Some (shift s (scale norm mx a))) as Ht1
      by now rewrite Hcell1, Ha.
  destruct (Hc2 _ _ _ _ Ht1 Hoff)
    as (norm' & s' & mx' & Hn' & Hs' & Hmx' & ->).
  rewrite Hn in Hn'. injection Hn' as <-.
  rewrite Hs in Hs'. injection Hs' as <-.
  exists norm, s, mx. do 3 (split; [done|]).
  destruct norm as [m|]; [|reflexivity].
  assert (maxes !! j = Some mx') as Hmx'' by (apply Hmx'; eauto).
  rewrite Hmx in Hmx''. now injection Hmx'' as <-.
Qed.
End RoundTripFacts.

(** ** Noise padding: what a returning call has done *)

Section SlotFacts.
Context {R : Type}.

Lemma cell_slot (t : tensor R) n p j :
  cell t n p j = slot (cells t) n p ≫= λ x, x !! j.
Proof. unfold cell, slot. now destruct (cells t !! n). Qed.

Lemma slot_zip_with {A B C} (f : A → B → C) (c1 : list (list A))
      (c2 : list (list B)) n p :
  slot (zip_with (zip_with f) c1 c2) n p
  = (x ← slot c1 n p; y ← slot c2 n p; Some (f x y)).
Proof.
  unfold slot. rewrite lookup_zip_with.
  destruct (c1 !! n) as [j1|]; simpl; [|done].
  destruct (c2 !! n) as [j2|]; simpl.
  - apply lookup_zip_with.
  - now destruct (j1 !! p).
Qed.

Lemma slot_map {A B} (g : A → B) (c : list (list A)) n p :
  slot (map (map g) c) n p = g <$> slot c n p.
Proof.
  unfold slot. rewrite lookup_map.
  destruct (c !! n) as [j|]; simpl; [|done]. apply lookup_map.
Qed.

Lemma slot_has_shape N P F (c : list (list (list R))) n p :
  has_shape N P F c → (n < N)%nat → (p < P)%nat →
  ∃ x, slot c n p = Some x ∧ length x = F.
Proof.
  intros [HN Hc] Hn Hp. unfold slot.
  destruct (lookup_lt_is_Some_2 c n) as [jet Hjet]; [lia|].
  rewrite Hjet; simpl.
  destruct (Forall_lookup_1 _ _ _ _ Hc Hjet) as [HP Hj].
  destruct (lookup_lt_is_Some_2 jet p) as [x Hx]; [lia|].
  exists x. split; [done|]. exact (Forall_lookup_1 _ _ _ _ Hj Hx).
Qed.

Lemma has_shape_map_cells N P F (g : R → R) c :
  has_shape N P F c → has_shape N P F (map_cells g c).
Proof.
  intros [HN Hc]. split; [unfold map_cells; now rewrite length_map|].
  apply Forall_map. eapply Forall_impl; [exact Hc|].
  intros jet [HP Hj]. split; [now rewrite length_map|].
  apply Forall_map. eapply Forall_impl; [exact Hj|].
  intros x Hx. simpl. now rewrite length_map.
Qed.
End SlotFacts.

Section NoiseFacts.
Context {R : Type} {D : Dtype R}.
Variable randn : nat → nat → nat → list (list (list R)).
Hypothesis randn_shape : ∀ n p f, has_shape n p f (randn n p f).

Lemma add_noise_padding_returned (self : object R) l (h : heap R) t d h' :
  h !! l = Some t → well_shaped t →
  add_noise_padding randn self l h = (Returned d, h') →
  d = l ∧ (3 < shape2 t)%nat ∧
  ∃ t', h' = <[l := t']> h ∧
    ∀ n p j x v, cell t n p j = Some x → cell t n p 3 = Some v →
      ∃ e, cell t' n p j = Some (fadd x e) ∧
           (feq (fadd v half) zero = false → e = zero) ∧
           (j = (shape2 t - 1)%nat → e = zero).
Proof.
  intros Hl W Hrun. unfold add_noise_padding in Hrun.
  rewrite (bind_run _ _ _ _ _ (read_run _ _ _ Hl)) in Hrun.
  apply bind_returned in Hrun as (np & h1 & Hnp & Hrun).
  apply get_int_returned in Hnp as [Hnp ->].
  destruct (_ || _); [discriminate|].
  destruct (decide (2 < shape2 t - 1)%nat) as [HF|]; [|discriminate].
  destruct (decide (shape1 t = Z.to_nat np)) as [HP|]; [|discriminate].
  apply bind_returned in Hrun as ([] & h2 & Hw & Hrun).
  unfold write in Hw. injection Hw as <-.
  unfold ret in Hrun. injection Hrun as <- <-.
  split; [done|]. split; [lia|]. eexists. split; [reflexivity|].
  intros n p j x v Hx Hv.
  destruct (cell_Some_bounds _ _ _ _ _ W Hx) as (Hn & Hp & Hj).
  set (noise := map (map (alter (λ y, fdiv y (of_Z 2)) 2%nat)) _).
  assert (has_shape (shape0 t) (shape1 t) (shape2 t - 1) noise) as Hnoise.
  { apply has_shape_map_alter. do 3 apply has_shape_map_cells.
    rewrite HP. apply randn_shape. }
  destruct (slot_has_shape _ _ _ _ n p Hnoise Hn Hp) as (y & Hy & Hlen).
  set (gm := λ y : R, negb (feq (fadd y half) zero)).
  assert (slot (map (map gm) (column 3 t)) n p = Some (gm v))
    as Hmask by (unfold slot; rewrite column_entry, Hv; [done..|lia]).
  rewrite cell_slot in Hx |- *. simpl.
  rewrite slot_zip_with, slot_map. unfold fill_where.
  rewrite slot_zip_with, Hmask, Hy. simpl.
  destruct (slot (cells t) n p) as [part|]; [|discriminate].
  simpl in Hx |- *. rewrite lookup_zip_with, Hx. simpl.
  assert (length (if gm v then map (λ _ : R, zero) y else y)
          = (shape2 t - 1)%nat) as Hlen'
      by (destruct (gm v); [rewrite length_map|]; exact Hlen).
  destruct (decide (j = (shape2 t - 1)%nat)) as [->|Hne].
  - rewrite lookup_app_r by lia. rewrite Hlen', Nat.sub_diag. simpl.
    exists zero. auto.
  - rewrite lookup_app_l by lia.
    destruct (lookup_lt_is_Some_2 (if gm v then map (λ _ : R, zero) y else y) j)
      as [e He]; [lia|].
    rewrite He. simpl. exists e. split; [done|]. split; [|done].
    intros Hreal. subst gm. simpl in He. rewrite Hreal in He. simpl in He.
    rewrite lookup_map in He. destruct (y !! j); [|discriminate].
    now injection He as <-.
Qed.
End NoiseFacts.

(** ** Binary floating point: rounding a number above the subnormal range
       never gives zero *)

Section Rounding.
Variables prec emax : Z.
Hypothesis prec_pos : 0 < prec.

Lemma digits2_size p : digits2_pos p = Pos.size p.
Proof. induction p; simpl; congruence. Qed.

Lemma digits2_lower p : 2 ^ (Z.pos (digits2_pos p) - 1) ≤ Z.pos p.
Proof.
  rewrite digits2_size. pose proof (Pos.size_le p) as H.
  apply Pos2Z.pos_le_pos in H. rewrite Pos2Z.inj_pow in H.
  replace (Z.pos (Pos.size p)) with (Z.succ (Z.pos (Pos.size p) - 1)) in H by lia.
  rewrite Z.pow_succ_r in H by lia. lia.
Qed.

Lemma digits2_upper p : Z.pos p < 2 ^ Z.pos (digits2_pos p).
Proof.
  rewrite digits2_size. pose proof (Pos.size_gt p) as H.
  apply Pos2Z.pos_lt_pos in H. now rewrite Pos2Z.inj_pow in H.
Qed.

Lemma digits2_mono p q : (p ≤ q)%positive → (digits2_pos p ≤ digits2_pos q)%positive.
Proof.
  intros Hpq. apply Pos2Z.pos_le_pos in Hpq.
  pose proof (digits2_lower p). pose proof (digits2_upper q).
  assert (2 ^ (Z.pos (digits2_pos p) - 1) < 2 ^ Z.pos (digits2_pos q)) as H1 by lia.
  apply Z.pow_lt_mono_r_iff in H1; lia.
Qed.

Lemma digits2_iter_xO p d :
  digits2_pos (Pos.iter xO p d) = (digits2_pos p + d)%positive.
Proof.
  induction d as [|d IH] using Pos.peano_ind.
  - simpl. lia.
  - rewrite Pos.iter_succ. simpl. rewrite IH. lia.
Qed.

Lemma shr_1_m r : 0 ≤ shr_m r → shr_m (shr_1 r) = shr_m r / 2.
Proof.
  destruct r as [m b s]. simpl. intros Hm.
  destruct m as [|[p|p|]|p]; simpl; try reflexivity; try lia.
  - rewrite Pos2Z.inj_xI. apply Z.div_unique with 1; lia.
  - rewrite Pos2Z.inj_xO. apply Z.div_unique with 0; lia.
Qed.

Lemma pow2_xI n : 2 ^ Z.pos n~1 = 2 * 2 ^ Z.pos n * 2 ^ Z.pos n.
Proof.
  assert (Z.pos n~1 = 1 + Z.pos n + Z.pos n) as -> by lia.
  now rewrite !Z.pow_add_r by lia.
Qed.

Lemma pow2_xO n : 2 ^ Z.pos n~0 = 2 ^ Z.pos n * 2 ^ Z.pos n.
Proof.
  assert (Z.pos n~0 = Z.pos n + Z.pos n) as -> by lia.
  now rewrite Z.pow_add_r by lia.
Qed.

Lemma iter_shr_m n : ∀ r,
  0 ≤ shr_m r → shr_m (SpecFloat.iter_pos shr_1 n r) = shr_m r / 2 ^ Z.pos n.
Proof.
  induction n as [n IH|n IH|]; intros r Hr; simpl.
  - assert (0 ≤ shr_m (shr_1 r)) as H1
        by (rewrite shr_1_m by done; apply Z.div_pos; [assumption|lia]).
    assert (0 ≤ shr_m (SpecFloat.iter_pos shr_1 n (shr_1 r))) as H2
        by (rewrite IH by done; apply Z.div_pos; [assumption|lia]).
    rewrite IH, IH, shr_1_m by done.
    rewrite !Z.div_div by lia. rewrite pow2_xI. f_equal. ring.
  - assert (0 ≤ shr_m (SpecFloat.iter_pos shr_1 n r)) as H2
        by (rewrite IH by done; apply Z.div_pos; [assumption|lia]).
    rewrite IH, IH by done.
    rewrite !Z.div_div by lia. rewrite pow2_xO. f_equal.
  - rewrite shr_1_m by done. reflexivity.
Qed.

Lemma shr_positive m l e n :
  0 < m → n < Zdigits2 m →
  0 < shr_m (fst (shr (shr_record_of_loc m l) e n)) ∧
  snd (shr (shr_record_of_loc m l) e n) = e + Z.max n 0.
Proof.
  intros Hm Hn.
  assert (shr_m (shr_record_of_loc m l) = m) as Hrec
      by (destruct l as [|[]]; reflexivity).
  destruct n as [|n|n]; simpl; rewrite ?Hrec; try (split; lia).
  rewrite iter_shr_m by lia. rewrite Hrec. split; [|lia].
  destruct m as [|p|p]; try lia. simpl in Hn.
  pose proof (digits2_lower p) as Hlow.
  apply Z.div_str_pos. split; [lia|].
  eapply Z.le_trans; [|exact Hlow].
  apply Z.pow_le_mono_r; lia.
Qed.

Lemma round_nearest_even_ge m l : m ≤ round_nearest_even m l.
Proof. destruct l as [|[]]; simpl; try lia. destruct (Z.even m); lia. Qed.

Lemma Zdigits2_pos m : 0 < m → 0 < Zdigits2 m.
Proof. destruct m; simpl; lia. Qed.

(** A number whose exponent is above [emin] does not round to zero. *)
Lemma binary_round_aux_nonzero sx m e l :
  emin prec emax < Zdigits2 (Z.pos m) + e →
  SFeqb (binary_round_aux prec emax sx (Z.pos m) e l) (S754_zero false)
  = false.
Proof.
  intros HD. unfold binary_round_aux, shr_fexp.
  set (n1 := fexp prec emax (Zdigits2 (Z.pos m) + e) - e).
  destruct (shr_positive (Z.pos m) l e n1) as [Hm1 He1]; [lia| |].
  { subst n1. unfold fexp. lia. }
  destruct (shr (shr_record_of_loc (Z.pos m) l) e n1) as [r1 e1].
  simpl in Hm1, He1.
  set (m1 := round_nearest_even (shr_m r1) (loc_of_shr_record r1)).
  assert (0 < m1) as Hm1'
      by (pose proof (round_nearest_even_ge (shr_m r1)
                        (loc_of_shr_record r1)); lia).
  set (n2 := fexp prec emax (Zdigits2 m1 + e1) - e1).
  destruct (shr_positive m1 loc_Exact e1 n2) as [Hm2 _]; [lia| |].
  { pose proof (Zdigits2_pos m1 Hm1'). subst n2 n1. unfold fexp in *. lia. }
  destruct (shr (shr_record_of_loc m1 loc_Exact) e1 n2) as [r2 e2].
  simpl in Hm2. destruct (shr_m r2); try lia.
  now destruct (_ <=? _), sx.
Qed.

Lemma shl_align_digits mx ex ex' :
  Zdigits2 (Z.pos (fst (shl_align mx ex ex'))) + snd (shl_align mx ex ex')
  = Zdigits2 (Z.pos mx) + ex.
Proof.
  unfold shl_align. destruct (ex' - ex) as [|d|d] eqn:E; simpl; try reflexivity.
  rewrite digits2_iter_xO. lia.
Qed.

Lemma binary_round_nonzero sx m e :
  emin prec emax < Zdigits2 (Z.pos m) + e →
  SFeqb (binary_round prec emax sx m e) (S754_zero false) = false.
Proof.
  intros HD. unfold binary_round.
  pose proof (shl_align_digits m e
                (fexp prec emax (Z.pos (digits2_pos m) + e))) as Hal.
  destruct (shl_align m e _) as [mz ez].
  apply binary_round_aux_nonzero. simpl in HD, Hal |- *. lia.
Qed.
End Rounding.

(** Adding 0.5 to a binary32 number that is not below zero never gives
    zero. *)
Lemma add_half_nonzero (v : F32.t) :
  SFleb (S754_zero false) v = true →
  SFeqb (SFadd F32.prec F32.emax v F32.half) (S754_zero false) = false.
Proof.
  destruct v as [s|s| |s m e];
    [now destruct s | now destruct s | discriminate |].
  destruct s; [discriminate|]. intros _.
  unfold F32.half, SFadd.
  set (ez := Z.min e (-24)).
  pose proof (shl_align_digits 8388608 (-24) ez) as Hal.
  assert (snd (shl_align 8388608 (-24) ez) = ez) as Hsnd.
  { unfold shl_align. destruct (ez - -24) eqn:E; simpl; lia. }
  rewrite Hsnd in Hal. simpl cond_Zopp.
  destruct (shl_align m e ez) as [m1 e1].
  destruct (shl_align 8388608 (-24) ez) as [m2 e2]. simpl fst in *.
  change (Z.pos m1 + Z.pos m2) with (Z.pos (m1 + m2)).
  unfold binary_normalize. apply binary_round_nonzero; [reflexivity|].
  pose proof (digits2_mono m2 (m1 + m2)%positive) as Hmono.
  simpl in Hal |- *. unfold emin, F32.prec, F32.emax. lia.
Qed.

(** ** Noise padding leaves real slots alone (C4) *)

Section NoisePadding.
Import Sample.

Lemma add_zero_f32 (x : F32.t) :
  fadd x zero = x ∨ (x = F32.neg_zero ∧ fadd x zero = F32.zero).
Proof. destruct x as [[]|[]| |]; simpl; auto. Qed.

(** C4, as the code has it.  After a returning [add_noise_padding], in
    every slot whose shifted mask value is at least 0 (a real particle)
    every feature holds the value it had, to which the code has added
    [+0]: the same binary32 number, bit for bit, except that a negative
    zero has become a positive zero.  Noise is added to no such slot. *)
Theorem real_slots_keep_their_value
    (randn : nat → nat → nat → list (list (list F32.t)))
    (self : object F32.t) l (h : heap F32.t) t d h' :
  (∀ n p f, has_shape n p f (randn n p f)) →
  h !! l = Some t → well_shaped t →
  add_noise_padding randn self l h = (Returned d, h') →
  d = l ∧
  ∃ t', h' !! l = Some t' ∧
    ∀ n p j x v,
      cell t n p j = Some x → cell t n p 3 = Some v → fle zero v = true →
      ∃ x', cell t' n p j = Some x' ∧
            (x' = x ∨ (x = F32.neg_zero ∧ x' = F32.zero)).
Proof.
  intros Hrandn Hl W Hrun.
  destruct (add_noise_padding_returned randn Hrandn _ _ _ _ _ _ Hl W Hrun)
    as (-> & _ & t' & -> & Hcells).
  split; [done|]. exists t'. split; [apply lookup_insert_eq|].
  intros n p j x v Hx Hv Hreal.
  destruct (Hcells _ _ _ _ _ Hx Hv) as (e & He & Hzero & _).
  rewrite (Hzero (add_half_nonzero v Hreal)) in He.
  exists (fadd x zero). split; [done|].
  destruct (add_zero_f32 x) as [-> | [-> ->]]; auto.
Qed.

(** C4 fails on the code for a negative zero.  The constructor builds the
    dataset of a file whose first particle is real (shifted mask 0.5) with
    the first feature at [-0]; [add_noise_padding] on that dataset leaves
    [+0] there. *)
Lemma negative_zero_counterexample :
  match __init__ randn signed_raw thirty ∅ with
  | (Returned self, h1) =>
      match add_noise_padding randn self 1%positive h1 with
      | (Returned d, h2) =>
          (h1 !! 1%positive ≫= λ t, cell t 0 0 3,
           h1 !! 1%positive ≫= λ t, cell t 0 0 0,
           h2 !! d ≫= λ t, cell t 0 0 0)
          = (Some F32.half, Some F32.neg_zero, Some F32.zero)
      | (Raised _, _) => False
      end
  | (Raised _, _) => False
  end.
Proof. vm_compute. reflexivity. Qed.
End NoisePadding.

(** ** Rounding error of the binary32 operations

    A result of [binary_round_aux] lies within one unit in the last place
    of the number it rounds; for a normal result that is within [eps] of
    the result itself.  The lemmas below carry this through [SFmul],
    [SFdiv], [SFadd] and [SFsub], with the values read in the rationals
    by [to_Q]. *)

Section Sandwich.
Variables prec emax : Z.

Lemma shr_floor m l e n :
  0 <= m →
  shr_m (fst (shr (shr_record_of_loc m l) e n)) = m / 2 ^ Z.max n 0 ∧
  snd (shr (shr_record_of_loc m l) e n) = e + Z.max n 0.
Proof.
  intros Hm.
  assert (shr_m (shr_record_of_loc m l) = m) as Hrec
      by (destruct l as [|[]]; reflexivity).
  destruct n as [|n|n]; simpl; rewrite ?Hrec.
  - split; [now rewrite Z.div_1_r|lia].
  - rewrite iter_shr_m by lia. rewrite Hrec. split; [reflexivity|lia].
  - split; [now rewrite Z.div_1_r|lia].
Qed.

Lemma round_nearest_even_le m l : round_nearest_even m l <= m + 1.
Proof. destruct l as [|[]]; simpl; try lia. destruct (Z.even m); lia. Qed.

(** The mantissa and exponent [binary_round_aux] produces lie within one
    unit in the last place of the number it was given. *)
Lemma binary_round_aux_sandwich sx mx ex lx s m e :
  0 <= mx →
  binary_round_aux prec emax sx mx ex lx = S754_finite s m e →
  s = sx ∧ ex <= e ∧
  (Z.pos m - 1) * 2 ^ (e - ex) <= mx ∧
  mx + 1 <= (Z.pos m + 1) * 2 ^ (e - ex).
Proof.
  intros Hmx. unfold binary_round_aux, shr_fexp.
  set (n1 := fexp prec emax (Zdigits2 mx + ex) - ex).
  destruct (shr_floor mx lx ex n1 Hmx) as [Hf1 He1].
  destruct (shr (shr_record_of_loc mx lx) ex n1) as [r1 e1].
  simpl in Hf1, He1.
  set (g := round_nearest_even (shr_m r1) (loc_of_shr_record r1)).
  assert (shr_m r1 <= g <= shr_m r1 + 1) as Hg
      by (split; [apply round_nearest_even_ge|apply round_nearest_even_le]).
  assert (0 <= shr_m r1) as Hr1
      by (rewrite Hf1; apply Z.div_pos; [done|apply Z.pow_pos_nonneg; lia]).
  set (n2 := fexp prec emax (Zdigits2 g + e1) - e1).
  destruct (shr_floor g loc_Exact e1 n2) as [Hf2 He2]; [lia|].
  destruct (shr (shr_record_of_loc g loc_Exact) e1 n2) as [r2 e2].
  simpl in Hf2, He2.
  destruct (shr_m r2) as [|m'|m'] eqn:Hm2; [discriminate| |discriminate].
  destruct (e2 <=? emax - prec); [|discriminate].
  intros [= <- <- <-].
  set (k1 := Z.max n1 0) in *. set (k2 := Z.max n2 0) in *.
  assert (0 <= k1) as Hk1 by lia. assert (0 <= k2) as Hk2 by lia.
  split; [done|]. split; [lia|].
  replace (e2 - ex) with (k1 + k2) by lia.
  rewrite Z.pow_add_r by lia.
  assert (0 < 2 ^ k1) as HP1 by (apply Z.pow_pos_nonneg; lia).
  assert (0 < 2 ^ k2) as HP2 by (apply Z.pow_pos_nonneg; lia).
  pose proof (Z.mul_div_le mx (2 ^ k1) HP1) as L1.
  pose proof (Z.mul_succ_div_gt mx (2 ^ k1) HP1) as U1.
  pose proof (Z.mul_div_le g (2 ^ k2) HP2) as L2.
  pose proof (Z.mul_succ_div_gt g (2 ^ k2) HP2) as U2.
  rewrite <- Hf1 in L1, U1. rewrite <- Hf2 in L2, U2.
  set (P1 := 2 ^ k1) in *. set (P2 := 2 ^ k2) in *.
  set (f1 := shr_m r1) in *.
  split; nia.
Qed.
End Sandwich.

Section RationalValues.
Import QArith Qabs Qpower Lqa.
Open Scope Q_scope.

Lemma pow2_pos (e : Z) : 0 < 2 ^ e.
Proof. now apply Qpower_0_lt. Qed.

Lemma pow2_add (a b : Z) : 2 ^ (a + b) == 2 ^ a * 2 ^ b.
Proof. now apply Qpower_plus. Qed.

Lemma pow2_inject (k : Z) : (0 <= k)%Z → inject_Z (2 ^ k) == 2 ^ k.
Proof. intros Hk. now rewrite Zpower_Qpower. Qed.

(** A finite number written with magnitude and sign. *)
Lemma to_Q_finite s m e :
  to_Q (S754_finite s m e)
  == (if s then -1 else 1) * (inject_Z (Z.pos m) * 2 ^ e).
Proof.
  destruct s; simpl cond_Zopp; unfold to_Q, cond_Zopp.
  - change (Z.neg m) with (- Z.pos m)%Z. rewrite inject_Z_opp. ring.
  - ring.
Qed.

(** What the sandwich gives in rationals: a result [m * 2^e] of
    [binary_round_aux] on [mx * 2^ex] is within [2^e] of every number
    between [mx * 2^ex] and [(mx + 1) * 2^ex]. *)
Lemma sandwich_Q prec emax sx mx ex lx s m e (t : Q) :
  (0 <= mx)%Z →
  binary_round_aux prec emax sx mx ex lx = S754_finite s m e →
  inject_Z mx * 2 ^ ex <= t → t <= inject_Z (mx + 1) * 2 ^ ex →
  s = sx ∧
  inject_Z (Z.pos m) * 2 ^ e - 2 ^ e <= t ∧
  t <= inject_Z (Z.pos m) * 2 ^ e + 2 ^ e.
Proof.
  intros Hmx Hr Hlo Hhi.
  destruct (binary_round_aux_sandwich _ _ _ _ _ _ _ _ _ Hmx Hr)
    as (-> & He & Hl & Hu).
  split; [done|].
  assert (2 ^ e == 2 ^ (e - ex) * 2 ^ ex) as Epow
      by (rewrite <- pow2_add; now replace (e - ex + ex)%Z with e by lia).
  pose proof (pow2_pos ex) as Hpos.
  assert (inject_Z ((Z.pos m - 1) * 2 ^ (e - ex)) <= inject_Z mx) as Hl'
      by (now rewrite <- Zle_Qle).
  assert (inject_Z (mx + 1) <= inject_Z ((Z.pos m + 1) * 2 ^ (e - ex)))
    as Hu' by (now rewrite <- Zle_Qle).
  rewrite inject_Z_mult, pow2_inject in Hl', Hu' by lia.
  rewrite !inject_Z_plus in Hu'.
  change (Z.pos m - 1)%Z with (Z.pos m + -1)%Z in Hl'.
  rewrite inject_Z_plus in Hl'.
  set (P := 2 ^ (e - ex)) in *. set (B := 2 ^ ex) in *.
  set (M := inject_Z (Z.pos m)) in *. set (X := inject_Z mx) in *.
  rewrite inject_Z_plus in Hhi. fold X in Hhi.
  rewrite Epow.
  assert ((M + inject_Z (-1)) * P * B <= X * B) as H1
      by (apply Qmult_le_compat_r; [exact Hl'|lra]).
  assert ((X + inject_Z 1) * B <= (M + inject_Z 1) * P * B) as H2
      by (apply Qmult_le_compat_r; [exact Hu'|lra]).
  change (inject_Z 1) with 1 in *. change (inject_Z (-1)) with (-1 # 1) in *.
  split; lra.
Qed.
End RationalValues.

Section Products.
Import QArith Qabs Qpower Lqa.
Open Scope Q_scope.

Lemma to_Q_sign s m e :
  to_Q (S754_finite s m e) == sign s * (inject_Z (Z.pos m) * 2 ^ e).
Proof. apply to_Q_finite. Qed.

Lemma sign_xorb a b : sign (xorb a b) == sign a * sign b.
Proof. destruct a, b; reflexivity. Qed.

Lemma sign_sqr a : sign a * sign a == 1.
Proof. destruct a; reflexivity. Qed.

Lemma Qabs_sign s x : Qabs (sign s * x) == Qabs x.
Proof.
  destruct s; unfold sign.
  - assert (-1 * x == - x) as -> by ring. apply Qabs_opp.
  - assert (1 * x == x) as -> by ring. reflexivity.
Qed.

(** A normal result within one unit in the last place of [T] is within
    [eps] of it, relative to the result. *)
Lemma close_of_sandwich s m e (T : Q) :
  normal (S754_finite s m e) = true →
  inject_Z (Z.pos m) * 2 ^ e - 2 ^ e <= T →
  T <= inject_Z (Z.pos m) * 2 ^ e + 2 ^ e →
  Qabs (sign s * (inject_Z (Z.pos m) * 2 ^ e) - sign s * T)
  <= eps * Qabs (sign s * (inject_Z (Z.pos m) * 2 ^ e)).
Proof.
  intros Hn Hlo Hhi. simpl in Hn. apply Z.leb_le in Hn.
  rewrite Zle_Qle in Hn.
  pose proof (pow2_pos e) as Hpos.
  set (B := 2 ^ e) in *. set (M := inject_Z (Z.pos m)) in *.
  assert (inject_Z 8388608 * B <= M * B) as HV
      by (apply Qmult_le_compat_r; [exact Hn|lra]).
  change (inject_Z 8388608) with (8388608 # 1) in HV.
  assert (sign s * (M * B) - sign s * T == sign s * (M * B - T)) as ->
      by ring.
  rewrite !Qabs_sign. unfold eps.
  rewrite (Qabs_pos (M * B)) by lra.
  apply Qabs_Qle_condition. split; lra.
Qed.

Lemma mul_close (x y : F32.t) :
  normal (SFmul 24 128 x y) = true →
  Qabs (to_Q (SFmul 24 128 x y) - to_Q x * to_Q y)
  <= eps * Qabs (to_Q (SFmul 24 128 x y)).
Proof.
  destruct x as [sx|sx| |sx mx ex], y as [sy|sy| |sy my ey];
    try discriminate.
  simpl SFmul.
  destruct (binary_round_aux 24 128 (xorb sx sy) (Z.pos (mx * my))
              (ex + ey) loc_Exact) as [| | |s m e] eqn:Hr; try discriminate.
  intros Hn.
  assert (0 <= Z.pos (mx * my))%Z as Hpos by lia.
  destruct (sandwich_Q _ _ _ _ _ _ _ _ _
              (inject_Z (Z.pos (mx * my)) * 2 ^ (ex + ey))
              Hpos Hr) as (-> & Hlo & Hhi).
  { apply Qle_refl. }
  { apply Qmult_le_compat_r; [|apply Qlt_le_weak, pow2_pos].
    rewrite <- Zle_Qle. lia. }
  rewrite !to_Q_sign.
  assert (sign sx * (inject_Z (Z.pos mx) * 2 ^ ex)
          * (sign sy * (inject_Z (Z.pos my) * 2 ^ ey))
          == sign (xorb sx sy)
             * (inject_Z (Z.pos (mx * my)) * 2 ^ (ex + ey))) as ->
      by (rewrite sign_xorb, pow2_add, Pos2Z.inj_mul, inject_Z_mult; ring).
  now apply close_of_sandwich.
Qed.
End Products.

Lemma iter_xO_pow m d : Z.pos (Pos.iter xO m d) = Z.pos m * 2 ^ Z.pos d.
Proof.
  induction d as [|d IH] using Pos.peano_ind.
  - simpl. lia.
  - rewrite Pos.iter_succ, Pos2Z.inj_xO, IH, Pos2Z.inj_succ.
    rewrite Z.pow_succ_r by lia. ring.
Qed.

Section Sums.
Import QArith Qabs Qpower Lqa.
Open Scope Q_scope.

Lemma inject_cond_Zopp s z : inject_Z (cond_Zopp s z) == sign s * inject_Z z.
Proof.
  destruct s; unfold cond_Zopp, sign; [rewrite inject_Z_opp|]; ring.
Qed.

Lemma inject_Z_sub a b : inject_Z (a - b) == inject_Z a - inject_Z b.
Proof.
  change (a - b)%Z with (a + - b)%Z. rewrite inject_Z_plus, inject_Z_opp.
  ring.
Qed.

Lemma shl_align_value m e e0 :
  inject_Z (Z.pos (fst (shl_align m e e0))) * 2 ^ snd (shl_align m e e0)
  == inject_Z (Z.pos m) * 2 ^ e.
Proof.
  unfold shl_align. destruct (e0 - e)%Z as [|d|d] eqn:E; simpl fst; simpl snd;
    try reflexivity.
  rewrite iter_xO_pow, inject_Z_mult, pow2_inject by lia.
  replace e with (Z.pos d + e0)%Z by lia. rewrite pow2_add. ring.
Qed.

Lemma shl_align_min m e e0 :
  (e0 <= e)%Z →
  inject_Z (Z.pos (fst (shl_align m e e0))) * 2 ^ e0
  == inject_Z (Z.pos m) * 2 ^ e.
Proof.
  intros He. pose proof (shl_align_value m e e0) as H.
  assert (snd (shl_align m e e0) = e0) as E
      by (unfold shl_align; destruct (e0 - e)%Z eqn:E; simpl; lia).
  now rewrite E in H.
Qed.

Lemma round_close sx p e :
  normal (binary_round 24 128 sx p e) = true →
  Qabs (to_Q (binary_round 24 128 sx p e)
        - sign sx * (inject_Z (Z.pos p) * 2 ^ e))
  <= eps * Qabs (to_Q (binary_round 24 128 sx p e)).
Proof.
  unfold binary_round.
  pose proof (shl_align_value p e
                (fexp 24 128 (Z.pos (digits2_pos p) + e))) as Hv.
  destruct (shl_align p e _) as [mz ez]. simpl fst in Hv. simpl snd in Hv.
  destruct (binary_round_aux 24 128 sx (Z.pos mz) ez loc_Exact)
    as [| | |s m e'] eqn:Hr; try discriminate.
  intros Hn.
  assert (0 <= Z.pos mz)%Z as Hpos by lia.
  destruct (sandwich_Q _ _ _ _ _ _ _ _ _ (inject_Z (Z.pos mz) * 2 ^ ez)
              Hpos Hr) as (-> & Hlo & Hhi).
  { apply Qle_refl. }
  { apply Qmult_le_compat_r; [|apply Qlt_le_weak, pow2_pos].
    rewrite <- Zle_Qle. lia. }
  rewrite to_Q_sign, <- Hv. now apply close_of_sandwich.
Qed.

Lemma normalize_close z e :
  normal (binary_normalize 24 128 z e false) = true →
  Qabs (to_Q (binary_normalize 24 128 z e false) - inject_Z z * 2 ^ e)
  <= eps * Qabs (to_Q (binary_normalize 24 128 z e false)).
Proof.
  destruct z as [|p|p]; simpl binary_normalize; [discriminate| |];
    intros Hn; pose proof (round_close _ _ _ Hn) as H.
  - assert (inject_Z (Z.pos p) * 2 ^ e
            == sign false * (inject_Z (Z.pos p) * 2 ^ e)) as ->
        by (unfold sign; ring).
    exact H.
  - assert (inject_Z (Z.neg p) * 2 ^ e
            == sign true * (inject_Z (Z.pos p) * 2 ^ e)) as ->
        by (change (Z.neg p) with (- Z.pos p)%Z; rewrite inject_Z_opp;
            unfold sign; ring).
    exact H.
Qed.

Lemma exact_close (x : F32.t) (t : Q) :
  to_Q x == t → Qabs (to_Q x - t) <= eps * Qabs (to_Q x).
Proof.
  intros E. assert (to_Q x - t == 0) as -> by (rewrite E; ring).
  change (Qabs 0) with 0.
  apply Qmult_le_0_compat; [discriminate|apply Qabs_nonneg].
Qed.

Lemma add_close (x y : F32.t) :
  normal (SFadd 24 128 x y) = true →
  Qabs (to_Q (SFadd 24 128 x y) - (to_Q x + to_Q y))
  <= eps * Qabs (to_Q (SFadd 24 128 x y)).
Proof.
  destruct x as [sx|sx| |sx mx ex], y as [sy|sy| |sy my ey];
    try discriminate; try (now destruct sx, sy).
  - intros _. apply exact_close. simpl. ring.
  - intros _. apply exact_close. simpl SFadd. simpl (to_Q (S754_zero _)). ring.
  - unfold SFadd. intros Hn.
    pose proof (normalize_close _ _ Hn) as H.
    rewrite inject_Z_plus, !inject_cond_Zopp in H.
    assert ((sign sx * inject_Z (Z.pos (fst (shl_align mx ex (Z.min ex ey))))
             + sign sy * inject_Z (Z.pos (fst (shl_align my ey (Z.min ex ey)))))
            * 2 ^ Z.min ex ey
            == to_Q (S754_finite sx mx ex) + to_Q (S754_finite sy my ey))
      as E.
    { rewrite !to_Q_sign.
      rewrite <- (shl_align_min mx ex (Z.min ex ey)) by lia.
      rewrite <- (shl_align_min my ey (Z.min ex ey)) by lia. ring. }
    now rewrite E in H.
Qed.

Lemma sub_close (x y : F32.t) :
  normal (SFsub 24 128 x y) = true →
  Qabs (to_Q (SFsub 24 128 x y) - (to_Q x - to_Q y))
  <= eps * Qabs (to_Q (SFsub 24 128 x y)).
Proof.
  destruct x as [sx|sx| |sx mx ex], y as [sy|sy| |sy my ey];
    try discriminate; try (now destruct sx, sy).
  - intros _. apply exact_close. simpl SFsub.
    rewrite !to_Q_sign. simpl (to_Q (S754_zero _)).
    assert (sign (negb sy) == - sign sy) as -> by (now destruct sy). ring.
  - intros _. apply exact_close. simpl SFsub. simpl (to_Q (S754_zero _)). ring.
  - unfold SFsub. intros Hn.
    pose proof (normalize_close _ _ Hn) as H.
    rewrite inject_Z_sub, !inject_cond_Zopp in H.
    assert ((sign sx * inject_Z (Z.pos (fst (shl_align mx ex (Z.min ex ey))))
             - sign sy
               * inject_Z (Z.pos (fst (shl_align my ey (Z.min ex ey)))))
            * 2 ^ Z.min ex ey
            == to_Q (S754_finite sx mx ex) - to_Q (S754_finite sy my ey))
      as E.
    { rewrite !to_Q_sign.
      rewrite <- (shl_align_min mx ex (Z.min ex ey)) by lia.
      rewrite <- (shl_align_min my ey (Z.min ex ey)) by lia. ring. }
    now rewrite E in H.
Qed.
End Sums.

(** The quotient and remainder [SFdiv] rounds. *)
Lemma div_core_sandwich mx ex my ey q e' l :
  SFdiv_core_binary 24 128 (Z.pos mx) ex (Z.pos my) ey = (q, e', l) →
  e' <= ex - ey ∧ 0 <= q ∧
  q * Z.pos my <= Z.pos mx * 2 ^ (ex - ey - e') ∧
  Z.pos mx * 2 ^ (ex - ey - e') + 1 <= (q + 1) * Z.pos my.
Proof.
  unfold SFdiv_core_binary.
  set (e0 := Z.min _ (ex - ey)). set (s := ex - ey - e0).
  assert (0 <= s) as Hs by lia.
  set (m' := match s with Z.pos _ => Z.shiftl (Z.pos mx) s | 0 => Z.pos mx
             | Z.neg _ => 0 end).
  assert (m' = Z.pos mx * 2 ^ s) as Hm'.
  { subst m'. destruct s as [|p|p] eqn:E; [simpl; lia| |lia].
    now rewrite Z.shiftl_mul_pow2 by lia. }
  pose proof (Z_div_mod m' (Z.pos my) ltac:(lia)) as Hdiv.
  destruct (Z.div_eucl m' (Z.pos my)) as [q0 r0].
  destruct Hdiv as [Hq Hr]. intros [= <- <- <-].
  assert (0 < 2 ^ s) as HP by (apply Z.pow_pos_nonneg; lia).
  fold s. rewrite <- Hm'. split; [lia|]. split; [nia|]. split; nia.
Qed.

Section Division.
Import QArith Qabs Qpower Lqa.
Open Scope Q_scope.

Lemma div_close (x y : F32.t) :
  normal (SFdiv 24 128 x y) = true →
  Qabs (to_Q (SFdiv 24 128 x y) * to_Q y - to_Q x)
  <= eps * Qabs (to_Q (SFdiv 24 128 x y) * to_Q y).
Proof.
  destruct x as [sx|sx| |sx mx ex], y as [sy|sy| |sy my ey];
    try discriminate.
  unfold SFdiv.
  destruct (SFdiv_core_binary 24 128 (Z.pos mx) ex (Z.pos my) ey)
    as [[q e'] l] eqn:Hcore.
  apply div_core_sandwich in Hcore as (He' & Hq & Hlo & Hhi).
  destruct (binary_round_aux 24 128 (xorb sx sy) q e' l)
    as [| | |s m e] eqn:Hr; try discriminate.
  intros Hn.
  destruct (binary_round_aux_sandwich _ _ _ _ _ _ _ _ _ Hq Hr)
    as (-> & He & Hl & Hu).
  set (k := (e - e')%Z) in *. set (d := (ex - ey - e')%Z) in *.
  assert (0 < 2 ^ k)%Z as HPk by (apply Z.pow_pos_nonneg; lia).
  assert (0 < 2 ^ d)%Z as HPd by (apply Z.pow_pos_nonneg; lia).
  assert ((Z.pos m - 1) * 2 ^ k * Z.pos my <= Z.pos mx * 2 ^ d)%Z as L by nia.
  assert (Z.pos mx * 2 ^ d <= (Z.pos m + 1) * 2 ^ k * Z.pos my)%Z as U by nia.
  rewrite Zle_Qle in L, U.
  rewrite !inject_Z_mult, !pow2_inject in L, U by lia.
  change (Z.pos m - 1)%Z with (Z.pos m + -1)%Z in L.
  rewrite inject_Z_plus in L, U.
  change (inject_Z 1) with 1 in U. change (inject_Z (-1)) with (-1 # 1) in L.
  simpl in Hn. apply Z.leb_le in Hn. rewrite Zle_Qle in Hn.
  change (inject_Z 8388608) with (8388608 # 1) in Hn.
  pose proof (pow2_pos (e' + ey)) as HB.
  assert (2 ^ e * 2 ^ ey == 2 ^ k * 2 ^ (e' + ey)) as E1
      by (rewrite <- !pow2_add; now replace (k + (e' + ey))%Z
            with (e + ey)%Z by lia).
  assert (2 ^ ex == 2 ^ d * 2 ^ (e' + ey)) as E2
      by (rewrite <- pow2_add; now replace (d + (e' + ey))%Z with ex by lia).
  rewrite !to_Q_sign, sign_xorb.
  set (M := inject_Z (Z.pos m)) in *. set (Y := inject_Z (Z.pos my)) in *.
  set (X := inject_Z (Z.pos mx)) in *. set (B := 2 ^ (e' + ey)) in *.
  set (K := 2 ^ k) in *. set (Dd := 2 ^ d) in *.
  assert (sign sx * sign sy * (M * 2 ^ e) * (sign sy * (Y * 2 ^ ey))
          == sign sx * (M * K * Y * B)) as ->.
  { assert (M * 2 ^ e * (Y * 2 ^ ey) == M * Y * (2 ^ e * 2 ^ ey)) as E by ring.
    assert (sign sx * sign sy * (M * 2 ^ e) * (sign sy * (Y * 2 ^ ey))
            == sign sx * (sign sy * sign sy) * (M * 2 ^ e * (Y * 2 ^ ey)))
      as -> by ring.
    rewrite sign_sqr, E, E1. ring. }
  rewrite E2.
  assert (sign sx * (M * K * Y * B) - sign sx * (X * (Dd * B))
          == sign sx * (M * K * Y * B - X * Dd * B)) as -> by ring.
  rewrite !Qabs_sign.
  assert (0 < Y) as HY by (unfold Y; rewrite <- (Zlt_Qlt 0); lia).
  assert (0 < K) as HK by apply pow2_pos.
  assert ((M + (-1 # 1)) * K * Y * B <= X * Dd * B) as L'
      by (apply Qmult_le_compat_r; [exact L|lra]).
  assert (X * Dd * B <= (M + 1) * K * Y * B) as U'
      by (apply Qmult_le_compat_r; [exact U|lra]).
  assert (0 < K * Y * B) as HW
      by (apply Qmult_lt_0_compat; [apply Qmult_lt_0_compat|]; assumption).
  assert ((8388608 # 1) * (K * Y * B) <= M * (K * Y * B)) as HV
      by (apply Qmult_le_compat_r; [exact Hn|lra]).
  set (W := K * Y * B) in *.
  assert (M * K * Y * B == M * W) as -> by (unfold W; ring).
  assert ((M + (-1 # 1)) * K * Y * B == M * W - W) as EL by (unfold W; ring).
  assert ((M + 1) * K * Y * B == M * W + W) as EU by (unfold W; ring).
  rewrite EL in L'. rewrite EU in U'.
  rewrite (Qabs_pos (M * W)) by lra. unfold eps.
  apply Qabs_Qle_condition. split; lra.
Qed.
End Division.

Section Composition.
Import QArith Qabs Qpower Lqa.
Open Scope Q_scope.

Lemma to_Q_of_zero (s : F32.t) : feq s zero = true → to_Q s == 0.
Proof. destruct s as [[]|[]| |[] m e]; try discriminate; reflexivity. Qed.

Lemma shift_close (s : option F32.t) (x : F32.t) :
  normal (shift s x) = true →
  Qabs (to_Q (shift s x) - (to_Q x + shift_Q s))
  <= eps * Qabs (to_Q (shift s x)).
Proof.
  unfold shift, shift_Q. destruct s as [s|].
  - destruct (feq s zero) eqn:E; simpl negb; cbv iota.
    + intros _. apply exact_close. rewrite (to_Q_of_zero s E). ring.
    + apply add_close.
  - intros _. apply exact_close. ring.
Qed.

Lemma unshift_close (s : option F32.t) (x : F32.t) :
  normal (unshift s x) = true →
  Qabs (to_Q (unshift s x) - (to_Q x - shift_Q s))
  <= eps * Qabs (to_Q (unshift s x)).
Proof.
  unfold unshift, shift_Q. destruct s as [s|].
  - destruct (feq s zero) eqn:E; simpl negb; cbv iota.
    + intros _. apply exact_close. rewrite (to_Q_of_zero s E). ring.
    + apply sub_close.
  - intros _. apply exact_close. ring.
Qed.

Lemma close_scaled (x t k x' t' e : Q) :
  x' == x * k → t' == t * k →
  Qabs (x - t) <= e * Qabs x → Qabs (x' - t') <= e * Qabs x'.
Proof.
  intros -> -> H.
  assert (x * k - t * k == (x - t) * k) as -> by ring.
  rewrite !Qabs_Qmult.
  assert (e * (Qabs x * Qabs k) == e * Qabs x * Qabs k) as -> by ring.
  apply Qmult_le_compat_r; [exact H|apply Qabs_nonneg].
Qed.

Ltac abs_split V :=
  let H := fresh "H" in
  let E := fresh "E" in
  destruct (Qlt_le_dec V 0) as [H|H];
  [pose proof (Qabs_neg V (Qlt_le_weak _ _ H)) as E
  |pose proof (Qabs_pos V H) as E].

(** Six roundings in a row. *)
Lemma six_steps (VA VS V1 V2 VY VU V3 V4 : Q) :
  Qabs (V1 - VA) <= eps * Qabs V1 →
  Qabs (V2 - V1) <= eps * Qabs V2 →
  Qabs (VY - (V2 + VS)) <= eps * Qabs VY →
  Qabs (VU - (VY - VS)) <= eps * Qabs VU →
  Qabs (V3 - VU) <= eps * Qabs V3 →
  Qabs (V4 - V3) <= eps * Qabs V4 →
  Qabs (V4 - VA) <= (1 # 1048576) * (Qabs VA + Qabs VS).
Proof.
  intros H1 H2 H3 H4 H5 H6.
  apply Qabs_Qle_condition in H1, H2, H3, H4, H5, H6.
  pose proof (Qle_Qabs VA). pose proof (Qle_Qabs (- VA)) as HA'.
  rewrite Qabs_opp in HA'.
  pose proof (Qle_Qabs VS). pose proof (Qle_Qabs (- VS)) as HS'.
  rewrite Qabs_opp in HS'.
  unfold eps in *.
  apply Qabs_Qle_condition.
  abs_split V1; abs_split V2; abs_split VY; abs_split VU; abs_split V3;
    abs_split V4; split; lra.
Qed.
End Composition.

(** ** The round trip within tolerance (C3) *)

(** A finite number minus itself is [+0]. *)
Lemma sub_self (s : F32.t) :
  finite_nonzero s = true → SFsub 24 128 s s = S754_zero false.
Proof.
  destruct s as [| | |sx m e]; try discriminate. intros _.
  unfold SFsub. rewrite Z.min_id.
  assert (shl_align m e e = (m, e)) as ->
      by (unfold shl_align; destruct (e - e) eqn:E; [reflexivity..|lia]).
  simpl fst.
  assert (∀ z, Zminus z z = 0) as -> by (intros z; lia).
  reflexivity.
Qed.

(** A zero cell of a scaled feature goes through the six steps as a zero,
    or as the shift itself after line 170, and ends as a zero. *)
Lemma roundtrip_cell_zero (m : F32.t) s (mx a : F32.t) :
  is_zerob a = true → finite_nonzero m = true → finite_nonzero mx = true →
  match s with Some s' => finite s' | None => true end = true →
  is_zerob (unscale (Some m) mx (unshift s (shift s (scale (Some m) mx a))))
  = true.
Proof.
  intros Ha Hm Hmx Hs.
  destruct a as [sa| | |]; try discriminate.
  destruct m as [| | |sm mm em]; try discriminate.
  destruct mx as [| | |sx mmx ex]; try discriminate.
  destruct s as [[ss| | |ss ms es]|]; try discriminate; try reflexivity.
  unfold unscale, scale, shift, unshift.
  match goal with
  | |- context [@feq ?T ?I ?x ?z] =>
      assert (@feq T I x z = false) as -> by now destruct ss
  end.
  cbv [negb].
  match goal with
  | |- context [@fsub ?T ?I ?x ?y] =>
      assert (@fsub T I x y = S754_zero false) as ->
          by (apply (sub_self (S754_finite ss ms es)); reflexivity)
  end.
  reflexivity.
Qed.

Section Tolerance.
Import QArith Qabs Qpower Lqa.
Open Scope Q_scope.

(** The six roundings of a cell of a scaled feature, put together. *)
Lemma roundtrip_cell_close (m : F32.t) s (mx a : F32.t) :
  forallb normal (roundtrip_steps m s mx a) = true →
  Qabs ((to_Q (unscale (Some m) mx
                 (unshift s (shift s (scale (Some m) mx a)))) - to_Q a)
        * to_Q m)
  <= (1 # 1048576)
     * (Qabs (to_Q a * to_Q m) + Qabs (shift_Q s * to_Q mx)).
Proof.
  unfold roundtrip_steps, unscale, scale. simpl forallb.
  set (d1 := fdiv a mx). set (d2 := fmul d1 m). set (y := shift s d2).
  set (u := unshift s y). set (d3 := fdiv u m). set (d4 := fmul d3 mx).
  rewrite !andb_true_iff. intros (N1 & N2 & NY & NU & N3 & N4 & _).
  pose proof (div_close a mx N1) as H1. fold d1 in H1.
  pose proof (mul_close d1 m N2) as H2. fold d2 in H2.
  pose proof (shift_close s d2 NY) as HY. fold y in HY.
  pose proof (unshift_close s y NU) as HU. fold u in HU.
  pose proof (div_close u m N3) as H3. fold d3 in H3.
  pose proof (mul_close d3 mx N4) as H4. fold d4 in H4.
  set (A := to_Q a) in *. set (M := to_Q m) in *. set (MX := to_Q mx) in *.
  set (S := shift_Q s) in *. set (D1 := to_Q d1) in *.
  set (D2 := to_Q d2) in *. set (Y := to_Q y) in *. set (U := to_Q u) in *.
  set (D3 := to_Q d3) in *. set (D4 := to_Q d4) in *.
  assert ((D4 - A) * M == D4 * M - A * M) as -> by ring.
  apply (six_steps (A * M) (S * MX) (D1 * MX * M) (D2 * MX) (Y * MX)
           (U * MX) (D3 * M * MX) (D4 * M)).
  - apply (close_scaled (D1 * MX) A M); [ring|ring|exact H1].
  - apply (close_scaled D2 (D1 * M) MX); [ring|ring|exact H2].
  - apply (close_scaled Y (D2 + S) MX); [ring|ring|exact HY].
  - apply (close_scaled U (Y - S) MX); [ring|ring|exact HU].
  - apply (close_scaled (D3 * M) U MX); [ring|ring|exact H3].
  - apply (close_scaled D4 (D3 * MX) M); [ring|ring|exact H4].
Qed.
End Tolerance.

Section RoundTripTolerance.
Import QArith Qabs.

End RoundTripTolerance.

(** ** The theorems at sample inputs *)

Lemma returns_triple {R A B C} (d : A * B * C)
    (r : outcome (A * B * C) * heap R) :
  returns r = true →
  r = (Returned ((value d r).1.1, (value d r).1.2, (value d r).2), snd r).
Proof. destruct r as [[[[a b] c]|e] h]; [reflexivity|discriminate]. Qed.

Lemma some_default {A} (d : A) (o : option A) :
  match o with Some _ => true | None => false end = true →
  o = Some (default d o).
Proof. destruct o; [reflexivity|discriminate]. Qed.

Lemma randn_sample_shape n p f : has_shape n p f (Sample.randn n p f).
Proof.
  split; [apply length_replicate|].
  apply Forall_replicate. split; [apply length_replicate|].
  apply Forall_replicate. apply length_replicate.
Qed.


Lemma column_of_zeros (t : tensor F32.t) i :
  forallb is_zerob (flatten (column i t)) = true →
  ∀ n p x, cell t n p i = Some x → is_zero x.
Proof.
  intros Hall n p x Hx. rewrite forallb_forall in Hall.
  assert (In x (flatten (column i t))) as Hin.
  { unfold cell in Hx. unfold flatten, column. apply in_concat.
    destruct (cells t !! n) as [jet|] eqn:Hjet; [|discriminate].
    simpl in Hx. destruct (jet !! p) as [part|] eqn:Hpart; [|discriminate].
    simpl in Hx. exists (omap (λ y : list F32.t, y !! i) jet). split.
    - apply list_elem_of_In, list_elem_of_lookup. exists n.
      now rewrite lookup_map, Hjet.
    - apply list_elem_of_In, list_elem_of_omap. exists part.
      split; [|done]. apply list_elem_of_lookup. eauto. }
  specialize (Hall x Hin). destruct x as [[]| | |]; try discriminate.
  - now right.
  - now left.
Qed.

Section Witnesses.
Import Sample.

(** C9 fails on the code: the first feature of this file is 0 on every
    particle; after [normalize_features] it is NaN on every particle. *)
Lemma zero_column_counterexample :
  match normalize_features ∅ 1%positive default_norms default_shifts
          {[1%positive := flat_raw]} with
  | (Returned (d, maxes, _), h') =>
      column 0 flat_raw = [replicate 30 F32.zero] ∧
      maxes !! 0%nat = Some F32.zero ∧
      column 0 <$> h' !! d = Some [replicate 30 F32.nan]
  | (Raised _, _) => False
  end.
Proof. vm_compute. repeat split; reflexivity. Qed.


Lemma zero_column_witness :
  (value (1%positive, [], F32.zero) flat_run).1.2 !! 0%nat = Some F32.zero ∧
  ∃ t', snd flat_run !! 1%positive = Some t' ∧
    ∀ n p, (n < 1)%nat → (p < 30)%nat → cell t' n p 0 = Some F32.nan.
Proof.
  apply (zero_column_becomes_nan ∅ 1%positive default_norms default_shifts
           {[1%positive := flat_raw]} flat_raw 0 (f 1)
           (value (1%positive, [], F32.zero) flat_run).1.1 _
           (value (1%positive, [], F32.zero) flat_run).2).
  - vm_compute. reflexivity.
  - apply has_shapeb_correct. vm_compute. reflexivity.
  - simpl. lia.
  - reflexivity.
  - apply column_of_zeros. vm_compute. reflexivity.
  - apply returns_triple. vm_compute. reflexivity.
Defined.


Lemma real_slots_witness :
  value 1%positive noise_run = 1%positive ∧
  ∃ t', snd noise_run !! 1%positive = Some t' ∧
    ∀ n p j x v,
      cell signed_zero n p j = Some x → cell signed_zero n p 3 = Some v →
      fle zero v = true →
      ∃ x', cell t' n p j = Some x' ∧
            (x' = x ∨ (x = F32.neg_zero ∧ x' = F32.zero)).
Proof.
  apply (real_slots_keep_their_value randn self30 1%positive
           {[1%positive := signed_zero]} signed_zero).
  - apply randn_sample_shape.
  - vm_compute. reflexivity.
  - apply has_shapeb_correct. vm_compute. reflexivity.
  - apply returns_value. vm_compute. reflexivity.
Defined.




Lemma in_place_witness :
  (value (2%positive, [], F32.zero) normalize_run).1.1 = 1%positive ∧
  (∃ t', snd normalize_run = <[1%positive := t']> {[1%positive := raw]} ∧
     ∀ n p j x, cell raw n p j = Some x →
       ∃ norm s mx,
         default_norms !! j = Some norm ∧ default_shifts !! j = Some s ∧
         (value (2%positive, [], F32.zero) normalize_run).1.2 !! j = Some mx ∧
         max_abs_of (flatten (column j raw)) = Some mx ∧
         cell t' n p j = Some (shift s (scale norm mx x))) ∧
  ∃ w, value VNone unnormalize_run = VTuple (VColumn 1%positive 3) w ∧
       (false = false → w = VTensor 1%positive).
Proof.
  destruct (normalize_unnormalize_in_place fitted_sample default_norms
              default_shifts [f 1; f 2; f 5; f 1] true 1%positive
              {[1%positive := raw]} raw) as [Hnorm Hun].
  - vm_compute. reflexivity.
  - vm_compute. reflexivity.
  - vm_compute. reflexivity.
  - vm_compute. reflexivity.
  - vm_compute. reflexivity.
  - apply raw_well_shaped.
  - destruct (Hnorm default_norms default_shifts
                (value (2%positive, [], F32.zero) normalize_run).1.1
                (value (2%positive, [], F32.zero) normalize_run).1.2
                (value (2%positive, [], F32.zero) normalize_run).2
                (snd normalize_run)) as [Hd Ht].
    { apply returns_triple. vm_compute. reflexivity. }
    destruct (Hun false false true true (value VNone unnormalize_run)
                (snd unnormalize_run)) as [Hv _].
    { apply returns_value. vm_compute. reflexivity. }
    split; [exact Hd|]. split; [exact Ht|exact Hv].
Defined.


End Witnesses.

Section RoundTripWitness.
Import Sample.
Import QArith Qabs.

End RoundTripWitness.

(** * Further properties of the code *)

(** ** The constructor, step by step; the two splits; __getitem__ *)

Section ConstructorSteps.
Context {R : Type} {D : Dtype R}.
Variable randn : nat → nat → nat → list (list (list R)).

Lemma py_and_mask (a : args R) (self : object R) (h : heap R) :
  self !! "use_mask" = Some (ABool (use_mask a)) →
  py_and (use_num_particles_jet_feature a) (getattr self "use_mask") h
  = (Returned (ABool (use_num_particles_jet_feature a && use_mask a)), h).
Proof.
  intros Hm. unfold py_and, getattr. rewrite Hm.
  now destruct (use_num_particles_jet_feature a).
Qed.

Lemma init_steps raw (a : args R) (h : heap R) self h' :
  __init__ randn raw a h = (Returned self, h') ↔
  noise_padding a = false ∧
  ∃ t0 jf maxes cut t' tcut,
    load_dataset raw (num_particles a) (num_pad_particles a) (use_mask a) h
    = (Returned (fresh (dom h)), <[fresh (dom h) := t0]> h) ∧
    (if use_num_particles_jet_feature a && use_mask a
     then get_jet_features (configured a) (fresh (dom h))
            (use_num_particles_jet_feature a) (<[fresh (dom h) := t0]> h)
          = (Returned jf, <[fresh (dom h) := t0]> h)
     else jf = []) ∧
    normalize_features (configured a) (fresh (dom h)) (feature_norms a)
      (feature_shifts a) (<[fresh (dom h) := t0]> h)
    = (Returned (fresh (dom h), maxes, cut), h') ∧
    h' !! fresh (dom h) = Some t' ∧
    py_int (F64.mul (F64.of_nat (shape0 t')) (train_fraction a)) h'
    = (Returned tcut, h') ∧
    self = constructed a (fresh (dom h)) (shape0 t') maxes cut tcut jf.
Proof.
  unfold __init__, configured. split.
  - intros Hrun.
    rewrite (bind_run _ _ _ _ _ (py_and_mask a _ h ltac:(now lookup_attr)))
      in Hrun.
    apply bind_returned in Hrun as (v2 & h1 & Hv2 & Hrun).
    assert (noise_padding a = false ∧ v2 = ABool false ∧ h1 = h)
      as (Hnoise & -> & ->).
    { unfold py_and in Hv2. destruct (noise_padding a).
      - apply getattr_returned in Hv2 as [Hv2 _].
        revert Hv2. lookup_attr. discriminate.
      - unfold ret in Hv2. now injection Hv2 as <- <-. }
    split; [done|].
    destruct (load_dataset_run raw (num_particles a) (num_pad_particles a)
                (use_mask a) h) as (t0 & Hload & _).
    rewrite (bind_run _ _ _ _ _ Hload) in Hrun.
    set (l := fresh (dom h)) in *.
    apply bind_returned in Hrun as (b & h1 & Hb & Hrun).
    apply get_bool_returned in Hb as [Hb ->].
    revert Hb. lookup_attr. intros [= <-].
    apply bind_returned in Hrun as (jf & h1 & Hjf & Hrun).
    assert (h1 = <[l := t0]> h) as ->.
    { destruct (_ && _).
      - now apply get_jet_features_returned in Hjf as [-> _].
      - unfold ret in Hjf. now injection Hjf as <- <-. }
    apply bind_returned in Hrun as ([[d maxes] cut] & h1 & Hnorm & Hrun).
    pose proof Hnorm as Hnorm'.
    apply (normalize_features_returned _ _ _ _ _ _ _ _ _ _
             (lookup_insert_eq _ _ _)) in Hnorm'
      as (-> & _ & _ & t' & E & _).
    apply bind_returned in Hrun as (noise & h2 & Hn & Hrun).
    apply get_bool_returned in Hn as [Hn ->].
    revert Hn. lookup_attr. intros [= <-].
    unfold ret at 1 in Hrun.
    rewrite (bind_run _ _ _ l h1) in Hrun by reflexivity.
    assert (h1 !! l = Some t') as Hl' by (rewrite E; apply lookup_insert_eq).
    rewrite (bind_run _ _ _ _ _ (read_run _ _ _ Hl')) in Hrun.
    apply bind_returned in Hrun as (tcut & h2 & Htcut & Hrun).
    pose proof (py_int_returned _ _ _ _ Htcut) as ->.
    apply bind_returned in Hrun as (b & h2 & Hb & Hrun).
    apply get_bool_returned in Hb as [Hb ->].
    revert Hb. lookup_attr. intros [= <-].
    unfold ret in Hrun. injection Hrun as <- <-.
    exists t0, jf, maxes, cut, t', tcut.
    split; [done|]. split.
    { destruct (_ && _); [|unfold ret in Hjf; congruence]. exact Hjf. }
    split; [done|]. split; [done|]. split; [done|]. reflexivity.
  - intros (Hnoise & t0 & jf & maxes & cut & t' & tcut & Hload & Hjf & Hnorm
            & Hl' & Htcut & ->).
    rewrite (bind_run _ _ _ _ _ (py_and_mask a _ h ltac:(now lookup_attr))).
    rewrite Hnoise. unfold py_and at 1. unfold ret at 1.
    rewrite (bind_run _ _ _ (ABool false) h) by reflexivity.
    rewrite (bind_run _ _ _ _ _ Hload).
    erewrite bind_run; [|apply get_bool_run; lookup_attr; reflexivity].
    assert ((if use_num_particles_jet_feature a && use_mask a
             then get_jet_features (configured a) (fresh (dom h))
                    (use_num_particles_jet_feature a)
             else ret []) (<[fresh (dom h) := t0]> h)
            = (Returned jf, <[fresh (dom h) := t0]> h)) as Hjf'.
    { destruct (_ && _); [exact Hjf|]. now subst jf. }
    unfold configured in Hjf'.
    rewrite (bind_run _ _ _ _ _ Hjf').
    unfold configured in Hnorm.
    rewrite (bind_run _ _ _ _ _ Hnorm).
    erewrite bind_run; [|apply get_bool_run; lookup_attr; reflexivity].
    unfold ret at 1.
    rewrite (bind_run _ _ _ (fresh (dom h)) h') by reflexivity.
    rewrite (bind_run _ _ _ _ _ (read_run _ _ _ Hl')).
    rewrite (bind_run _ _ _ _ _ Htcut).
    erewrite bind_run; [|apply get_bool_run; lookup_attr; reflexivity].
    unfold constructed. reflexivity.
Qed.
End ConstructorSteps.

Section ConstructorLayout.
Context {R : Type} {D : Dtype R}.
Variable randn : nat → nat → nat → list (list (list R)).

Lemma slice_bound_le n k : (slice_bound n k ≤ n)%nat.
Proof.
  unfold slice_bound. destruct (k <? 0) eqn:E; [apply Z.ltb_lt in E|]; lia.
Qed.

Lemma length_column i (t : tensor R) : length (column i t) = length (cells t).
Proof. unfold column. apply length_map. Qed.

(** The tensor and the matrix behind a constructed dataset. *)
Lemma init_layout raw (a : args R) (h : heap R) self h' :
  well_shaped raw →
  __init__ randn raw a h = (Returned self, h') →
  ∃ t0 t' maxes cut tcut jf,
    load_dataset raw (num_particles a) (num_pad_particles a) (use_mask a) h
    = (Returned (fresh (dom h)), <[fresh (dom h) := t0]> h) ∧
    well_shaped t0 ∧
    normalize_features (configured a) (fresh (dom h)) (feature_norms a)
      (feature_shifts a) (<[fresh (dom h) := t0]> h)
    = (Returned (fresh (dom h), maxes, cut), h') ∧
    h' = <[fresh (dom h) := t']> h ∧
    well_shaped t' ∧ shape0 t' = shape0 t0 ∧
    (if use_num_particles_jet_feature a && use_mask a
     then (3 < shape2 t0)%nat ∧
          jf = map (λ row, [fdiv (fold_left fadd row zero)
                                 (of_Z (num_particles a))]) (column 3 t0)
     else jf = []) ∧
    self = constructed a (fresh (dom h)) (shape0 t') maxes cut tcut jf.
Proof.
  intros W Hrun.
  apply init_steps in Hrun
    as (_ & t0 & jf & maxes & cut & t' & tcut & Hload & Hjf & Hnorm & Hl'
        & _ & ->).
  destruct (load_dataset_run raw (num_particles a) (num_pad_particles a)
              (use_mask a) h) as (t0' & Hload' & _ & _ & _ & _ & W0).
  rewrite Hload in Hload'. injection Hload' as E0.
  apply (f_equal (λ m, m !! fresh (dom h))) in E0.
  rewrite !lookup_insert_eq in E0. injection E0 as <-.
  pose proof Hnorm as Hnorm'.
  apply (normalize_features_returned _ _ _ _ _ _ _ _ _ _
           (lookup_insert_eq _ _ _)) in Hnorm'
    as (_ & _ & _ & t1 & -> & N0 & _ & _ & NW & _).
  rewrite insert_insert_eq in *.
  rewrite lookup_insert_eq in Hl'. injection Hl' as ->.
  exists t0, t', maxes, cut, tcut, jf.
  split; [done|]. split; [auto|]. split; [done|]. split; [done|].
  split; [auto|]. split; [done|]. split; [|done].
  destruct (_ && _); [|done].
  apply get_jet_features_returned in Hjf as (_ & t & np & Ht & HF & Hnp & ->).
  rewrite lookup_insert_eq in Ht. injection Ht as <-.
  revert Hnp. unfold configured. lookup_attr. intros [= <-]. done.
Qed.
End ConstructorLayout.

Section Splits.
Context {R : Type} {D : Dtype R}.
Variable randn : nat → nat → nat → list (list (list R)).

Lemma constructed_data (a : args R) l n mx cut tcut jf :
  constructed a l n mx cut tcut jf !! "data"
  = Some (if train a then ASlice l 0 (slice_bound n tcut)
          else ASlice l (slice_bound n tcut) n).
Proof. unfold constructed. destruct (_ && _); now lookup_attr. Qed.

Lemma constructed_other (a : args R) b l n mx cut tcut jf name :
  name ≠ "data" → name ≠ "jet_features" →
  constructed (with_train b a) l n mx cut tcut jf !! name
  = constructed a l n mx cut tcut jf !! name.
Proof.
  intros Hd Hj. unfold constructed, with_train; simpl.
  destruct (_ && _); now rewrite ?(lookup_insert_ne _ "jet_features"),
    !(lookup_insert_ne _ "data") by done.
Qed.

Lemma split_records (c : list (list (list R))) n k :
  length c = n → (k ≤ n)%nat →
  take (k - 0) (drop 0 c) ++ take (n - k) (drop k c) = c.
Proof.
  intros Hn Hk. rewrite Nat.sub_0_r, drop_0.
  rewrite (take_ge (drop k c)) by (rewrite length_drop; lia).
  apply take_drop.
Qed.

(** X1. The training instance and the test instance of one file and one
    configuration: when the constructor returns for one value of [train]
    it returns for the other, on the same heap (the same normalized
    tensor); the records of the training split followed by the records of
    the test split are the jets of that tensor, each once and in order; and
    every attribute other than [data] and [jet_features] is the same in
    both instances. *)
Theorem splits_partition_the_dataset raw (a : args R) (h : heap R) b s1 h1 :
  well_shaped raw →
  __init__ randn raw (with_train b a) h = (Returned s1, h1) →
  ∃ s2 t r1 r2,
    __init__ randn raw (with_train (negb b) a) h = (Returned s2, h1) ∧
    h1 !! fresh (dom h) = Some t ∧
    s1 !! "data" ≫= records h1 = Some r1 ∧
    s2 !! "data" ≫= records h1 = Some r2 ∧
    (if b then r1 ++ r2 else r2 ++ r1) = cells t ∧
    ∀ name, name ≠ "data" → name ≠ "jet_features" → s1 !! name = s2 !! name.
Proof.
  intros W Hrun.
  pose proof (init_layout randn _ _ _ _ _ W Hrun)
    as (_ & t' & _ & _ & _ & _ & _ & _ & _ & Eh & [Hlen _] & _).
  apply init_steps in Hrun
    as (Hnoise & t0 & jf & maxes & cut & t & tcut & Hload & Hjf & Hnorm & Hl
        & Htcut & ->).
  assert (t = t') as ->
      by (rewrite Eh, lookup_insert_eq in Hl; now injection Hl).
  set (l := fresh (dom h)) in *. set (n := shape0 t') in *.
  exists (constructed (with_train (negb b) a) l n maxes cut tcut jf), t'.
  rewrite !constructed_data. simpl. rewrite Hl. simpl.
  pose proof (slice_bound_le n tcut) as Hk.
  assert (__init__ randn raw (with_train (negb b) a) h
          = (Returned (constructed (with_train (negb b) a) l n maxes cut
                         tcut jf), h1)) as Hother.
  { apply init_steps. split; [exact Hnoise|].
    exists t0, jf, maxes, cut, t', tcut. auto 10. }
  destruct b; simpl; rewrite Hl; simpl; eexists _, _;
    (split; [exact Hother|]); (split; [done|]);
    (split; [reflexivity|]); (split; [reflexivity|]);
    (split; [now apply split_records|]);
    intros name Hd Hj; rewrite !constructed_other by done;
    now rewrite <- (constructed_other a false) by done.
Qed.

(** X2. The jet features of a constructed dataset (mask and jet feature
    both in use): one row per record of the split, each of one element,
    computed from the mask column of the loaded tensor before it is
    normalized; without them no attribute [jet_features] is stored. *)
Theorem jet_features_follow_the_split raw (a : args R) (h : heap R) self h' :
  well_shaped raw →
  __init__ randn raw a h = (Returned self, h') →
  ∃ recs, self !! "data" ≫= records h' = Some recs ∧
    if use_num_particles_jet_feature a && use_mask a
    then ∃ m, self !! "jet_features" = Some (AMatrix m) ∧
           length m = length recs ∧
           Forall (λ row, length row = 1%nat) m
    else self !! "jet_features" = None.
Proof.
  intros W Hrun.
  apply (init_layout randn _ _ _ _ _ W) in Hrun
    as (t0 & t' & maxes & cut & tcut & jf & _ & [L0 _] & _ & -> & [L' _] & S0
        & Hjf & ->).
  rewrite constructed_data. unfold constructed.
  pose proof (slice_bound_le (shape0 t') tcut) as Hk.
  destruct (_ && _).
  - destruct Hjf as [_ ->].
    assert (∀ k, Forall (λ row : list R, length row = 1%nat)
                   (map (λ row, [fdiv (fold_left fadd row zero)
                                      (of_Z (num_particles a))]) k)) as Hone
        by (intros k; apply Forall_map, Forall_true; done).
    destruct (train a); simpl; rewrite lookup_insert_eq; simpl;
      eexists; (split; [reflexivity|]); eexists;
      (split; [now lookup_attr|]);
      (split; [|first [apply Forall_take|apply Forall_drop]; apply Hone]);
      rewrite ?length_take, ?length_drop, !length_map, length_column; lia.
  - destruct (train a); simpl; rewrite lookup_insert_eq; simpl;
      eexists; (split; [reflexivity|]); now lookup_attr.
Qed.
End Splits.

Section GetItem.
Context {R : Type} {D : Dtype R}.
Variable randn : nat → nat → nat → list (list (list R)).

Lemma getattr_run (self : object R) name v (h : heap R) :
  self !! name = Some v → getattr self name h = (Returned v, h).
Proof. intros Hv. unfold getattr. now rewrite Hv. Qed.

Lemma index_of_Some n idx i :
  index_of n idx = Some i →
  (i < n)%nat ∧
  ((0 <= idx ∧ i = Z.to_nat idx) ∨
   (idx < 0 ∧ i = Z.to_nat (Z.of_nat n + idx))).
Proof.
  unfold index_of.
  destruct ((0 <=? idx) && (idx <? Z.of_nat n)) eqn:E1.
  - apply andb_true_iff in E1 as [?%Z.leb_le ?%Z.ltb_lt].
    intros [= <-]. split; [lia|]. left. lia.
  - destruct ((- Z.of_nat n <=? idx) && (idx <? 0)) eqn:E2; [|discriminate].
    apply andb_true_iff in E2 as [?%Z.leb_le ?%Z.ltb_lt].
    intros [= <-]. split; [lia|]. right. lia.
Qed.

Lemma index_of_None n idx :
  index_of n idx = None ↔ idx < - Z.of_nat n ∨ Z.of_nat n <= idx.
Proof.
  unfold index_of.
  destruct ((0 <=? idx) && (idx <? Z.of_nat n)) eqn:E1.
  - apply andb_true_iff in E1 as [?%Z.leb_le ?%Z.ltb_lt].
    split; [discriminate|lia].
  - destruct ((- Z.of_nat n <=? idx) && (idx <? 0)) eqn:E2.
    + apply andb_true_iff in E2 as [?%Z.leb_le ?%Z.ltb_lt].
      split; [discriminate|lia].
    + split; [|done]. intros _.
      apply andb_false_iff in E1 as [?%Z.leb_gt| ?%Z.ltb_ge];
        apply andb_false_iff in E2 as [?%Z.leb_gt| ?%Z.ltb_ge]; lia.
Qed.

Lemma pick_run {A} (v : list A) idx (h : heap R) :
  pick v idx h
  = match index_of (length v) idx ≫= (v !!.) with
    | Some x => (Returned x, h)
    | None => (Raised IndexError, h)
    end.
Proof.
  unfold pick, list_item.
  destruct (index_of (length v) idx) as [i|]; simpl; [|done].
  now destruct (v !! i).
Qed.

Lemma subscript_slice l start stop idx (h : heap R) t :
  h !! l = Some t →
  subscript (ASlice l start stop) idx h
  = match index_of (length (take (stop - start) (drop start (cells t)))) idx
          ≫= (take (stop - start) (drop start (cells t)) !!.) with
    | Some jet => (Returned (IJet jet), h)
    | None => (Raised IndexError, h)
    end.
Proof.
  intros Hl. unfold subscript.
  rewrite (bind_run _ _ _ _ _ (read_run _ _ _ Hl)).
  unfold bind. rewrite pick_run. now destruct (_ ≫= _).
Qed.

Lemma subscript_matrix (m : list (list R)) idx (h : heap R) :
  subscript (AMatrix m) idx h
  = match index_of (length m) idx ≫= (m !!.) with
    | Some row => (Returned (IRow row), h)
    | None => (Raised IndexError, h)
    end.
Proof. unfold subscript, bind. rewrite pick_run. now destruct (_ ≫= _). Qed.

(** X3. [__getitem__] on a constructed dataset, for every int [idx]: an
    index outside [-len, len) of the split raises IndexError; an index
    inside returns a pair whose first component is the record at that
    position (counted from the end when [idx] is negative) and whose
    second component is the one-element jet-feature row at the same
    position when the jet feature is in use, and the same record again
    when it is not.  The heap is left as it was. *)
Theorem getitem_of_constructed raw (a : args R) (h : heap R) self h' idx :
  well_shaped raw →
  __init__ randn raw a h = (Returned self, h') →
  ∃ recs, self !! "data" ≫= records h' = Some recs ∧
    match index_of (length recs) idx with
    | Some i =>
        ∃ jet second,
          recs !! i = Some jet ∧
          __getitem__ self idx h' = (Returned (IJet jet, second), h') ∧
          if use_num_particles_jet_feature a && use_mask a
          then ∃ m row, self !! "jet_features" = Some (AMatrix m) ∧
                 m !! i = Some row ∧ length row = 1%nat ∧ second = IRow row
          else second = IJet jet
    | None => __getitem__ self idx h' = (Raised IndexError, h')
    end.
Proof.
  intros W Hrun.
  apply (init_layout randn _ _ _ _ _ W) in Hrun
    as (t0 & t' & maxes & cut & tcut & jf & _ & [L0 _] & _ & -> & [L' _] & S0
        & Hjf & ->).
  set (l := fresh (dom h)). set (n := shape0 t') in *.
  set (k := slice_bound n tcut).
  pose proof (slice_bound_le n tcut) as Hk. fold k in Hk.
  set (v := if train a then ASlice (R := R) l 0 k else ASlice l k n).
  set (self := constructed _ _ _ _ _ _ _).
  assert (self !! "data" = Some v) as Hdata by apply constructed_data.
  assert (self !! "use_jet_features"
          = Some (ABool (use_num_particles_jet_feature a && use_mask a)))
    as Hflag by (unfold self, constructed; destruct (_ && _); now lookup_attr).
  assert (∃ recs, records (<[l := t']> h) v = Some recs ∧
            (∀ j, subscript v j (<[l := t']> h)
                  = match index_of (length recs) j ≫= (recs !!.) with
                    | Some jet => (Returned (IJet jet), <[l := t']> h)
                    | None => (Raised IndexError, <[l := t']> h)
                    end) ∧
            length recs = (if train a then k else n - k)%nat)
    as (recs & Hrecs & Hsub & Hlen).
  { unfold v. destruct (train a); simpl; rewrite lookup_insert_eq; simpl;
      eexists; (split; [reflexivity|]);
      (split; [intros j; apply subscript_slice, lookup_insert_eq|]);
      rewrite length_take, length_drop; lia. }
  exists recs. rewrite Hdata. simpl. split; [exact Hrecs|].
  assert (__getitem__ self idx (<[l := t']> h)
          = match index_of (length recs) idx ≫= (recs !!.) with
            | Some jet =>
                (second <- (if use_num_particles_jet_feature a && use_mask a
                            then jet_features <- getattr self "jet_features" ;;
                                 subscript jet_features idx
                            else data <- getattr self "data" ;;
                                 subscript data idx) ;;
                 ret (IJet jet, second)) (<[l := t']> h)
            | None => (Raised IndexError, <[l := t']> h)
            end) as Hget.
  { unfold __getitem__.
    rewrite (bind_run _ _ _ _ _ (getattr_run _ _ _ _ Hdata)).
    unfold bind at 1. rewrite Hsub.
    destruct (_ ≫= _); [|done].
    now rewrite (bind_run _ _ _ _ _ (get_bool_run _ _ _ _ Hflag)). }
  rewrite Hget. clear Hget.
  destruct (index_of (length recs) idx) as [i|] eqn:Hi; simpl; [|done].
  destruct (index_of_Some _ _ _ Hi) as [Hlt _].
  destruct (lookup_lt_is_Some_2 recs i Hlt) as [jet Hjet]. rewrite Hjet.
  destruct (use_num_particles_jet_feature a && use_mask a) eqn:Euse.
  - destruct Hjf as [_ Ejf].
    set (m := if train a then take k jf else drop k jf).
    assert (self !! "jet_features" = Some (AMatrix m)) as Hm
        by (unfold self, constructed; rewrite Euse; now lookup_attr).
    assert (length m = length recs) as Hlm.
    { rewrite Hlen. unfold m. subst jf.
      destruct (train a);
        rewrite ?length_take, ?length_drop, length_map, length_column; lia. }
    destruct (lookup_lt_is_Some_2 m i) as [row Hrow]; [lia|].
    assert (length row = 1%nat) as Hone.
    { assert (Forall (λ row : list R, length row = 1%nat) m) as Hall.
      { unfold m. subst jf.
        destruct (train a); [apply Forall_take|apply Forall_drop];
          apply Forall_map, Forall_true; done. }
      exact (Forall_lookup_1 _ _ _ _ Hall Hrow). }
    exists jet, (IRow row). split; [done|]. split; [|eauto 10].
    unfold bind at 1.
    rewrite (bind_run _ _ _ _ _ (getattr_run _ _ _ _ Hm)).
    rewrite subscript_matrix, Hlm, Hi. simpl. now rewrite Hrow.
  - exists jet, (IJet jet). split; [done|]. split; [|done].
    unfold bind at 1.
    rewrite (bind_run _ _ _ _ _ (getattr_run _ _ _ _ Hdata)).
    rewrite Hsub, Hi. simpl. now rewrite Hjet.
Qed.
End GetItem.

(** ** What the constructor stores, and what it cannot load *)

Section ConstructorFacts.
Context {R : Type} {D : Dtype R}.
Variable randn : nat → nat → nat → list (list (list R)).

(** X4. Requesting noise padding makes the constructor fail: the store
    [self.noise_padding = noise_padding and self.use_masks] reads an
    attribute no statement sets, so AttributeError("use_masks") is raised
    for every file and every other argument, before the file is loaded
    (the heap is untouched). *)
Theorem noise_padding_request_raises raw (a : args R) (h : heap R) :
  noise_padding a = true →
  __init__ randn raw a h = (Raised (AttributeError "use_masks"), h).
Proof.
  intros Hnoise. unfold __init__.
  rewrite (bind_run _ _ _ _ _ (py_and_mask a _ h ltac:(now lookup_attr))).
  rewrite Hnoise. unfold py_and, getattr. lookup_attr. reflexivity.
Qed.

(** X5. What a returning constructor leaves behind: it allocates one new
    tensor and touches no other; [feature_maxes] holds, per feature, the
    max-abs of the loaded tensor (after truncation and padding, pad slots
    and mask column included); and every cell of the tensor behind [data]
    is the loaded cell scaled to the target and shifted. *)
Theorem constructed_data_is_normalized raw (a : args R) (h : heap R) self h' :
  well_shaped raw →
  __init__ randn raw a h = (Returned self, h') →
  ∃ t0 t' maxes,
    load_dataset raw (num_particles a) (num_pad_particles a) (use_mask a) h
    = (Returned (fresh (dom h)), <[fresh (dom h) := t0]> h) ∧
    h !! fresh (dom h) = None ∧
    h' = <[fresh (dom h) := t']> h ∧
    self !! "feature_maxes" = Some (AList maxes) ∧
    length maxes = shape2 t0 ∧
    ∀ j, (j < shape2 t0)%nat →
      ∃ norm s mx,
        feature_norms a !! j = Some norm ∧ feature_shifts a !! j = Some s ∧
        maxes !! j = Some mx ∧
        max_abs_of (flatten (column j t0)) = Some mx ∧
        ∀ n p, cell t' n p j
               = (λ x, shift s (scale norm mx x)) <$> cell t0 n p j.
Proof.
  intros W Hrun.
  apply (init_layout randn _ _ _ _ _ W) in Hrun
    as (t0 & t' & maxes & cut & tcut & jf & Hload & W0 & Hnorm & -> & _ & _
        & _ & ->).
  exists t0, t', maxes. split; [done|].
  split; [apply not_elem_of_dom, is_fresh|]. split; [done|].
  split; [unfold constructed; destruct (_ && _); now lookup_attr|].
  apply (normalize_features_returned _ _ _ _ _ _ _ _ _ _
           (lookup_insert_eq _ _ _)) in Hnorm
    as (_ & Hlen & Hmx & t1 & E & _ & _ & _ & _ & Hcells).
  rewrite insert_insert_eq in E.
  apply (f_equal (λ m, m !! fresh (dom h))) in E.
  rewrite !lookup_insert_eq in E. injection E as <-.
  split; [done|]. intros j Hj.
  destruct (Hcells j Hj) as (norm & s & mx & Hn & Hs & Hm & Hc).
  destruct (Hmx j Hj) as (mx' & Hm' & Hmax).
  rewrite Hm in Hm'. injection Hm' as <-.
  exists norm, s, mx. auto 10.
Qed.
End ConstructorFacts.

Section EmptyTensor.
Context {R : Type} {D : Dtype R}.
Variable randn : nat → nat → nat → list (list (list R)).

Lemma flatten_column_empty i (t : tensor R) :
  well_shaped t → shape0 t = 0%nat ∨ shape1 t = 0%nat →
  flatten (column i t) = [].
Proof.
  intros [Hn Hc] [H0|H1]; unfold flatten, column.
  - rewrite H0 in Hn. now apply nil_length_inv in Hn as ->.
  - clear Hn. induction Hc as [|jet c [Hp _] _ IH]; [done|].
    rewrite H1 in Hp. now apply nil_length_inv in Hp as ->.
Qed.

Lemma normalize_features_empty_run (self : object R) l norms shifts
      (h : heap R) t :
  h !! l = Some t → well_shaped t →
  shape0 t = 0%nat ∨ shape1 t = 0%nat → (0 < shape2 t)%nat →
  normalize_features self l norms shifts h = (Raised RuntimeError, h).
Proof.
  intros Hl W Hempty HF. unfold normalize_features.
  rewrite (bind_run _ _ _ _ _ (read_run _ _ _ Hl)).
  destruct (shape2 t) as [|f]; [lia|].
  change (seq 0 (S f)) with (0%nat :: seq 1 f). cbn [collect].
  apply bind_raised, bind_raised.
  rewrite (bind_run _ _ _ _ _ (read_run _ _ _ Hl)).
  unfold max_abs. now rewrite flatten_column_empty.
Qed.

Lemma get_jet_features_run (self : object R) l flag (h : heap R) t np :
  h !! l = Some t → (3 < shape2 t)%nat →
  self !! "num_particles" = Some (AInt np) →
  get_jet_features self l flag h
  = if fits_scalar np
    then (Returned (map (λ row, [fdiv (fold_left fadd row zero) (of_Z np)])
                        (column 3 t)), h)
    else (Raised OverflowError, h).
Proof.
  intros Hl HF Hnp. unfold get_jet_features.
  rewrite (bind_run _ _ _ _ _ (read_run _ _ _ Hl)).
  destruct (decide _); [|lia].
  rewrite (bind_run _ _ _ _ _ (get_int_run _ _ _ _ Hnp)).
  now destruct (fits_scalar np).
Qed.

(** X6. [normalize_features] on a tensor with no jet or no particle slot
    (and at least one feature) raises RuntimeError, from [torch.max] of an
    empty selection, and has changed nothing by then. *)
Theorem normalize_features_needs_a_particle (self : object R) l norms shifts
    (h : heap R) t :
  h !! l = Some t → well_shaped t →
  shape0 t = 0%nat ∨ shape1 t = 0%nat → (0 < shape2 t)%nat →
  normalize_features self l norms shifts h = (Raised RuntimeError, h).
Proof. apply normalize_features_empty_run. Qed.

Lemma fits_scalar_signed z : - 2 ^ 63 <= z < 2 ^ 63 → fits_scalar z = true.
Proof.
  intros [Hlo Hhi]. unfold fits_scalar. apply andb_true_intro.
  split; [now apply Z.leb_le|]. apply Z.ltb_lt.
  eapply Z.lt_trans; [exact Hhi|]. reflexivity.
Qed.

Lemma fits_scalar_beyond z :
  z < - 2 ^ 63 ∨ 2 ^ 64 <= z → fits_scalar z = false.
Proof.
  intros Hz. unfold fits_scalar. apply andb_false_iff.
  destruct Hz as [Hz|Hz]; [left; now apply Z.leb_gt|right; now apply Z.ltb_ge].
Qed.

Lemma empty_file_outcome raw (a : args R) (h : heap R) :
  well_shaped raw → shape0 raw = 0%nat → shape2 raw = 4%nat →
  noise_padding a = false →
  fst (__init__ randn raw a h)
  = Raised (if use_num_particles_jet_feature a && use_mask a
               && negb (fits_scalar (num_particles a))
            then OverflowError else RuntimeError).
Proof.
  intros W H0 H4 Hnoise. unfold __init__.
  rewrite (bind_run _ _ _ _ _ (py_and_mask a _ h ltac:(now lookup_attr))).
  rewrite Hnoise. unfold py_and at 1. unfold ret at 1.
  rewrite (bind_run _ _ _ (ABool false) h) by reflexivity.
  destruct (load_dataset_run raw (num_particles a) (num_pad_particles a)
              (use_mask a) h) as (t0 & Hload & _ & L0 & _ & L2 & W0).
  rewrite (bind_run _ _ _ _ _ Hload).
  erewrite bind_run; [|apply get_bool_run; lookup_attr; reflexivity].
  assert (normalize_features
            (<["noise_padding" := ABool false]>
             (<["use_jet_features" :=
                  ABool (use_num_particles_jet_feature a && use_mask a)]>
             (<["use_mask" := ABool (use_mask a)]>
             (<["feature_shifts" := AOptList (feature_shifts a)]>
             (<["feature_norms" := AOptList (feature_norms a)]>
             (<["num_particles" := AInt (num_particles a)]> ∅))))))
            (fresh (dom h)) (feature_norms a) (feature_shifts a)
            (<[fresh (dom h) := t0]> h)
          = (Raised RuntimeError, <[fresh (dom h) := t0]> h)) as Hnorm.
  { apply (normalize_features_empty_run _ _ _ _ _ t0);
      [apply lookup_insert_eq|auto|left; congruence|].
    rewrite L2, H4. destruct (use_mask a); simpl; lia. }
  destruct (use_num_particles_jet_feature a && use_mask a) eqn:Euse.
  - apply andb_true_iff in Euse as [_ Hum]. rewrite Hum in L2.
    pose proof (get_jet_features_run
                  (<["noise_padding" := ABool false]>
                   (<["use_jet_features" := ABool true]>
                   (<["use_mask" := ABool (use_mask a)]>
                   (<["feature_shifts" := AOptList (feature_shifts a)]>
                   (<["feature_norms" := AOptList (feature_norms a)]>
                   (<["num_particles" := AInt (num_particles a)]> ∅))))))
                  (fresh (dom h)) (use_num_particles_jet_feature a)
                  (<[fresh (dom h) := t0]> h) t0 (num_particles a)
                  (lookup_insert_eq _ _ _) ltac:(lia)
                  ltac:(now lookup_attr)) as Hjf.
    destruct (fits_scalar (num_particles a)); simpl.
    + rewrite (bind_run _ _ _ _ _ Hjf).
      now rewrite (bind_raised _ _ _ _ _ Hnorm).
    + now rewrite (bind_raised _ _ _ _ _ Hjf).
  - unfold ret at 1. erewrite bind_run by reflexivity.
    now rewrite (bind_raised _ _ _ _ _ Hnorm).
Qed.

End EmptyTensor.

(** ** normalize_features: what a call needs, and the pt cutoff *)

Section Cutoff.
Context {R : Type} {D : Dtype R}.
Implicit Types t : tensor R.

Lemma cell_of_column t i x :
  x ∈ flatten (column i t) → ∃ n p, cell t n p i = Some x.
Proof.
  unfold flatten, column, cell. intros Hx.
  apply list_elem_of_In, in_concat in Hx as (row & Hrow & Hx).
  apply list_elem_of_In, list_elem_of_lookup in Hrow as [n Hn].
  rewrite lookup_map in Hn.
  destruct (cells t !! n) as [jet|] eqn:Hjet; [|discriminate]. simpl in Hn.
  injection Hn as <-. exists n.
  apply list_elem_of_In, list_elem_of_omap in Hx as (part & Hp & Hx).
  apply list_elem_of_lookup in Hp as [p Hp]. exists p.
  rewrite Hjet. simpl. now rewrite Hp.
Qed.

Lemma elem_of_insert_sorted (x y : R) l :
  y ∈ insert_sorted x l → y = x ∨ y ∈ l.
Proof.
  induction l as [|z l IH]; simpl.
  - intros ->%list_elem_of_singleton. now left.
  - destruct (sort_le x z).
    + intros [->|Hy]%elem_of_cons; auto.
    + intros [->|Hy]%elem_of_cons; [right; left|].
      destruct (IH Hy) as [->|?]; [now left|right; now right].
Qed.

Lemma elem_of_sorted (y : R) v : y ∈ foldr insert_sorted [] v → y ∈ v.
Proof.
  induction v as [|x v IH]; simpl; [done|].
  intros [->|Hy]%elem_of_insert_sorted; [left|right; auto].
Qed.

Lemma elem_of_drop_repeats (y : R) l : ∀ prev,
  y ∈ drop_repeats prev l → y ∈ l.
Proof.
  induction l as [|z l IH]; intros prev; simpl; [done|].
  destruct (feq prev z).
  - intros Hy. right. eauto.
  - intros [->|Hy]%elem_of_cons; [left|right; eauto].
Qed.

Lemma elem_of_merge_equal (y : R) l : y ∈ merge_equal l → y ∈ l.
Proof.
  destruct l as [|x l]; [done|]. simpl.
  intros [->|Hy]%elem_of_cons; [left|right].
  eapply elem_of_drop_repeats, Hy.
Qed.

Lemma drop_repeats_head (b : R) r l : ∀ prev,
  drop_repeats prev l = b :: r →
  ∃ x, (x = prev ∨ x ∈ l) ∧ b ∈ l ∧ feq x b = false.
Proof.
  induction l as [|z l IH]; intros prev; simpl; [discriminate|].
  destruct (feq prev z) eqn:E.
  - intros H. destruct (IH _ H) as (x & Hx & Hb & Hne).
    exists x. split; [right; destruct Hx as [->|Hx]; [left|now right]|].
    split; [now right|done].
  - intros [= <- <-]. exists prev. split; [now left|]. split; [left|done].
Qed.

Lemma merge_equal_two (a b : R) r l :
  merge_equal l = a :: b :: r →
  ∃ x y, x ∈ l ∧ y ∈ l ∧ feq x y = false.
Proof.
  destruct l as [|x l]; [discriminate|]. simpl. intros [= <- H].
  destruct (drop_repeats_head _ _ _ _ H) as (x0 & Hx & Hb & Hne).
  exists x0, b. split; [destruct Hx as [->|Hx]; [left|now right]|].
  split; [now right|done].
Qed.

Lemma elem_of_unique (y : R) v : y ∈ unique v → y ∈ v.
Proof. intros Hy. now apply elem_of_sorted, elem_of_merge_equal. Qed.

(** The last steps of [normalize_features]. *)
Lemma normalize_features_cutoff (self : object R) l norms shifts (h : heap R)
      d maxes cut h' :
  normalize_features self l norms shifts h = (Returned (d, maxes, cut), h') →
  ∃ t', h' !! l = Some t' ∧ (2 < shape2 t')%nat ∧
        unique (flatten (column 2 t')) !! 1%nat = Some cut.
Proof.
  unfold normalize_features. intros Hrun.
  apply bind_returned in Hrun as (t & h1 & _ & Hrun).
  apply bind_returned in Hrun as (mxs & h2 & _ & Hrun).
  apply bind_returned in Hrun as ([] & h3 & _ & Hrun).
  apply bind_returned in Hrun as (t' & h4 & Hr & Hrun).
  apply read_returned in Hr as [Hl ->].
  apply bind_returned in Hrun as (c & h5 & Hcut & Hret).
  unfold ret in Hret. injection Hret as <- <- <- <-.
  destruct (decide _) as [HF|]; [|discriminate].
  apply list_item_returned in Hcut as [Hcut ->]. eauto.
Qed.

(** X8. What a returning [normalize_features] needed: at least three
    features (the pt column is read), one entry of [feature_norms] and of
    [feature_shifts] per feature, and at least one jet with at least one
    particle slot. *)
Theorem normalize_features_preconditions (self : object R) l norms shifts
    (h : heap R) t d maxes cut h' :
  h !! l = Some t → well_shaped t →
  normalize_features self l norms shifts h = (Returned (d, maxes, cut), h') →
  (3 ≤ shape2 t)%nat ∧
  (shape2 t ≤ length norms)%nat ∧ (shape2 t ≤ length shifts)%nat ∧
  (0 < shape0 t)%nat ∧ (0 < shape1 t)%nat.
Proof.
  intros Hl W Hrun.
  destruct (normalize_features_cutoff _ _ _ _ _ _ _ _ _ Hrun)
    as (t' & Hl' & HF & _).
  destruct (decide (shape0 t = 0%nat ∨ shape1 t = 0%nat)) as [Hempty|Hfull].
  { rewrite (normalize_features_empty_run _ _ _ _ _ _ Hl W Hempty) in Hrun;
      [discriminate|].
    apply (normalize_features_returned _ _ _ _ _ _ _ _ _ _ Hl) in Hrun
      as (_ & _ & _ & t1 & -> & _ & _ & S2 & _).
    rewrite lookup_insert_eq in Hl'. injection Hl' as <-. lia. }
  apply (normalize_features_returned _ _ _ _ _ _ _ _ _ _ Hl) in Hrun
    as (_ & _ & _ & t1 & -> & _ & _ & S2 & _ & Hcells).
  rewrite lookup_insert_eq in Hl'. injection Hl' as <-. rewrite S2 in HF.
  split; [lia|].
  destruct (Hcells (shape2 t - 1)%nat) as (norm & s & _ & Hn & Hs & _);
    [lia|].
  apply lookup_lt_Some in Hn, Hs. lia.
Qed.

(** X9. The [pt_cutoff] a returning [normalize_features] hands back is a
    value found in the normalized pt column, and that column holds two
    values that compare unequal: the second entry of [torch.unique] exists
    only then. *)
Theorem pt_cutoff_is_a_pt_value (self : object R) l norms shifts (h : heap R)
    d maxes cut h' :
  normalize_features self l norms shifts h = (Returned (d, maxes, cut), h') →
  ∃ t', h' !! l = Some t' ∧
    (∃ n p, cell t' n p 2 = Some cut) ∧
    ∃ n1 p1 n2 p2 x y,
      cell t' n1 p1 2 = Some x ∧ cell t' n2 p2 2 = Some y ∧ feq x y = false.
Proof.
  intros Hrun.
  destruct (normalize_features_cutoff _ _ _ _ _ _ _ _ _ Hrun)
    as (t' & Hl' & _ & Hcut).
  exists t'. split; [done|]. split.
  - apply cell_of_column, elem_of_unique.
    now apply list_elem_of_lookup_2 in Hcut.
  - unfold unique in Hcut.
    destruct (merge_equal _) as [|a [|b r]] eqn:E; try discriminate.
    apply merge_equal_two in E as (x & y & Hx & Hy & Hne).
    apply elem_of_sorted, cell_of_column in Hx as (n1 & p1 & Hx).
    apply elem_of_sorted, cell_of_column in Hy as (n2 & p2 & Hy).
    eauto 10.
Qed.
End Cutoff.

(** ** load_dataset, cell by cell *)

Section LoadedCells.
Context {R : Type} {D : Dtype R}.
Implicit Types t : tensor R.

Lemma cell_out_of_range t n p j :
  well_shaped t →
  ¬ ((n < shape0 t)%nat ∧ (p < shape1 t)%nat ∧ (j < shape2 t)%nat) →
  cell t n p j = None.
Proof.
  intros W Hout. destruct (cell t n p j) as [x|] eqn:Hx; [|done].
  now apply cell_Some_bounds in Hx.
Qed.

Lemma cell_narrow k t n p j :
  cell (narrow_particles k t) n p j
  = if decide (p < k)%nat then cell t n p j else None.
Proof.
  unfold cell, narrow_particles; simpl. rewrite lookup_map.
  destruct (cells t !! n) as [jet|]; simpl; [|now destruct (decide _)].
  rewrite lookup_take. now destruct (decide _).
Qed.

Lemma cell_pad z k t n p j :
  well_shaped t →
  cell (pad_particles z k t) n p j
  = if decide (p < shape1 t)%nat then cell t n p j
    else if decide (n < shape0 t ∧ p < shape1 t + k ∧ j < shape2 t)%nat
         then Some z else None.
Proof.
  intros [Hn Hc]. unfold cell, pad_particles; simpl. rewrite lookup_map.
  destruct (cells t !! n) as [jet|] eqn:Hjet; simpl.
  - pose proof (lookup_lt_Some _ _ _ Hjet) as Hlt.
    destruct (Forall_lookup_1 _ _ _ _ Hc Hjet) as [Hp _].
    destruct (decide (p < shape1 t)%nat) as [Hin|Hout].
    + now rewrite lookup_app_l by lia.
    + rewrite lookup_app_r by lia. rewrite Hp.
      destruct (decide (p - shape1 t < k)%nat) as [Hk|Hk].
      * rewrite lookup_replicate_2 by done. simpl.
        destruct (decide (j < shape2 t)%nat) as [Hj|Hj].
        -- rewrite lookup_replicate_2 by done.
           destruct (decide _) as [|Hno]; [done|]. lia.
        -- rewrite (proj1 (lookup_replicate_None _ _ _)) by lia.
           destruct (decide _) as [?|?]; [lia|done].
      * rewrite (proj1 (lookup_replicate_None _ _ _)) by lia. simpl.
        destruct (decide _) as [?|?]; [lia|done].
  - apply lookup_ge_None in Hjet.
    destruct (decide _); [done|]. destruct (decide _) as [?|?]; [lia|done].
Qed.

Lemma cell_drop_last t n p j :
  well_shaped t →
  cell (drop_last_feature t) n p j
  = if decide (j < Nat.pred (shape2 t))%nat then cell t n p j else None.
Proof.
  intros [Hn Hc]. unfold cell, drop_last_feature; simpl. rewrite lookup_map.
  destruct (cells t !! n) as [jet|] eqn:Hjet; simpl;
    [|now destruct (decide _)].
  destruct (Forall_lookup_1 _ _ _ _ Hc Hjet) as [_ Hj].
  rewrite lookup_map.
  destruct (jet !! p) as [x|] eqn:Hx; simpl; [|now destruct (decide _)].
  rewrite (Forall_lookup_1 _ _ _ _ Hj Hx : length x = shape2 t).
  apply lookup_take.
Qed.

End LoadedCells.

(** ** csv_to_pt, and from the csv file to the dataset; jet features *)

Section Reshape.
Context {A : Type}.

Lemma chunks_spec k : ∀ n (l : list A),
  length l = (n * k)%nat →
  concat (chunks k n l) = l ∧ length (chunks k n l) = n ∧
  Forall (λ c, length c = k) (chunks k n l).
Proof.
  induction n as [|n IH]; intros l Hl; simpl.
  - apply nil_length_inv in Hl as ->. auto.
  - destruct (IH (drop k l)) as (Hc & Hn & Hall);
      [rewrite length_drop; lia|].
    rewrite Hc, take_drop, Hn. split; [done|]. split; [done|].
    apply Forall_cons. split; [rewrite length_take; lia|done].
Qed.

Lemma concat_chunks_rows k n (cs : list (list A)) :
  Forall (λ c, length c = (n * k)%nat) cs →
  concat (concat (map (chunks k n) cs)) = concat cs.
Proof.
  induction 1 as [|c cs Hc _ IH]; [done|]. simpl.
  rewrite concat_app, IH. f_equal. now apply chunks_spec.
Qed.

Lemma csv_to_pt_returned (rows : list (list A)) t :
  csv_to_pt rows = Returned t →
  well_shaped t ∧ shape1 t = 30%nat ∧ shape2 t = 4%nat ∧
  (shape0 t * 120)%nat = length (concat rows) ∧
  concat (concat (cells t)) = concat rows.
Proof.
  unfold csv_to_pt. destruct (rectangular rows); [|discriminate].
  destruct (_ =? _)%nat eqn:E; [|discriminate].
  apply Nat.eqb_eq in E. intros [= <-].
  unfold well_shaped. cbn [shape0 shape1 shape2 cells].
  set (v := concat rows) in *. set (n := (length v / 120)%nat).
  assert (length v = (n * 120)%nat) as Hlen.
  { unfold n. rewrite (Nat.div_mod_eq (length v) 120) at 1.
    rewrite E, Nat.add_0_r. apply Nat.mul_comm. }
  destruct (chunks_spec 120 n v Hlen) as (Hc & Hn & Hall).
  split; [|split; [done|split; [done|split; [now symmetry|]]]].
  - split; [now rewrite length_map|].
    apply Forall_map. eapply Forall_impl; [exact Hall|].
    intros c Hc'. simpl in Hc'.
    destruct (chunks_spec 4 30 c) as (_ & H30 & H4); [lia|]. done.
  - rewrite (concat_chunks_rows 4 30); [done|].
    eapply Forall_impl; [exact Hall|]. intros c Hc'. simpl in *. lia.
Qed.

(** X11. [csv_to_pt]: the conversion raises ValueError exactly when the
    parsed lines differ in length or the number of values is no multiple
    of 120; otherwise the saved tensor has shape [N, 30, 4] with
    [N * 120] the number of values, and holds the values of the file in
    their order (row-major). *)
Theorem csv_to_pt_reshapes (rows : list (list A)) :
  match csv_to_pt rows with
  | Returned t =>
      rectangular rows = true ∧ (length (concat rows) mod 120 = 0)%nat ∧
      well_shaped t ∧ shape1 t = 30%nat ∧ shape2 t = 4%nat ∧
      (shape0 t * 120)%nat = length (concat rows) ∧
      concat (concat (cells t)) = concat rows
  | Raised e =>
      e = ValueError ∧
      (rectangular rows = false ∨ (length (concat rows) mod 120 ≠ 0)%nat)
  end.
Proof.
  destruct (csv_to_pt rows) as [t|e] eqn:E.
  - pose proof (csv_to_pt_returned _ _ E) as H.
    unfold csv_to_pt in E. destruct (rectangular rows); [|discriminate].
    destruct (_ =? _)%nat eqn:E'; [|discriminate].
    apply Nat.eqb_eq in E'. auto.
  - unfold csv_to_pt in E. destruct (rectangular rows); [|injection E; auto].
    destruct (_ =? _)%nat eqn:E'; [discriminate|].
    apply Nat.eqb_neq in E'. injection E; auto.
Qed.
End Reshape.

Section FromCsv.
Context {R : Type} {D : Dtype R}.
Variable randn : nat → nat → nat → list (list (list R)).

Lemma well_shaped_to_float {A} (conv : A → R) (t : tensor A) :
  well_shaped t → well_shaped (to_float conv t).
Proof.
  intros [HN Hc]. split; simpl; [now rewrite length_map|].
  apply Forall_map. eapply Forall_impl; [exact Hc|].
  intros jet [HP Hj]. simpl. split; [now rewrite length_map|].
  apply Forall_map. eapply Forall_impl; [exact Hj|].
  intros x Hx. simpl. now rewrite length_map.
Qed.

(** X12. From the csv file to the dataset: when [csv_to_pt] has saved a
    tensor and the constructor returns on it (converted to the dataset's
    precision) for a valid particle configuration, every record of the
    split has the target number of particles (30 for target 0), and every
    particle has 4 features, or 3 when no mask is used. *)
Theorem constructed_from_csv {A} (conv : A → R) (rows : list (list A)) t
    (a : args R) (h : heap R) self h' :
  csv_to_pt rows = Returned t → valid_counts a →
  __init__ randn (to_float conv t) a h = (Returned self, h') →
  ∃ recs, self !! "data" ≫= records h' = Some recs ∧
    Forall (λ jet, length jet = expected_particles a ∧
                   Forall (λ x, length x = if use_mask a then 4%nat
                                           else 3%nat) jet) recs.
Proof.
  intros Hcsv Hvalid Hrun.
  apply csv_to_pt_returned in Hcsv as (W & H30 & H4 & _).
  apply init_returned in Hrun
    as (_ & t' & mx & cut & tcut & jf & _ & -> & _ & S1 & S2 & W' & ->).
  specialize (W' (well_shaped_to_float conv t W)). simpl in S1, S2.
  rewrite H30, (adjusted_valid a Hvalid) in S1. rewrite H4 in S2.
  rewrite constructed_data. destruct W' as [_ W'].
  assert (Forall (λ jet : list (list R),
            length jet = expected_particles a ∧
            Forall (λ x, length x = if use_mask a then 4%nat else 3%nat) jet)
            (cells t')) as Hall.
  { eapply Forall_impl; [exact W'|]. intros jet [HP HF]. rewrite <- S1.
    split; [done|]. eapply Forall_impl; [exact HF|]. intros x Hx. simpl in *.
    rewrite Hx, S2. now destruct (use_mask a). }
  destruct (train a); simpl; rewrite lookup_insert_eq; simpl;
    eexists; (split; [reflexivity|]); now apply Forall_take, Forall_drop.
Qed.
End FromCsv.

Section JetFeatures.
Context {R : Type} {D : Dtype R}.

(** X13. [get_jet_features] changes nothing and its flag argument has no
    effect.  With fewer than four features it raises IndexError; with
    four or more and [self.num_particles] beyond 64 bits it raises
    OverflowError; with four or more and [self.num_particles] within the
    signed 64-bit range it returns one row per jet, each row holding one
    number. *)
Theorem get_jet_features_rows (self : object R) l flag (h : heap R) t np :
  h !! l = Some t → self !! "num_particles" = Some (AInt np) →
  get_jet_features self l flag h = get_jet_features self l (negb flag) h ∧
  snd (get_jet_features self l flag h) = h ∧
  ((shape2 t ≤ 3)%nat →
   fst (get_jet_features self l flag h) = Raised IndexError) ∧
  ((3 < shape2 t)%nat → np < - 2 ^ 63 ∨ 2 ^ 64 <= np →
   fst (get_jet_features self l flag h) = Raised OverflowError) ∧
  ((3 < shape2 t)%nat → - 2 ^ 63 <= np < 2 ^ 63 →
   ∃ jf, fst (get_jet_features self l flag h) = Returned jf ∧
     length jf = length (cells t) ∧
     Forall (λ row, length row = 1%nat) jf).
Proof.
  intros Hl Hnp. split; [reflexivity|].
  destruct (decide (3 < shape2 t)%nat) as [HF|HF].
  - rewrite (get_jet_features_run _ _ _ _ _ _ Hl HF Hnp).
    split; [now destruct (fits_scalar np)|]. split; [lia|]. split.
    + intros _ Hbig. now rewrite (fits_scalar_beyond _ Hbig).
    + intros _ Hfit. rewrite (fits_scalar_signed _ Hfit).
      eexists. split; [reflexivity|]. split.
      * now rewrite length_map, length_column.
      * apply Forall_map, Forall_true. done.
  - assert (get_jet_features self l flag h = (Raised IndexError, h)) as ->.
    { unfold get_jet_features.
      rewrite (bind_run _ _ _ _ _ (read_run _ _ _ Hl)).
      now destruct (decide (3 < shape2 t)%nat). }
    split; [done|]. split; [done|]. split; intros; lia.
Qed.
End JetFeatures.

(** ** add_noise_padding and unnormalize_features: errors and bounds *)

Section NoiseCells.
Context {R : Type} {D : Dtype R}.
Variable randn : nat → nat → nat → list (list (list R)).
Hypothesis randn_shape : ∀ n p f, has_shape n p f (randn n p f).

(** The addend of every cell, draw by draw. *)
Lemma add_noise_padding_draws (self : object R) l (h : heap R) t d h' :
  h !! l = Some t → well_shaped t →
  add_noise_padding randn self l h = (Returned d, h') →
  ∃ t' np, h' = <[l := t']> h ∧
    self !! "num_particles" = Some (AInt np) ∧
    shape0 t' = shape0 t ∧ shape1 t' = shape1 t ∧ shape2 t' = shape2 t ∧
    ∀ n p j x, cell t n p j = Some x →
      ∃ v r, cell t n p 3 = Some v ∧
        slot (randn (shape0 t) (Z.to_nat np) (shape2 t - 1)) n p = Some r ∧
        cell t' n p j
        = Some (fadd x (match r !! j with
                        | Some draw =>
                            if negb (feq (fadd v half) zero) then zero
                            else noise_of_draw j draw
                        | None => zero
                        end)).
Proof.
  intros Hl W Hrun. unfold add_noise_padding in Hrun.
  rewrite (bind_run _ _ _ _ _ (read_run _ _ _ Hl)) in Hrun.
  apply bind_returned in Hrun as (np & h1 & Hnp & Hrun).
  apply get_int_returned in Hnp as [Hnp ->].
  destruct (_ || _); [discriminate|].
  destruct (decide (2 < shape2 t - 1)%nat) as [HF|]; [|discriminate].
  destruct (decide (shape1 t = Z.to_nat np)) as [HP|]; [|discriminate].
  apply bind_returned in Hrun as ([] & h2 & Hw & Hrun).
  unfold write in Hw. injection Hw as <-.
  unfold ret in Hrun. injection Hrun as <- <-.
  eexists _, np. split; [reflexivity|]. split; [done|].
  do 3 (split; [done|]).
  intros n p j x Hx.
  destruct (cell_Some_bounds _ _ _ _ _ W Hx) as (Hn & Hp & Hj).
  destruct (cell_is_Some t n p 3 W) as [v Hv]; [lia..|].
  set (draws := randn (shape0 t) (Z.to_nat np) (shape2 t - 1)) in *.
  assert (has_shape (shape0 t) (shape1 t) (shape2 t - 1) draws) as Hdraws
      by (rewrite HP; apply randn_shape).
  destruct (slot_has_shape _ _ _ _ n p Hdraws Hn Hp) as (r & Hr & Hlen).
  exists v, r. split; [done|]. split; [done|].
  set (gm := λ y : R, negb (feq (fadd y half) zero)).
  assert (slot (map (map gm) (column 3 t)) n p = Some (gm v))
    as Hmask by (unfold slot; rewrite column_entry, Hv; [done..|lia]).
  rewrite cell_slot in Hx |- *. simpl.
  rewrite slot_zip_with, slot_map. unfold fill_where.
  rewrite slot_zip_with, Hmask, slot_map. unfold map_cells.
  rewrite !(slot_map (map _)), Hr. simpl.
  destruct (slot (cells t) n p) as [part|]; [|discriminate].
  simpl in Hx |- *. rewrite lookup_zip_with, Hx. simpl.
  set (y := alter _ 2%nat _).
  assert (length y = (shape2 t - 1)%nat) as Hy
      by (unfold y; now rewrite length_alter, !length_map).
  assert (∀ draw, r !! j = Some draw → y !! j = Some (noise_of_draw j draw))
    as Hyj.
  { intros draw Hd. unfold y, noise_of_draw.
    destruct (decide (j = 2%nat)) as [->|Hne].
    - rewrite list_lookup_alter_eq, !lookup_map, Hd. done.
    - rewrite list_lookup_alter_ne by done. now rewrite !lookup_map, Hd. }
  destruct (r !! j) as [draw|] eqn:Hd.
  - specialize (Hyj draw eq_refl). apply lookup_lt_Some in Hd.
    rewrite lookup_app_l
      by (destruct (gm v); rewrite ?length_map; lia).
    unfold gm in *. destruct (negb _); simpl.
    + rewrite lookup_map, Hyj. done.
    + rewrite Hyj. done.
  - apply lookup_ge_None in Hd.
    rewrite lookup_app_r
      by (destruct (gm v); rewrite ?length_map; lia).
    assert (j = (shape2 t - 1)%nat) as -> by lia.
    replace (length (if gm v then map (λ _ : R, zero) y else y))
      with (shape2 t - 1)%nat
      by (destruct (gm v); rewrite ?length_map; lia).
    now rewrite Nat.sub_diag.
Qed.
End NoiseCells.

Section NoiseErrors.
Context {R : Type} {D : Dtype R}.
Variable randn : nat → nat → nat → list (list (list R)).

(** X14. [add_noise_padding] returns only when [self.num_particles] is
    the particle count of the dataset (and not negative) and the dataset
    has at least four features; it then hands back the tensor it was
    given, with the shape it had.  Every other call raises RuntimeError or
    IndexError and leaves the dataset untouched: so does, on a dataset
    with particles, an instance configured with the default
    [num_particles = 0]. *)
Theorem add_noise_padding_preconditions (self : object R) l (h : heap R)
    t np :
  h !! l = Some t → self !! "num_particles" = Some (AInt np) →
  match add_noise_padding randn self l h with
  | (Returned d, h') =>
      d = l ∧ 0 <= np ∧ shape1 t = Z.to_nat np ∧ (4 ≤ shape2 t)%nat ∧
      ∃ t', h' = <[l := t']> h ∧ shape0 t' = shape0 t ∧
            shape1 t' = shape1 t ∧ shape2 t' = shape2 t
  | (Raised e, h') =>
      h' = h ∧ (e = RuntimeError ∨ e = IndexError) ∧
      ¬ (0 <= np ∧ shape1 t = Z.to_nat np ∧ (4 ≤ shape2 t)%nat)
  end.
Proof.
  intros Hl Hnp. unfold add_noise_padding.
  rewrite (bind_run _ _ _ _ _ (read_run _ _ _ Hl)).
  rewrite (bind_run _ _ _ _ _ (get_int_run _ _ _ _ Hnp)).
  destruct ((np <? 0) || (shape2 t =? 0)%nat) eqn:E.
  { unfold raise. split; [done|]. split; [now left|].
    apply orb_true_iff in E as [E%Z.ltb_lt|E%Nat.eqb_eq]; lia. }
  apply orb_false_iff in E as [E1%Z.ltb_ge E2%Nat.eqb_neq].
  destruct (decide (2 < shape2 t - 1)%nat) as [HF|HF];
    [|unfold raise; split; [done|]; split; [now right|lia]].
  destruct (decide (shape1 t = Z.to_nat np)) as [HP|HP];
    [|unfold raise; split; [done|]; split; [now right|lia]].
  unfold bind, write, ret.
  split; [done|]. split; [lia|]. split; [done|]. split; [lia|].
  eexists. split; [reflexivity|]. done.
Qed.
End NoiseErrors.

Section NoiseBounds.
Variable randn : nat → nat → nat → list (list (list F32.t)).
Hypothesis randn_shape : ∀ n p f, has_shape n p f (randn n p f).

Lemma noise_of_draw_clipped j (x : F32.t) :
  j ≠ 2%nat →
  flt (of_Z 1) (noise_of_draw j x) = false ∧
  flt (noise_of_draw j x) (of_Z (-1)) = false.
Proof.
  intros Hj. unfold noise_of_draw.
  destruct (decide (j = 2%nat)); [done|].
  set (y := fdiv x (of_Z 5)).
  destruct (flt (of_Z 1) y) eqn:E1.
  - split; reflexivity.
  - destruct (flt y (of_Z (-1))) eqn:E2; [split; reflexivity|].
    now rewrite E2.
Qed.

(** X15. The noise [add_noise_padding] adds (binary32): every cell of the
    dataset becomes its value plus an addend; the addend is [+0] on the
    last feature (the mask) of every slot; and on every feature other
    than the pt it is never above 1 and never below -1. *)
Theorem noise_is_clipped (self : object F32.t) l (h : heap F32.t) t d h' :
  h !! l = Some t → well_shaped t →
  add_noise_padding randn self l h = (Returned d, h') →
  ∃ t', h' = <[l := t']> h ∧
    ∀ n p j x, cell t n p j = Some x →
      ∃ e, cell t' n p j = Some (fadd x e) ∧
        (j = (shape2 t - 1)%nat → e = F32.zero) ∧
        (j ≠ 2%nat → flt (of_Z 1) e = false ∧ flt e (of_Z (-1)) = false).
Proof.
  intros Hl W Hrun.
  destruct (add_noise_padding_draws randn randn_shape _ _ _ _ _ _ Hl W Hrun)
    as (t' & np & -> & Hnp & _ & _ & _ & Hcells).
  exists t'. split; [done|]. intros n p j x Hx.
  destruct (Hcells n p j x Hx) as (v & r & Hv & Hr & Hc).
  eexists. split; [exact Hc|].
  assert (has_shape (shape0 t) (Z.to_nat np) (shape2 t - 1)
            (randn (shape0 t) (Z.to_nat np) (shape2 t - 1))) as Hshape
      by apply randn_shape.
  split.
  - intros ->.
    assert (length r = (shape2 t - 1)%nat) as Hlen.
    { destruct Hshape as [_ Hall]. unfold slot in Hr.
      destruct (randn _ _ _ !! n) as [jet|] eqn:Hjet; [|discriminate].
      destruct (Forall_lookup_1 _ _ _ _ Hall Hjet) as [_ Hj].
      exact (Forall_lookup_1 _ _ _ _ Hj Hr). }
    rewrite (lookup_ge_None_2 r) by lia. done.
  - intros Hj. destruct (r !! j) as [draw|]; [|split; reflexivity].
    destruct (negb _); [split; reflexivity|].
    now apply noise_of_draw_clipped.
Qed.
End NoiseBounds.

Section UnnormalizeF32.
Variable self : object F32.t.
Variables norms shifts : list (option F32.t).
Variable maxes : list F32.t.
Variable um : bool.
Hypothesis self_norms : self !! "feature_norms" = Some (AOptList norms).
Hypothesis self_shifts : self !! "feature_shifts" = Some (AOptList shifts).
Hypothesis self_maxes : self !! "feature_maxes" = Some (AList maxes).
Hypothesis self_use_mask : self !! "use_mask" = Some (ABool um).

Lemma above_half_is_not_negative (y : F32.t) :
  SFleb F32.half y = true → SFltb y (S754_zero false) = false.
Proof. destruct y as [[]|[]| |[] m e]; try reflexivity; discriminate. Qed.

(** X16. Generated data (binary32, [is_real_data = False]) with
    [zero_neg_pt] set: after a returning [unnormalize_features] no pt
    cell of the dataset is below zero. *)
Theorem no_negative_pt_remains l sep zmp (h : heap F32.t) t v h' :
  h !! l = Some t → well_shaped t →
  unnormalize_features self l sep false zmp true h = (Returned v, h') →
  ∃ t', h' = <[l := t']> h ∧
    ∀ n p y, cell t' n p 2 = Some y → flt y zero = false.
Proof.
  intros Hl W Hrun.
  destruct (unnormalize_features_returned self norms shifts maxes um
              self_norms self_shifts self_maxes self_use_mask
              _ _ _ _ _ _ _ _ _ Hl W Hrun)
    as (_ & t1 & t' & _ & _ & _ & -> & _ & _ & _ & Hcells).
  exists t'. split; [done|]. intros n p y. rewrite Hcells.
  destruct (cell t1 n p (shape2 t - 1)) as [yl|]; [|discriminate].
  destruct (cell t1 n p 2) as [y0|]; [|discriminate].
  simpl. intros [= <-]. unfold postprocess. simpl.
  match goal with
  | |- SFltb (if SFltb ?y1 _ then _ else _) _ = false =>
      destruct (SFltb y1 (S754_zero false)) eqn:E; [reflexivity|exact E]
  end.
Qed.

(** X17. Generated data (binary32) on a dataset with a mask, with
    [zero_mask_particles] set: after a returning [unnormalize_features]
    every particle slot either has its mask at 0.5 or above, or is [+0] in
    every feature, the mask included. *)
Theorem masked_particles_are_zeroed l sep znp (h : heap F32.t) t v h' :
  um = true →
  h !! l = Some t → well_shaped t →
  unnormalize_features self l sep false true znp h = (Returned v, h') →
  ∃ t', h' = <[l := t']> h ∧
    ∀ n p m, cell t' n p (shape2 t - 1) = Some m →
      fle half m = true ∨ ∀ j y, cell t' n p j = Some y → y = F32.zero.
Proof.
  intros Hum Hl W Hrun.
  destruct (unnormalize_features_returned self norms shifts maxes um
              self_norms self_shifts self_maxes self_use_mask
              _ _ _ _ _ _ _ _ _ Hl W Hrun)
    as (_ & t1 & t' & _ & _ & _ & -> & _ & _ & _ & Hcells).
  exists t'. split; [done|]. intros n p m. rewrite Hcells.
  destruct (cell t1 n p (shape2 t - 1)) as [yl|] eqn:Hyl; [|discriminate].
  simpl. intros [= <-]. subst um. unfold postprocess. simpl.
  destruct (SFleb F32.half yl) eqn:Emask; simpl.
  - left. rewrite (above_half_is_not_negative _ Emask).
    rewrite andb_false_r. exact Emask.
  - right. intros j y. rewrite Hcells, Hyl.
    destruct (cell t1 n p j) as [y0|]; [|discriminate].
    simpl. intros [= <-]. unfold postprocess. simpl. rewrite Emask. simpl.
    now rewrite andb_false_r.
Qed.
End UnnormalizeF32.

(** ** The returned pair *)

Section ReturnedPair.
Context {R : Type} {D : Dtype R}.

(** X19. For every instance holding the fitted parameters and every
    well-shaped dataset, a returning [unnormalize_features] hands back a
    pair, never the dataset alone: its first component is the view of the
    last feature column; its second is the dataset itself in combined
    mode, and in separate mode the boolean mask, or None when no mask is
    used. *)
Theorem unnormalize_always_returns_a_pair (self : object R) norms shifts
    maxes um l sep real zmp znp (h : heap R) t v h' :
  self !! "feature_norms" = Some (AOptList norms) →
  self !! "feature_shifts" = Some (AOptList shifts) →
  self !! "feature_maxes" = Some (AList maxes) →
  self !! "use_mask" = Some (ABool um) →
  h !! l = Some t → well_shaped t →
  unnormalize_features self l sep real zmp znp h = (Returned v, h') →
  ∃ w, v = VTuple (VColumn l (shape2 t - 1)) w ∧
    (sep = false → w = VTensor l) ∧
    (sep = true → um = false → w = VNone) ∧
    (sep = true → um = true → ∃ m, w = VMask m).
Proof.
  intros Hn Hs Hm Hu Hl W Hrun.
  destruct (unnormalize_features_returned self norms shifts maxes um
              Hn Hs Hm Hu _ _ _ _ _ _ _ _ _ Hl W Hrun)
    as (_ & t1 & t' & S2 & _ & -> & _).
  unfold unnormalize_result. rewrite S2. eexists. split; [reflexivity|].
  split; [now intros ->|]. split; [now intros -> ->|].
  intros -> ->. eauto.
Qed.
End ReturnedPair.

(** ** The further properties on the sample file *)

Section FurtherWitnesses.
Import Sample.

Lemma default_run_returns :
  default_run = (Returned (returned_object default_run), snd default_run).
Proof. apply returns_value. vm_compute. reflexivity. Qed.

Lemma normalize_run_returns :
  normalize_run
  = (Returned ((value (2%positive, [], F32.zero) normalize_run).1.1,
               (value (2%positive, [], F32.zero) normalize_run).1.2,
               (value (2%positive, [], F32.zero) normalize_run).2),
     snd normalize_run).
Proof. apply returns_triple. vm_compute. reflexivity. Qed.

Lemma unnormalize_run_returns :
  unnormalize_run = (Returned (value VNone unnormalize_run), snd unnormalize_run).
Proof. apply returns_value. vm_compute. reflexivity. Qed.

Lemma generated_well_shaped : well_shaped generated.
Proof. apply has_shapeb_correct. reflexivity. Qed.

Lemma generated_run_returns zmp znp :
  generated_run zmp znp
  = (Returned (value VNone (generated_run zmp znp)),
     snd (generated_run zmp znp)).
Proof. apply returns_value. destruct zmp, znp; vm_compute; reflexivity. Qed.

Lemma wide_randn_shape n p k : has_shape n p k (wide_randn n p k).
Proof.
  split; [apply length_replicate|].
  apply Forall_replicate. split; [now rewrite length_map, length_seq|].
  apply Forall_map, Forall_true. intros i. apply length_replicate.
Qed.

Lemma splits_witness :
  ∃ s2 t r1 r2,
    __init__ randn raw (with_train (negb true) defaults) ∅
    = (Returned s2, snd default_run) ∧
    snd default_run !! fresh (dom (∅ : heap F32.t)) = Some t ∧
    returned_object default_run !! "data" ≫= records (snd default_run)
    = Some r1 ∧
    s2 !! "data" ≫= records (snd default_run) = Some r2 ∧
    (if true then r1 ++ r2 else r2 ++ r1) = cells t ∧
    ∀ name, name ≠ "data" → name ≠ "jet_features" →
      returned_object default_run !! name = s2 !! name.
Proof.
  exact (splits_partition_the_dataset randn raw defaults ∅ true
           (returned_object default_run) (snd default_run)
           raw_well_shaped default_run_returns).
Defined.

Lemma jet_features_witness :
  ∃ recs,
    returned_object default_run !! "data" ≫= records (snd default_run)
    = Some recs ∧
    ∃ m, returned_object default_run !! "jet_features" = Some (AMatrix m) ∧
      length m = length recs ∧ Forall (λ row, length row = 1%nat) m.
Proof.
  exact (jet_features_follow_the_split randn raw (with_train true defaults) ∅
           (returned_object default_run) (snd default_run)
           raw_well_shaped default_run_returns).
Defined.

Lemma getitem_witness :
  ∃ recs,
    returned_object default_run !! "data" ≫= records (snd default_run)
    = Some recs ∧
    match index_of (length recs) (-1) with
    | Some i =>
        ∃ jet second,
          recs !! i = Some jet ∧
          __getitem__ (returned_object default_run) (-1) (snd default_run)
          = (Returned (IJet jet, second), snd default_run) ∧
          ∃ m row,
            returned_object default_run !! "jet_features" = Some (AMatrix m) ∧
            m !! i = Some row ∧ length row = 1%nat ∧ second = IRow row
    | None =>
        __getitem__ (returned_object default_run) (-1) (snd default_run)
        = (Raised IndexError, snd default_run)
    end.
Proof.
  exact (getitem_of_constructed randn raw (with_train true defaults) ∅
           (returned_object default_run) (snd default_run) (-1)
           raw_well_shaped default_run_returns).
Defined.

Lemma noise_padding_request_witness :
  __init__ randn raw noisy ∅ = (Raised (AttributeError "use_masks"), ∅).
Proof. exact (noise_padding_request_raises randn raw noisy ∅ eq_refl). Defined.

Lemma constructed_data_witness :
  ∃ t0 t' maxes,
    load_dataset raw 0 0 true (∅ : heap F32.t)
    = (Returned (fresh (dom (∅ : heap F32.t))),
       <[fresh (dom (∅ : heap F32.t)) := t0]> ∅) ∧
    (∅ : heap F32.t) !! fresh (dom (∅ : heap F32.t)) = None ∧
    snd default_run = <[fresh (dom (∅ : heap F32.t)) := t']> ∅ ∧
    returned_object default_run !! "feature_maxes" = Some (AList maxes) ∧
    length maxes = shape2 t0 ∧
    ∀ j, (j < shape2 t0)%nat →
      ∃ norm s mx,
        default_norms !! j = Some norm ∧ default_shifts !! j = Some s ∧
        maxes !! j = Some mx ∧
        max_abs_of (flatten (column j t0)) = Some mx ∧
        ∀ n p, cell t' n p j
               = (λ x, shift s (scale norm mx x)) <$> cell t0 n p j.
Proof.
  exact (constructed_data_is_normalized randn raw (with_train true defaults) ∅
           (returned_object default_run) (snd default_run)
           raw_well_shaped default_run_returns).
Defined.

Lemma empty_raw_well_shaped : well_shaped empty_raw.
Proof. apply has_shapeb_correct. reflexivity. Qed.

Lemma needs_a_particle_witness :
  normalize_features ∅ 1%positive default_norms default_shifts
    {[1%positive := empty_raw]}
  = (Raised RuntimeError, {[1%positive := empty_raw]}).
Proof.
  apply (normalize_features_needs_a_particle ∅ 1%positive default_norms
           default_shifts {[1%positive := empty_raw]} empty_raw).
  - vm_compute. reflexivity.
  - apply empty_raw_well_shaped.
  - left. reflexivity.
  - simpl. lia.
Defined.


Lemma preconditions_witness :
  (3 ≤ shape2 raw)%nat ∧
  (shape2 raw ≤ length default_norms)%nat ∧
  (shape2 raw ≤ length default_shifts)%nat ∧
  (0 < shape0 raw)%nat ∧ (0 < shape1 raw)%nat.
Proof.
  apply (normalize_features_preconditions fitted_sample 1%positive
           default_norms default_shifts {[1%positive := raw]} raw _ _ _ _
           (lookup_singleton_eq _ _) raw_well_shaped normalize_run_returns).
Defined.

Lemma pt_cutoff_witness :
  ∃ t', snd normalize_run !! 1%positive = Some t' ∧
    (∃ n p, cell t' n p 2
            = Some (value (2%positive, [], F32.zero) normalize_run).2) ∧
    ∃ n1 p1 n2 p2 x y,
      cell t' n1 p1 2 = Some x ∧ cell t' n2 p2 2 = Some y ∧ feq x y = false.
Proof.
  exact (pt_cutoff_is_a_pt_value fitted_sample 1%positive default_norms
           default_shifts {[1%positive := raw]} _ _ _ _
           normalize_run_returns).
Defined.


Lemma constructed_from_csv_witness :
  ∃ recs,
    returned_object default_run !! "data" ≫= records (snd default_run)
    = Some recs ∧
    Forall (λ jet, length jet = expected_particles (with_train true defaults) ∧
                   Forall (λ x, length x = if use_mask (with_train true defaults)
                                           then 4%nat else 3%nat) jet) recs.
Proof.
  apply (constructed_from_csv randn (λ x, x) csv_rows raw
           (with_train true defaults) ∅).
  - vm_compute. reflexivity.
  - right. split; reflexivity.
  - change (to_float (λ x : F32.t, x) raw) with raw.
    exact default_run_returns.
Defined.

Lemma get_jet_features_witness :
  ∃ jf, fst (get_jet_features self10 1%positive true {[1%positive := raw10]})
        = Returned jf ∧
    length jf = length (cells raw10) ∧
    Forall (λ row, length row = 1%nat) jf.
Proof.
  apply (proj2 (proj2 (proj2 (proj2
           (get_jet_features_rows self10 1%positive true
              {[1%positive := raw10]} raw10 10
              (lookup_singleton_eq _ _) (lookup_singleton_eq _ _)))))).
  - simpl. lia.
  - lia.
Defined.

Lemma add_noise_padding_preconditions_witness :
  match add_noise_padding randn self30 1%positive
          {[1%positive := signed_zero]} with
  | (Returned d, h') =>
      d = 1%positive ∧ 0 <= 30 ∧ shape1 signed_zero = Z.to_nat 30 ∧
      (4 ≤ shape2 signed_zero)%nat ∧
      ∃ t', h' = <[1%positive := t']> {[1%positive := signed_zero]} ∧
            shape0 t' = shape0 signed_zero ∧
            shape1 t' = shape1 signed_zero ∧ shape2 t' = shape2 signed_zero
  | (Raised e, h') =>
      h' = {[1%positive := signed_zero]} ∧
      (e = RuntimeError ∨ e = IndexError) ∧
      ¬ (0 <= 30 ∧ shape1 signed_zero = Z.to_nat 30 ∧
         (4 ≤ shape2 signed_zero)%nat)
  end.
Proof.
  apply (add_noise_padding_preconditions randn self30 1%positive
           {[1%positive := signed_zero]} signed_zero 30).
  - apply lookup_singleton_eq.
  - apply lookup_singleton_eq.
Defined.

Lemma noise_is_clipped_witness :
  flt (of_Z 1) (fdiv (f 7) (of_Z 5)) = true ∧
  flt (fdiv (f (-7)) (of_Z 5)) (of_Z (-1)) = true ∧
  (∃ t', snd wide_noise_run !! 1%positive = Some t' ∧
     cell signed_zero 0 1 0 = Some F32.zero ∧
     cell t' 0 1 0 = Some (f (-1)) ∧
     cell signed_zero 0 2 0 = Some F32.zero ∧
     cell t' 0 2 0 = Some (f 1)) ∧
  ∃ t', snd wide_noise_run
        = <[1%positive := t']> {[1%positive := signed_zero]} ∧
    ∀ n p j x, cell signed_zero n p j = Some x →
      ∃ e, cell t' n p j = Some (fadd x e) ∧
        (j = (shape2 signed_zero - 1)%nat → e = F32.zero) ∧
        (j ≠ 2%nat → flt (of_Z 1) e = false ∧ flt e (of_Z (-1)) = false).
Proof.
  split; [vm_compute; reflexivity|].
  split; [vm_compute; reflexivity|].
  split.
  { eexists. split; [vm_compute; reflexivity|].
    repeat split; vm_compute; reflexivity. }
  apply (noise_is_clipped wide_randn wide_randn_shape self30 1%positive
           {[1%positive := signed_zero]} signed_zero
           (value 1%positive wide_noise_run)).
  - apply lookup_singleton_eq.
  - apply has_shapeb_correct. vm_compute. reflexivity.
  - apply returns_value. vm_compute. reflexivity.
Defined.

Lemma no_negative_pt_witness :
  (∃ t0 y, snd (generated_run false false) !! 1%positive = Some t0 ∧
     cell t0 0 0 2 = Some y ∧ flt y zero = true) ∧
  (∃ t1, snd (generated_run false true) !! 1%positive = Some t1 ∧
     cell t1 0 0 2 = Some F32.zero) ∧
  ∃ t', snd (generated_run false true)
        = <[1%positive := t']> {[1%positive := generated]} ∧
    ∀ n p y, cell t' n p 2 = Some y → flt y zero = false.
Proof.
  split.
  { do 2 eexists. split; [vm_compute; reflexivity|].
    split; vm_compute; reflexivity. }
  split.
  { eexists. split; vm_compute; reflexivity. }
  refine (no_negative_pt_remains fitted_sample default_norms default_shifts
            [f 1; f 2; f 5; f 1] true _ _ _ _ 1%positive true false
            {[1%positive := generated]} generated
            (value VNone (generated_run false true))
            (snd (generated_run false true)) _ _ _).
  - vm_compute. reflexivity.
  - vm_compute. reflexivity.
  - vm_compute. reflexivity.
  - vm_compute. reflexivity.
  - apply lookup_singleton_eq.
  - apply generated_well_shaped.
  - exact (generated_run_returns false true).
Defined.

Lemma masked_particles_witness :
  (∃ t0, snd (generated_run false false) !! 1%positive = Some t0 ∧
     cell t0 0 1 0 = Some (f 1) ∧ cell t0 0 1 1 = Some (f 2) ∧
     cell t0 0 1 2 = Some (f 5) ∧
     ∃ m, cell t0 0 1 3 = Some m ∧ fle half m = false) ∧
  (∃ t1, snd (generated_run true false) !! 1%positive = Some t1 ∧
     cell t1 0 1 0 = Some F32.zero ∧ cell t1 0 1 1 = Some F32.zero ∧
     cell t1 0 1 2 = Some F32.zero ∧ cell t1 0 1 3 = Some F32.zero) ∧
  ∃ t', snd (generated_run true false)
        = <[1%positive := t']> {[1%positive := generated]} ∧
    ∀ n p m, cell t' n p (shape2 generated - 1) = Some m →
      fle half m = true ∨ ∀ j y, cell t' n p j = Some y → y = F32.zero.
Proof.
  split.
  { eexists. split; [vm_compute; reflexivity|].
    do 3 (split; [vm_compute; reflexivity|]).
    eexists. split; vm_compute; reflexivity. }
  split.
  { eexists. split; [vm_compute; reflexivity|].
    repeat split; vm_compute; reflexivity. }
  refine (masked_particles_are_zeroed fitted_sample default_norms
            default_shifts [f 1; f 2; f 5; f 1] true _ _ _ _ 1%positive true
            false {[1%positive := generated]} generated
            (value VNone (generated_run true false))
            (snd (generated_run true false)) _ _ _ _).
  - vm_compute. reflexivity.
  - vm_compute. reflexivity.
  - vm_compute. reflexivity.
  - vm_compute. reflexivity.
  - reflexivity.
  - apply lookup_singleton_eq.
  - apply generated_well_shaped.
  - exact (generated_run_returns true false).
Defined.

Lemma returned_pair_witness :
  ∃ w, value VNone unnormalize_run
       = VTuple (VColumn 1%positive (shape2 raw - 1)) w ∧
    (false = false → w = VTensor 1%positive) ∧
    (false = true → true = false → w = VNone) ∧
    (false = true → true = true → ∃ m, w = VMask m).
Proof.
  apply (unnormalize_always_returns_a_pair fitted_sample default_norms
           default_shifts [f 1; f 2; f 5; f 1] true 1%positive false false
           true true {[1%positive := raw]} raw _ (snd unnormalize_run)).
  - vm_compute. reflexivity.
  - vm_compute. reflexivity.
  - vm_compute. reflexivity.
  - vm_compute. reflexivity.
  - apply lookup_singleton_eq.
  - apply raw_well_shaped.
  - exact unnormalize_run_returns.
Defined.
End FurtherWitnesses.

(** ** Noise padding after construction *)

Section NoiseAfterConstruction.
Context {R : Type} {D : Dtype R}.
Variable randn : nat → nat → nat → list (list (list R)).

Lemma adjusted_particles_positive p0 npad :
  (0 < p0)%nat → (0 < adjusted_particles p0 0 npad)%nat.
Proof.
  intros Hp. unfold adjusted_particles.
  destruct ((0 <? 0 - npad) && (0 - npad <? Z.of_nat p0)) eqn:E.
  - apply andb_true_iff in E as [E1%Z.ltb_lt _].
    destruct (0 <? npad); lia.
  - destruct (0 <? npad); lia.
Qed.

(** X20. The default [num_particles = 0] ("use all") and
    [add_noise_padding] do not go together: on every dataset constructed
    with it from a file that has particles, the call raises IndexError
    and leaves the dataset as it was, because the noise tensor is drawn
    with [self.num_particles = 0] particle slots. *)
Theorem noise_padding_fails_at_default_count raw (a : args R) (h : heap R)
    self h' :
  (0 < shape1 raw)%nat → (1 < shape2 raw)%nat → num_particles a = 0 →
  __init__ randn raw a h = (Returned self, h') →
  add_noise_padding randn self (fresh (dom h)) h' = (Raised IndexError, h').
Proof.
  intros HP HF Hnp Hrun.
  apply init_returned in Hrun
    as (_ & t' & mx & cut & tcut & jf & _ & -> & _ & S1 & S2 & _ & ->).
  assert (constructed a (fresh (dom h)) (shape0 raw) mx cut tcut jf
            !! "num_particles" = Some (AInt 0)) as Hattr
      by (unfold constructed; rewrite Hnp; destruct (_ && _); now lookup_attr).
  unfold add_noise_padding.
  rewrite (bind_run _ _ _ _ _ (read_run _ _ _ (lookup_insert_eq _ _ _))).
  rewrite (bind_run _ _ _ _ _ (get_int_run _ _ _ _ Hattr)).
  assert ((shape2 t' =? 0)%nat = false) as ->
      by (apply Nat.eqb_neq; rewrite S2; destruct (use_mask a); lia).
  simpl.
  destruct (decide (2 < shape2 t' - 1)%nat); [|reflexivity].
  destruct (decide (shape1 t' = Z.to_nat 0)) as [E|]; [|reflexivity].
  rewrite S1, Hnp in E.
  pose proof (adjusted_particles_positive _ (num_pad_particles a) HP). lia.
Qed.
End NoiseAfterConstruction.

Section NoiseAfterConstructionWitness.
Import Sample.

Lemma noise_padding_fails_witness :
  add_noise_padding randn (returned_object default_run)
    (fresh (dom (∅ : heap F32.t))) (snd default_run)
  = (Raised IndexError, snd default_run).
Proof.
  refine (noise_padding_fails_at_default_count randn raw
            (with_train true defaults) ∅ (returned_object default_run)
            (snd default_run) _ _ _ _).
  - simpl. lia.
  - simpl. lia.
  - reflexivity.
  - apply returns_value. vm_compute. reflexivity.
Defined.
End NoiseAfterConstructionWitness.
